(** * W4RP-BLE: WBP codec, rule engine, OTA service and status frame

    A shallow embedding of the firmware core (src/src/core/Protocol.cpp,
    src/src/core/Engine.cpp, src/src/drivers/ESP32OTAService.cpp and
    src/W4RP.cpp) together with the properties its specification states
    about it.

    Conventions.  Fixed-width unsigned integers are [Z] with the wrap-around
    written out ([u8], [u16], [u32], [u64]).  A byte buffer is a [list Z]
    whose elements are read modulo 256.  A C++ [float] is an IEEE-754
    binary32 value, represented by [spec_float] with precision 24 and
    maximal exponent 128.  [millis()] is passed in as the argument [now]. *)

From Stdlib Require Import ZArith Lia Bool String Ascii.
From Stdlib Require Import Floats.SpecFloat.
From stdpp Require Import base option list gmap strings pretty.

Local Open Scope Z_scope.

(** ** Machine integers *)

Definition u8 (z : Z) : Z := z mod 2 ^ 8.
Definition u16 (z : Z) : Z := z mod 2 ^ 16.
Definition u32 (z : Z) : Z := z mod 2 ^ 32.
Definition u64 (z : Z) : Z := z mod 2 ^ 64.

(** [(int64_t)raw] for a 64-bit pattern [raw]. *)
Definition s64 (z : Z) : Z :=
  let r := u64 z in if 2 ^ 63 <=? r then r - 2 ^ 64 else r.

(** ** binary32 arithmetic *)

Module F32.

Definition prec : Z := 24.
Definition emax : Z := 128.

Definition add : spec_float -> spec_float -> spec_float := SFadd prec emax.
Definition sub : spec_float -> spec_float -> spec_float := SFsub prec emax.
Definition mul : spec_float -> spec_float -> spec_float := SFmul prec emax.
Definition div : spec_float -> spec_float -> spec_float := SFdiv prec emax.
Definition abs : spec_float -> spec_float := SFabs.

(** [x < y], [x <= y]; both are false when either side is a NaN. *)
Definition ltb : spec_float -> spec_float -> bool := SFltb.
Definition leb : spec_float -> spec_float -> bool := SFleb.

(** Integer-to-float conversion, round to nearest even. *)
Definition of_Z (z : Z) : spec_float := binary_normalize prec emax z 0 false.

(** The value whose IEEE-754 encoding is the 32-bit pattern [w]. *)
Definition of_bits (w : Z) : spec_float :=
  let s := Z.testbit w 31 in
  let e := Z.land (Z.shiftr w 23) 255 in
  let m := Z.land w (2 ^ 23 - 1) in
  if e =? 0 then
    match m with
    | Zpos p => S754_finite s p (-149)
    | _ => S754_zero s
    end
  else if e =? 255 then
    (if m =? 0 then S754_infinity s else S754_nan)
  else
    match m + 2 ^ 23 with
    | Zpos p => S754_finite s p (e - 150)
    | _ => S754_nan
    end.

(** [static_cast<uint32_t>(x)]: truncation toward zero.  C++ leaves the
    conversion of a NaN, an infinity or an out-of-range value undefined;
    here those give [0] or the wrapped value. *)
Definition to_u32 (x : spec_float) : Z :=
  match x with
  | S754_finite false m e =>
      u32 (if 0 <=? e then Z.pos m * 2 ^ e else Z.pos m / 2 ^ (- e))
  | _ => 0
  end.

Definition zero : spec_float := S754_zero false.
(** [0.0001f] *)
Definition EPSILON : spec_float := of_bits 0x38d1b717.
(** [0.01f] *)
Definition c0_01 : spec_float := of_bits 0x3c23d70a.
(** [86400000.0f] *)
Definition c86400000 : spec_float := of_bits 0x4ca4cb80.
(** [100.0f] *)
Definition c100 : spec_float := of_bits 0x42c80000.
(** [-999999.9f] *)
Definition cm999999_9 : spec_float := of_bits 0xc97423fe.

End F32.

(** ** CRC-32 *)

(** Modelled from the spec: [esp_crc32_le] is ESP-IDF ROM code and is not
    part of the repository.  The specification fixes it as CRC-32/IEEE with
    the reflected polynomial [0xEDB88320]; the ROM routine complements the
    running value on entry and on exit, so that a CRC can be continued over
    consecutive chunks. *)
Definition crc_bit (c : Z) : Z :=
  if Z.odd c then Z.lxor (Z.shiftr c 1) 0xEDB88320 else Z.shiftr c 1.

Definition crc_byte (c b : Z) : Z :=
  Nat.iter 8 crc_bit (Z.lxor c (u8 b)).

Definition esp_crc32_le (crc : Z) (buf : list Z) : Z :=
  Z.lxor (fold_left crc_byte buf (Z.lxor crc 0xFFFFFFFF)) 0xFFFFFFFF.

(** ** Byte buffers *)

(** [data[i]]; the callers check their bounds before reading. *)
Definition byteAt (data : list Z) (i : Z) : Z :=
  u8 (nth (Z.to_nat i) data 0).

Definition rd8 (data : list Z) (off : Z) : Z := byteAt data off.

Definition rd16 (data : list Z) (off : Z) : Z :=
  byteAt data off + 2 ^ 8 * byteAt data (off + 1).

Definition rd32 (data : list Z) (off : Z) : Z :=
  byteAt data off + 2 ^ 8 * byteAt data (off + 1)
  + 2 ^ 16 * byteAt data (off + 2) + 2 ^ 24 * byteAt data (off + 3).

Definition rdf32 (data : list Z) (off : Z) : spec_float :=
  F32.of_bits (rd32 data off).

(** The little-endian bytes of a 16-bit and of a 32-bit value. *)
Definition le16 (z : Z) : list Z := [z mod 256; z / 2 ^ 8 mod 256].

Definition le32 (z : Z) : list Z :=
  [z mod 256; z / 2 ^ 8 mod 256; z / 2 ^ 16 mod 256; z / 2 ^ 24 mod 256].

(** Arduino [String] built from raw bytes. *)
Definition string_of_bytes (bs : list Z) : string :=
  fold_right (fun b s => String (ascii_of_N (Z.to_N (u8 b))) s) EmptyString bs.

(** ** Types.h *)

Definition WBP_MAGIC_RULES : Z := 0xC0DE5702.
Definition WBP_VERSION : Z := 2.
Definition WBP_MIN_VERSION : Z := 2.
Definition WBP_FLAG_HAS_META : Z := 1.

Inductive Operation := EQ | NE | GT | GE | LT | LE | WITHIN | OUTSIDE | HOLD.

Definition Operation_of_code (c : Z) : option Operation :=
  match c with
  | 0 => Some EQ | 1 => Some NE | 2 => Some GT | 3 => Some GE | 4 => Some LT
  | 5 => Some LE | 6 => Some WITHIN | 7 => Some OUTSIDE | 8 => Some HOLD
  | _ => None
  end.

Inductive ParamType := INT | FLOAT | STRING | BOOL.

Definition ParamType_of_code (c : Z) : option ParamType :=
  match c with
  | 0 => Some INT | 1 => Some FLOAT | 2 => Some STRING | 3 => Some BOOL
  | _ => None
  end.

Record RuntimeSignal := mkSignal {
  canId : Z;
  startBit : Z;
  bitLength : Z;
  bigEndian : bool;
  isSigned : bool;
  factor : spec_float;
  offset : spec_float;
  value : spec_float;
  lastValue : spec_float;
  lastDebugValue : spec_float;
  lastUpdateMs : Z;
  everSet : bool
}.

(** The index fields [signalIdx], [actionStartIdx] and [actionCount] are
    [uint8_t] in the source; they are natural numbers here. *)
Record RuntimeCondition := mkCondition {
  signalIdx : nat;
  operation : Operation;
  value1 : spec_float;
  value2 : spec_float;
  holdMs : Z;
  holdStartMs : Z;
  holdActive : bool;
  lastResult : bool
}.

(** The anonymous union of [RuntimeParam]. *)
Inductive ParamNumber :=
| intVal (i : Z)
| floatVal (f : spec_float).

Record RuntimeParam := mkParam {
  ptype : ParamType;
  pnum : ParamNumber;
  strVal : string
}.

Record RuntimeAction := mkAction {
  capabilityId : string;
  params : list RuntimeParam
}.

Record RuntimeRule := mkRule {
  conditionMask : Z;
  actionStartIdx : nat;
  actionCount : nat;
  debounceMs : Z;
  cooldownMs : Z;
  lastTriggerMs : Z;
  lastConditionChangeMs : Z;
  lastConditionState : bool
}.

(** [CanFrame] of interfaces/CAN.h, as far as the engine reads it. *)
Record CanFrame := mkFrame {
  frame_id : Z;
  frame_data : list Z
}.

(** ** Engine.cpp: signal decoding *)

(** One iteration of the little-endian loop of [extractBits].  [bitPos] is a
    [uint16_t] and [byteIdx] a [uint8_t]. *)
Definition extractBits_le_step (data : list Z) (start : Z) (result : Z) (i : nat) : Z :=
  let bitPos := u16 (start + Z.of_nat i) in
  let byteIdx := u8 (bitPos / 8) in
  let bitIdx := bitPos mod 8 in
  if byteIdx <? 8 then
    let bit := Z.land (Z.shiftr (byteAt data byteIdx) bitIdx) 1 in
    Z.lor result (u64 (Z.shiftl bit (Z.of_nat i)))
  else result.

(** One iteration of the big-endian loop.  [bitPos] is an [int]. *)
Definition extractBits_be_step (data : list Z) (start : Z) (result : Z) (i : nat) : Z :=
  let bitPos := start - Z.of_nat i in
  if (bitPos <? 0) || (64 <=? bitPos) then result
  else
    let byteIdx := u8 (bitPos / 8) in
    let bitIdx := bitPos mod 8 in
    let bit := Z.land (Z.shiftr (byteAt data byteIdx) bitIdx) 1 in
    Z.lor (u64 (Z.shiftl result 1)) bit.

Definition extractBits (data : list Z) (start len : Z) (bigEndian : bool) : Z :=
  if (len =? 0) || (64 <? len) then 0
  else if negb bigEndian then
    fold_left (extractBits_le_step data start) (seq 0 (Z.to_nat len)) 0
  else
    fold_left (extractBits_be_step data start) (seq 0 (Z.to_nat len)) 0.

Definition decodeSignal (sig : RuntimeSignal) (data : list Z) : spec_float :=
  let raw := extractBits data (startBit sig) (bitLength sig) (bigEndian sig) in
  let val :=
    if isSigned sig then
      let raw' :=
        if (0 <? bitLength sig) && (bitLength sig <? 64) then
          if Z.testbit raw (bitLength sig - 1)
          then Z.lor raw (u64 (Z.shiftl (2 ^ 64 - 1) (bitLength sig)))
          else raw
        else raw in
      F32.of_Z (s64 raw')
    else F32.of_Z raw in
  F32.add (F32.mul val (factor sig)) (offset sig).

(** ** Protocol.cpp: the WBP rules parser *)

(** [parseRules] returns [false] on every failure and prints a diagnostic;
    each failure is tagged here with the kind that its diagnostic names. *)
Inductive ParseError :=
| ShortHeader | BadMagic | UnsupportedVersion | TruncatedBody | CrcMismatch
| BadStringTableOffset | CountsOverflow | InvalidSignalIdx | InvalidOperation
| InvalidHoldDuration | EmptyCapabilityId | ParamRangeOverflow
| InvalidParamType | ConditionMaskOutOfRange | ActionRangeOverflow.

Definition Parse (A : Type) : Type := ParseError + A.

Definition bindP {A B : Type} (m : Parse A) (k : A -> Parse B) : Parse B :=
  match m with
  | inl e => inl e
  | inr a => k a
  end.

Definition mapP {A B : Type} (f : A -> B) (m : Parse A) : Parse B :=
  bindP m (fun a => inr (f a)).

Notation "'let?' x := m 'in' k" := (bindP m (fun x => k))
  (at level 10, x name, m at level 200, k at level 200, only parsing).
Notation "'require' b 'or_fail' e 'in' k" := (if b then k else inl e)
  (at level 10, b at level 9, e at level 9, k at level 200, only parsing).

(** A loop body run for [i = 0 .. n-1] that stops at its first failure. *)
Fixpoint forP {A : Type} (body : Z -> Parse A) (idxs : list nat) : Parse (list A) :=
  match idxs with
  | [] => inr []
  | i :: idxs' =>
      let? a := body (Z.of_nat i) in
      let? rest := forP body idxs' in
      inr (a :: rest)
  end.

Module Protocol.

Definition calculateCRC32 (data : list Z) : Z := esp_crc32_le 0 data.

(** Sizes of the packed wire structures. *)
Definition sizeof_WBPRulesHeader : Z := 24.
Definition sizeof_WBPMeta : Z := 40.
Definition sizeof_WBPSignal : Z := 16.
Definition sizeof_WBPCondition : Z := 12.
Definition sizeof_WBPAction : Z := 8.
Definition sizeof_WBPActionParam : Z := 4.
Definition sizeof_WBPRule : Z := 10.

Record WBPRulesHeader := mkHeader {
  hdr_magic : Z;
  hdr_version : Z;
  hdr_flags : Z;
  hdr_totalSize : Z;
  hdr_signalCount : Z;
  hdr_conditionCount : Z;
  hdr_actionCount : Z;
  hdr_ruleCount : Z;
  hdr_actionParamCount : Z;
  hdr_metaOffset : Z;
  hdr_stringTableOffset : Z;
  hdr_reserved : Z;
  hdr_crc32 : Z
}.

(** [reinterpret_cast<const WBPRulesHeader *>(data)] *)
Definition readHeader (data : list Z) : WBPRulesHeader :=
  {| hdr_magic := rd32 data 0;
     hdr_version := rd8 data 4;
     hdr_flags := rd8 data 5;
     hdr_totalSize := rd16 data 6;
     hdr_signalCount := rd8 data 8;
     hdr_conditionCount := rd8 data 9;
     hdr_actionCount := rd8 data 10;
     hdr_ruleCount := rd8 data 11;
     hdr_actionParamCount := rd16 data 12;
     hdr_metaOffset := rd16 data 14;
     hdr_stringTableOffset := rd16 data 16;
     hdr_reserved := rd16 data 18;
     hdr_crc32 := rd32 data 20 |}.

(** The bytes [data[from .. from+n)]. *)
Definition slice (data : list Z) (from n : Z) : list Z :=
  take (Z.to_nat n) (drop (Z.to_nat from) data).

(** The bytes that [strnlen(ptr, maxLen)] counts. *)
Fixpoint strn (bs : list Z) (maxLen : nat) : list Z :=
  match maxLen, bs with
  | S n, b :: bs' => if u8 b =? 0 then [] else b :: strn bs' n
  | _, _ => []
  end.

(** [stringTable] is [data + tableOff]. *)
Definition readStringFromTable (data : list Z) (tableOff : Z) (offset : Z)
    (tableLen : Z) : string :=
  if tableLen <=? offset then EmptyString
  else
    let maxLen := tableLen - offset in
    let s := strn (drop (Z.to_nat (tableOff + offset)) data) (Z.to_nat maxLen) in
    let len := Z.of_nat (length s) in
    if (len =? maxLen)
       && ((tableLen <=? offset + len)
           || negb (byteAt data (tableOff + offset + len) =? 0))
    then EmptyString
    else string_of_bytes s.

Definition parseSignal (data : list Z) (base : Z) (i : Z) : Parse RuntimeSignal :=
  let p := base + i * sizeof_WBPSignal in
  let flags := rd8 data (p + 7) in
  inr {| canId := rd32 data p;
         startBit := rd16 data (p + 4);
         bitLength := rd8 data (p + 6);
         bigEndian := negb (Z.land flags 1 =? 0);
         isSigned := negb (Z.land flags 2 =? 0);
         factor := rdf32 data (p + 8);
         offset := rdf32 data (p + 12);
         value := F32.zero;
         lastValue := F32.zero;
         lastDebugValue := F32.cm999999_9;
         lastUpdateMs := 0;
         everSet := false |}.

Definition parseCondition (data : list Z) (hdr : WBPRulesHeader) (base : Z) (i : Z)
    : Parse RuntimeCondition :=
  let p := base + i * sizeof_WBPCondition in
  let sidx := rd8 data p in
  require (sidx <? hdr_signalCount hdr) or_fail InvalidSignalIdx in
  let opCode := rd8 data (p + 1) in
  match Operation_of_code opCode with
  | None => inl InvalidOperation
  | Some op =>
      let v1 := rdf32 data (p + 4) in
      let v2 := rdf32 data (p + 8) in
      match op with
      | HOLD =>
          require (negb (F32.ltb v1 F32.zero || F32.ltb F32.c86400000 v1))
            or_fail InvalidHoldDuration in
          inr {| signalIdx := Z.to_nat sidx; operation := op; value1 := v1; value2 := v2;
                 holdMs := F32.to_u32 v1; holdStartMs := 0;
                 holdActive := false; lastResult := false |}
      | _ =>
          inr {| signalIdx := Z.to_nat sidx; operation := op; value1 := v1; value2 := v2;
                 holdMs := 0; holdStartMs := 0;
                 holdActive := false; lastResult := false |}
      end
  end.

Definition parseParam (data : list Z) (paramBase tableOff tableLen : Z)
    (paramStart : Z) (j : Z) : Parse RuntimeParam :=
  let p := paramBase + (paramStart + j) * sizeof_WBPActionParam in
  let ty := rd8 data p in
  let v := rd16 data (p + 2) in
  match ParamType_of_code ty with
  | None => inl InvalidParamType
  | Some INT => inr {| ptype := INT; pnum := intVal v; strVal := EmptyString |}
  | Some BOOL => inr {| ptype := BOOL; pnum := intVal v; strVal := EmptyString |}
  | Some FLOAT =>
      inr {| ptype := FLOAT; pnum := floatVal (F32.div (F32.of_Z v) F32.c100);
             strVal := EmptyString |}
  | Some STRING =>
      inr {| ptype := STRING; pnum := intVal 0;
             strVal := readStringFromTable data tableOff v tableLen |}
  end.

Definition parseAction (data : list Z) (hdr : WBPRulesHeader)
    (actionBase paramBase tableOff tableLen : Z) (i : Z) : Parse RuntimeAction :=
  let p := actionBase + i * sizeof_WBPAction in
  let cap := readStringFromTable data tableOff (rd16 data p) tableLen in
  require (negb (String.eqb cap EmptyString)) or_fail EmptyCapabilityId in
  let paramStart := rd8 data (p + 3) in
  let paramCount := rd8 data (p + 2) in
  require (paramStart + paramCount <=? hdr_actionParamCount hdr)
    or_fail ParamRangeOverflow in
  let? ps := forP (parseParam data paramBase tableOff tableLen paramStart)
              (seq 0 (Z.to_nat paramCount)) in
  inr {| capabilityId := cap; params := ps |}.

(** The mask validation loop: some [c < 32] has its bit set and
    [c >= conditionCount]. *)
Definition maskOutOfRange (mask condCount : Z) : bool :=
  existsb (fun c => Z.testbit mask (Z.of_nat c) && (condCount <=? Z.of_nat c))
          (seq 0 32).

Definition parseRule (data : list Z) (hdr : WBPRulesHeader) (base : Z) (i : Z)
    : Parse RuntimeRule :=
  let p := base + i * sizeof_WBPRule in
  let mask := rd32 data (p + 2) in
  let aStart := rd8 data (p + 6) in
  let aCount := rd8 data (p + 7) in
  require (negb (maskOutOfRange mask (hdr_conditionCount hdr)))
    or_fail ConditionMaskOutOfRange in
  require (aStart + aCount <=? hdr_actionCount hdr) or_fail ActionRangeOverflow in
  inr {| conditionMask := mask;
         actionStartIdx := Z.to_nat aStart;
         actionCount := Z.to_nat aCount;
         debounceMs := u16 (rd8 data (p + 8) * 10);
         cooldownMs := u16 (rd8 data (p + 9) * 10);
         lastTriggerMs := 0;
         lastConditionChangeMs := 0;
         lastConditionState := false |}.

Record Tables := mkTables {
  outSignals : list RuntimeSignal;
  outConditions : list RuntimeCondition;
  outActions : list RuntimeAction;
  outRules : list RuntimeRule
}.

(** [header->flags & WBP_FLAG_HAS_META] *)
Definition hasMeta (hdr : WBPRulesHeader) : bool :=
  negb (Z.land (hdr_flags hdr) WBP_FLAG_HAS_META =? 0).

(** The local [offset] after the optional meta block. *)
Definition firstOffset (hdr : WBPRulesHeader) : Z :=
  sizeof_WBPRulesHeader + (if hasMeta hdr then sizeof_WBPMeta else 0).

(** The local [expectedSize]. *)
Definition expectedSize (hdr : WBPRulesHeader) : Z :=
  sizeof_WBPRulesHeader + (if hasMeta hdr then sizeof_WBPMeta else 0)
  + hdr_signalCount hdr * sizeof_WBPSignal
  + hdr_conditionCount hdr * sizeof_WBPCondition
  + hdr_actionCount hdr * sizeof_WBPAction
  + hdr_actionParamCount hdr * sizeof_WBPActionParam
  + hdr_ruleCount hdr * sizeof_WBPRule.

(** The CRC of the bytes [[sizeof(header) .. totalSize)]. *)
Definition bodyCrc (data : list Z) (hdr : WBPRulesHeader) : Z :=
  calculateCRC32
    (slice data sizeof_WBPRulesHeader (hdr_totalSize hdr - sizeof_WBPRulesHeader)).

Definition parseRules (data : list Z) : Parse Tables :=
  let len := Z.of_nat (length data) in
  require (sizeof_WBPRulesHeader <=? len) or_fail ShortHeader in
  let hdr := readHeader data in
  require (hdr_magic hdr =? WBP_MAGIC_RULES) or_fail BadMagic in
  require (negb ((hdr_version hdr <? WBP_MIN_VERSION)
                 || (WBP_VERSION <? hdr_version hdr)))
    or_fail UnsupportedVersion in
  require (hdr_totalSize hdr <=? len) or_fail TruncatedBody in
  require (sizeof_WBPRulesHeader <=? hdr_totalSize hdr) or_fail TruncatedBody in
  require (bodyCrc data hdr =? hdr_crc32 hdr) or_fail CrcMismatch in
  let offset0 := firstOffset hdr in
  require (negb ((hdr_stringTableOffset hdr <? offset0)
                 || (hdr_totalSize hdr <=? hdr_stringTableOffset hdr)))
    or_fail BadStringTableOffset in
  require (negb ((len <? expectedSize hdr)
                 || (hdr_stringTableOffset hdr <? expectedSize hdr)))
    or_fail CountsOverflow in
  let tableOff := hdr_stringTableOffset hdr in
  let tableLen := hdr_totalSize hdr - hdr_stringTableOffset hdr in
  let? sigs := forP (parseSignal data offset0)
                    (seq 0 (Z.to_nat (hdr_signalCount hdr))) in
  let offset1 := offset0 + hdr_signalCount hdr * sizeof_WBPSignal in
  let? conds := forP (parseCondition data hdr offset1)
                     (seq 0 (Z.to_nat (hdr_conditionCount hdr))) in
  let offset2 := offset1 + hdr_conditionCount hdr * sizeof_WBPCondition in
  let offset3 := offset2 + hdr_actionCount hdr * sizeof_WBPAction in
  let offset4 := offset3 + hdr_actionParamCount hdr * sizeof_WBPActionParam in
  let? acts := forP (parseAction data hdr offset2 offset3 tableOff tableLen)
                    (seq 0 (Z.to_nat (hdr_actionCount hdr))) in
  let? rules := forP (parseRule data hdr offset4)
                     (seq 0 (Z.to_nat (hdr_ruleCount hdr))) in
  inr {| outSignals := sigs; outConditions := conds;
         outActions := acts; outRules := rules |}.

(** The first four groups of checks of [parseRules] all pass. *)
Definition headerChecksPass (data : list Z) : Prop :=
  let hdr := readHeader data in
  sizeof_WBPRulesHeader <= Z.of_nat (length data)
  /\ hdr_magic hdr = WBP_MAGIC_RULES
  /\ WBP_MIN_VERSION <= hdr_version hdr <= WBP_VERSION
  /\ sizeof_WBPRulesHeader <= hdr_totalSize hdr <= Z.of_nat (length data).

Definition stringTableOffsetInvalid (data : list Z) : Prop :=
  let hdr := readHeader data in
  hdr_stringTableOffset hdr < firstOffset hdr
  \/ hdr_totalSize hdr <= hdr_stringTableOffset hdr.

Definition countsOverflow (data : list Z) : Prop :=
  let hdr := readHeader data in
  Z.of_nat (length data) < expectedSize hdr
  \/ hdr_stringTableOffset hdr < expectedSize hdr.

Definition crcMismatch (data : list Z) : Prop :=
  bodyCrc data (readHeader data) <> hdr_crc32 (readHeader data).

End Protocol.

(** ** Engine.cpp: the rule engine *)

(** A registered [CapabilityHandler] is an opaque callback; it is identified
    by a number, and calling it is recorded as an [Invocation]. *)
Definition Handler : Type := nat.

Record Invocation := mkInvocation {
  inv_handler : Handler;
  inv_capability : string;
  inv_params : list RuntimeParam
}.

(** What one pass of the rule loop did for one rule: the value of [allMet],
    and, when the rule fired, the actions handed to [executeAction]. *)
Record Outcome := mkOutcome {
  allMet : bool;
  fired : option (list RuntimeAction)
}.

(** A definition accepted by the text scanner of [loadDebugSignals]: the six
    fields after [toInt]/[toFloat].  The Arduino [String] scanning itself is
    library code outside the repository. *)
Record DebugDef := mkDebugDef {
  def_canId : Z;
  def_startBit : Z;
  def_bitLen : Z;
  def_be : Z;
  def_factor : spec_float;
  def_offset : spec_float
}.

Module Engine.

(** The members of [class Engine].  [signalMap_] holds pointers into
    [signals_]; they are kept as indices.  [capabilityMeta_] only feeds the
    profile serializer and is left out. *)
Record State := mkState {
  signals_ : list RuntimeSignal;
  conditions_ : list RuntimeCondition;
  actions_ : list RuntimeAction;
  rules_ : list RuntimeRule;
  rulesetBinary_ : list Z;
  rulesetCRC_ : Z;
  signalMap_ : gmap Z (list nat);
  handlers_ : gmap string Handler;
  debugMode_ : bool;
  debugSignals_ : list RuntimeSignal;
  debugSignalMap_ : gmap Z (list nat);
  debugDirtyFlags_ : list bool;
  debugDirtyQueue_ : list nat;
  debugQueueHead_ : nat;
  rulesTriggered_ : Z;
  unknownCapability_ : string
}.

Definition init : State :=
  {| signals_ := []; conditions_ := []; actions_ := []; rules_ := [];
     rulesetBinary_ := []; rulesetCRC_ := 0; signalMap_ := ∅; handlers_ := ∅;
     debugMode_ := false; debugSignals_ := []; debugSignalMap_ := ∅;
     debugDirtyFlags_ := []; debugDirtyQueue_ := []; debugQueueHead_ := 0%nat;
     rulesTriggered_ := 0; unknownCapability_ := EmptyString |}.

(** *** Member updates *)

Definition set_unknownCapability (e : State) (id : string) : State :=
  {| signals_ := signals_ e; conditions_ := conditions_ e;
     actions_ := actions_ e; rules_ := rules_ e;
     rulesetBinary_ := rulesetBinary_ e; rulesetCRC_ := rulesetCRC_ e;
     signalMap_ := signalMap_ e; handlers_ := handlers_ e;
     debugMode_ := debugMode_ e; debugSignals_ := debugSignals_ e;
     debugSignalMap_ := debugSignalMap_ e;
     debugDirtyFlags_ := debugDirtyFlags_ e;
     debugDirtyQueue_ := debugDirtyQueue_ e;
     debugQueueHead_ := debugQueueHead_ e;
     rulesTriggered_ := rulesTriggered_ e; unknownCapability_ := id |}.

Definition set_handlers (e : State) (h : gmap string Handler) : State :=
  {| signals_ := signals_ e; conditions_ := conditions_ e;
     actions_ := actions_ e; rules_ := rules_ e;
     rulesetBinary_ := rulesetBinary_ e; rulesetCRC_ := rulesetCRC_ e;
     signalMap_ := signalMap_ e; handlers_ := h;
     debugMode_ := debugMode_ e; debugSignals_ := debugSignals_ e;
     debugSignalMap_ := debugSignalMap_ e;
     debugDirtyFlags_ := debugDirtyFlags_ e;
     debugDirtyQueue_ := debugDirtyQueue_ e;
     debugQueueHead_ := debugQueueHead_ e;
     rulesTriggered_ := rulesTriggered_ e;
     unknownCapability_ := unknownCapability_ e |}.

Definition set_ruleset (e : State) (sigs : list RuntimeSignal)
    (conds : list RuntimeCondition) (acts : list RuntimeAction)
    (rules : list RuntimeRule) (smap : gmap Z (list nat)) (bin : list Z)
    (crc : Z) (triggered : Z) (unknown : string) : State :=
  {| signals_ := sigs; conditions_ := conds; actions_ := acts; rules_ := rules;
     rulesetBinary_ := bin; rulesetCRC_ := crc;
     signalMap_ := smap; handlers_ := handlers_ e;
     debugMode_ := debugMode_ e; debugSignals_ := debugSignals_ e;
     debugSignalMap_ := debugSignalMap_ e;
     debugDirtyFlags_ := debugDirtyFlags_ e;
     debugDirtyQueue_ := debugDirtyQueue_ e;
     debugQueueHead_ := debugQueueHead_ e;
     rulesTriggered_ := triggered; unknownCapability_ := unknown |}.

Definition set_signals (e : State) (sigs : list RuntimeSignal) : State :=
  {| signals_ := sigs; conditions_ := conditions_ e;
     actions_ := actions_ e; rules_ := rules_ e;
     rulesetBinary_ := rulesetBinary_ e; rulesetCRC_ := rulesetCRC_ e;
     signalMap_ := signalMap_ e; handlers_ := handlers_ e;
     debugMode_ := debugMode_ e; debugSignals_ := debugSignals_ e;
     debugSignalMap_ := debugSignalMap_ e;
     debugDirtyFlags_ := debugDirtyFlags_ e;
     debugDirtyQueue_ := debugDirtyQueue_ e;
     debugQueueHead_ := debugQueueHead_ e;
     rulesTriggered_ := rulesTriggered_ e;
     unknownCapability_ := unknownCapability_ e |}.

Definition set_evaluated (e : State) (conds : list RuntimeCondition)
    (rules : list RuntimeRule) (triggered : Z) : State :=
  {| signals_ := signals_ e; conditions_ := conds;
     actions_ := actions_ e; rules_ := rules;
     rulesetBinary_ := rulesetBinary_ e; rulesetCRC_ := rulesetCRC_ e;
     signalMap_ := signalMap_ e; handlers_ := handlers_ e;
     debugMode_ := debugMode_ e; debugSignals_ := debugSignals_ e;
     debugSignalMap_ := debugSignalMap_ e;
     debugDirtyFlags_ := debugDirtyFlags_ e;
     debugDirtyQueue_ := debugDirtyQueue_ e;
     debugQueueHead_ := debugQueueHead_ e;
     rulesTriggered_ := triggered;
     unknownCapability_ := unknownCapability_ e |}.

Definition set_debug (e : State) (mode : bool) (dsigs : list RuntimeSignal)
    (dmap : gmap Z (list nat)) (dflags : list bool) (queue : list nat)
    (head : nat) : State :=
  {| signals_ := signals_ e; conditions_ := conditions_ e;
     actions_ := actions_ e; rules_ := rules_ e;
     rulesetBinary_ := rulesetBinary_ e; rulesetCRC_ := rulesetCRC_ e;
     signalMap_ := signalMap_ e; handlers_ := handlers_ e;
     debugMode_ := mode; debugSignals_ := dsigs;
     debugSignalMap_ := dmap;
     debugDirtyFlags_ := dflags;
     debugDirtyQueue_ := queue;
     debugQueueHead_ := head;
     rulesTriggered_ := rulesTriggered_ e;
     unknownCapability_ := unknownCapability_ e |}.

(** *** Accessors of Engine.h *)

Definition getUnknownCapability (e : State) : string := unknownCapability_ e.
Definition getRulesetBinary (e : State) : list Z := rulesetBinary_ e.
Definition getRulesetCRC (e : State) : Z := rulesetCRC_ e.
Definition getSignalCount (e : State) : nat := length (signals_ e).
Definition getConditionCount (e : State) : nat := length (conditions_ e).
Definition getActionCount (e : State) : nat := length (actions_ e).
Definition getRuleCount (e : State) : nat := length (rules_ e).
Definition getRulesTriggered (e : State) : Z := rulesTriggered_ e.
Definition isDebugMode (e : State) : bool := debugMode_ e.

Definition setDebugMode (e : State) (enabled : bool) : State :=
  set_debug e enabled (debugSignals_ e) (debugSignalMap_ e)
    (debugDirtyFlags_ e) (debugDirtyQueue_ e) (debugQueueHead_ e).

Definition registerCapability (e : State) (id : string) (h : Handler) : State :=
  set_handlers e (<[id := h]> (handlers_ e)).

(** *** loadRuleset / clearRuleset *)

(** The validation loop over [newActions]: the capability id of the first
    action that has no handler. *)
Definition firstUnknown (handlers : gmap string Handler)
    (acts : list RuntimeAction) : option string :=
  capabilityId <$>
    List.find (fun a => bool_decide (handlers !! capabilityId a = None)) acts.

(** [map[canId].push_back(idx)] for every element, in order. *)
Definition pushIndex (m : gmap Z (list nat)) (key : Z) (idx : nat)
    : gmap Z (list nat) :=
  <[key := default [] (m !! key) ++ [idx]]> m.

Definition buildSignalMap (sigs : list RuntimeSignal) : gmap Z (list nat) :=
  fold_left (fun m '(i, sig) => pushIndex m (canId sig) i)
            (imap (fun i sig => (i, sig)) sigs) ∅.

Definition loadRuleset (e : State) (data : list Z) : State * bool :=
  match Protocol.parseRules data with
  | inl _ => (e, false)
  | inr t =>
      match firstUnknown (handlers_ e) (Protocol.outActions t) with
      | Some id => (set_unknownCapability e id, false)
      | None =>
          (set_ruleset e (Protocol.outSignals t) (Protocol.outConditions t)
             (Protocol.outActions t) (Protocol.outRules t)
             (buildSignalMap (Protocol.outSignals t))
             data (Protocol.calculateCRC32 data)
             (rulesTriggered_ e) EmptyString,
           true)
      end
  end.

Definition clearRuleset (e : State) : State :=
  set_ruleset e [] [] [] [] ∅ [] 0 0 (unknownCapability_ e).

(** *** processCanFrame *)

(** The four assignments made to a signal when its frame arrives. *)
Definition updateSignal (sig : RuntimeSignal) (data : list Z) (now : Z)
    : RuntimeSignal :=
  {| canId := canId sig; startBit := startBit sig; bitLength := bitLength sig;
     bigEndian := bigEndian sig; isSigned := isSigned sig;
     factor := factor sig; offset := offset sig;
     value := decodeSignal sig data;
     lastValue := value sig;
     lastDebugValue := lastDebugValue sig;
     lastUpdateMs := now;
     everSet := true |}.

Definition updateRulesetSignal (data : list Z) (now : Z)
    (sigs : list RuntimeSignal) (idx : nat) : list RuntimeSignal :=
  match sigs !! idx with
  | Some sig => <[idx := updateSignal sig data now]> sigs
  | None => sigs
  end.

(** [fabsf(sig.value - sig.lastDebugValue) > 0.01f] *)
Definition debugChanged (sig : RuntimeSignal) : bool :=
  F32.ltb F32.c0_01 (F32.abs (F32.sub (value sig) (lastDebugValue sig))).

(** The body of the loop over [dit->second]. *)
Definition updateDebugSignal (data : list Z) (now : Z) (e : State) (idx : nat)
    : State :=
  match debugSignals_ e !! idx with
  | None => e
  | Some sig =>
      let sig' := updateSignal sig data now in
      let dsigs := <[idx := sig']> (debugSignals_ e) in
      if debugChanged sig'
         && negb (default false (debugDirtyFlags_ e !! idx))
         && (length (debugDirtyQueue_ e) <? 64)%nat
      then
        set_debug e (debugMode_ e) dsigs (debugSignalMap_ e)
          (<[idx := true]> (debugDirtyFlags_ e))
          (debugDirtyQueue_ e ++ [idx]) (debugQueueHead_ e)
      else
        set_debug e (debugMode_ e) dsigs (debugSignalMap_ e)
          (debugDirtyFlags_ e) (debugDirtyQueue_ e) (debugQueueHead_ e)
  end.

Definition processCanFrame (e : State) (frame : CanFrame) (now : Z) : State :=
  let e1 :=
    match signalMap_ e !! frame_id frame with
    | Some idxs =>
        set_signals e
          (fold_left (updateRulesetSignal (frame_data frame) now) idxs (signals_ e))
    | None => e
    end in
  if debugMode_ e1 then
    match debugSignalMap_ e1 !! frame_id frame with
    | Some idxs => fold_left (updateDebugSignal (frame_data frame) now) idxs e1
    | None => e1
    end
  else e1.

(** *** evaluateCondition *)

Definition set_hold (cond : RuntimeCondition) (active : bool) (start : Z)
    : RuntimeCondition :=
  {| signalIdx := signalIdx cond; operation := operation cond;
     value1 := value1 cond; value2 := value2 cond; holdMs := holdMs cond;
     holdStartMs := start; holdActive := active;
     lastResult := lastResult cond |}.

(** A table access is [None] when the index is outside the table, which is
    undefined behaviour in the source; the result pairs the updated
    condition with the returned [bool]. *)
Definition evaluateCondition (sigs : list RuntimeSignal)
    (cond : RuntimeCondition) (nowMs : Z) : option (RuntimeCondition * bool) :=
  if (length sigs <=? signalIdx cond)%nat then Some (cond, false)
  else
    sig ← sigs !! signalIdx cond;
    if negb (everSet sig) then Some (cond, false)
    else
      let val := value sig in
      match operation cond with
      | HOLD =>
          if F32.ltb F32.EPSILON (F32.abs val) then
            let cond1 :=
              if negb (holdActive cond) then set_hold cond true nowMs else cond in
            Some (cond1, holdMs cond1 <=? u32 (nowMs - holdStartMs cond1))
          else Some (set_hold cond false 0, false)
      | EQ => Some (cond, F32.ltb (F32.abs (F32.sub val (value1 cond))) F32.EPSILON)
      | NE => Some (cond, F32.leb F32.EPSILON (F32.abs (F32.sub val (value1 cond))))
      | GT => Some (cond, F32.ltb (value1 cond) val)
      | GE => Some (cond, F32.leb (value1 cond) val)
      | LT => Some (cond, F32.ltb val (value1 cond))
      | LE => Some (cond, F32.leb val (value1 cond))
      | WITHIN =>
          Some (cond, F32.leb (value1 cond) val && F32.leb val (value2 cond))
      | OUTSIDE =>
          Some (cond, F32.ltb val (value1 cond) || F32.ltb (value2 cond) val)
      end.

(** *** executeAction *)

(** The handler is called with a map ["p0","p1",...] of the parameters
    rendered as text; the call is recorded with the parameters themselves. *)
Definition executeAction (handlers : gmap string Handler) (action : RuntimeAction)
    : list Invocation :=
  match handlers !! capabilityId action with
  | None => []
  | Some h => [mkInvocation h (capabilityId action) (params action)]
  end.

(** *** evaluateRules *)

(** The loop [for (c = 0; c < conditions_.size() && c < 32; c++)] over the
    remaining indices [cs]; it stops at the first condition that is false.
    [rule.conditionMask & (1 << c)] tests bit [c] of the mask. *)
Fixpoint evalMask (sigs : list RuntimeSignal) (nowMs : Z) (mask : Z)
    (cs : list nat) (conds : list RuntimeCondition)
    : option (list RuntimeCondition * bool) :=
  match cs with
  | [] => Some (conds, true)
  | c :: cs' =>
      if Z.testbit mask (Z.of_nat c) then
        cond ← conds !! c;
        '(cond', ok) ← evaluateCondition sigs cond nowMs;
        let conds' := <[c := cond']> conds in
        if (ok : bool) then evalMask sigs nowMs mask cs' conds'
        else Some (conds', false)
      else evalMask sigs nowMs mask cs' conds
  end.

(** The indices visited by
    [for (a = start; a < start + count && a < actions_.size(); a++)]. *)
Definition actionIndices (start count : nat) (size : nat) : list nat :=
  seq start (Nat.min (start + count) size - start).

Definition actionSlice (actions : list RuntimeAction) (start count : nat)
    : option (list RuntimeAction) :=
  mapM (fun a => actions !! a) (actionIndices start count (length actions)).

Definition set_conditionState (rule : RuntimeRule) (state : bool) (now : Z)
    : RuntimeRule :=
  {| conditionMask := conditionMask rule;
     actionStartIdx := actionStartIdx rule; actionCount := actionCount rule;
     debounceMs := debounceMs rule; cooldownMs := cooldownMs rule;
     lastTriggerMs := lastTriggerMs rule;
     lastConditionChangeMs := now;
     lastConditionState := state |}.

Definition set_lastTrigger (rule : RuntimeRule) (now : Z) : RuntimeRule :=
  {| conditionMask := conditionMask rule;
     actionStartIdx := actionStartIdx rule; actionCount := actionCount rule;
     debounceMs := debounceMs rule; cooldownMs := cooldownMs rule;
     lastTriggerMs := now;
     lastConditionChangeMs := lastConditionChangeMs rule;
     lastConditionState := lastConditionState rule |}.

(** The body of the loop over [rules_], for one rule.  [triggered] is
    [rulesTriggered_]. *)
Definition evalRule (sigs : list RuntimeSignal) (actions : list RuntimeAction)
    (nowMs : Z) (conds : list RuntimeCondition) (triggered : Z)
    (rule : RuntimeRule)
    : option (list RuntimeCondition * Z * RuntimeRule * Outcome) :=
  '(conds1, met) ← evalMask sigs nowMs (conditionMask rule)
                     (seq 0 (Nat.min (length conds) 32)) conds;
  let rule1 :=
    if negb (eqb met (lastConditionState rule))
    then set_conditionState rule met nowMs else rule in
  if negb met then Some (conds1, triggered, rule1, mkOutcome met None)
  else
    let debounced :=
      debounceMs rule1 <=? u32 (nowMs - lastConditionChangeMs rule1) in
    let cooldownOk := cooldownMs rule1 <=? u32 (nowMs - lastTriggerMs rule1) in
    if negb debounced || negb cooldownOk
    then Some (conds1, triggered, rule1, mkOutcome met None)
    else
      acts ← actionSlice actions (actionStartIdx rule1) (actionCount rule1);
      Some (conds1, u32 (triggered + 1), set_lastTrigger rule1 nowMs,
            mkOutcome met (Some acts)).

Fixpoint evalRulesLoop (sigs : list RuntimeSignal) (actions : list RuntimeAction)
    (nowMs : Z) (rules : list RuntimeRule) (conds : list RuntimeCondition)
    (triggered : Z)
    : option (list RuntimeCondition * Z * list RuntimeRule * list Outcome) :=
  match rules with
  | [] => Some (conds, triggered, [], [])
  | rule :: rest =>
      '(conds1, triggered1, rule', o) ←
        evalRule sigs actions nowMs conds triggered rule;
      '(conds2, triggered2, rest', os) ←
        evalRulesLoop sigs actions nowMs rest conds1 triggered1;
      Some (conds2, triggered2, rule' :: rest', o :: os)
  end.

(** The result lists one [Outcome] per rule, in rule order. *)
Definition evaluateRules (e : State) (nowMs : Z) : option (State * list Outcome) :=
  '(conds, triggered, rules, os) ←
    evalRulesLoop (signals_ e) (actions_ e) nowMs (rules_ e) (conditions_ e)
      (rulesTriggered_ e);
  Some (set_evaluated e conds rules triggered, os).

(** The handler calls made during one [evaluateRules], in order. *)
Definition invocations (handlers : gmap string Handler) (os : list Outcome)
    : list Invocation :=
  flat_map (fun o => flat_map (executeAction handlers) (default [] (fired o))) os.

(** *** Debug overlay *)

Definition debugSignalOfDef (d : DebugDef) : RuntimeSignal :=
  {| canId := u32 (def_canId d); startBit := u16 (def_startBit d);
     bitLength := u8 (def_bitLen d);
     bigEndian := negb (def_be d =? 0); isSigned := false;
     factor := def_factor d; offset := def_offset d;
     value := F32.zero; lastValue := F32.zero;
     lastDebugValue := F32.cm999999_9;
     lastUpdateMs := 0; everSet := false |}.

Definition loadDebugSignals (e : State) (defs : list DebugDef) : State * nat :=
  let newSignals := map debugSignalOfDef defs in
  let newMap := buildSignalMap newSignals in
  (set_debug e true newSignals newMap
     (replicate (length newSignals) false) [] 0%nat,
   length newSignals).

Definition clearDebugSignals (e : State) : State :=
  set_debug e false [] ∅ [] [] 0%nat.

Definition set_lastDebugValue (sig : RuntimeSignal) (v : spec_float)
    : RuntimeSignal :=
  {| canId := canId sig; startBit := startBit sig; bitLength := bitLength sig;
     bigEndian := bigEndian sig; isSigned := isSigned sig;
     factor := factor sig; offset := offset sig;
     value := value sig; lastValue := lastValue sig;
     lastDebugValue := v;
     lastUpdateMs := lastUpdateMs sig; everSet := everSet sig |}.

(** [Some out] stands for the result [true] with [outSignal = out]. *)
Definition popDirtyDebugSignal (e : State) : State * option RuntimeSignal :=
  if (length (debugDirtyQueue_ e) <=? debugQueueHead_ e)%nat then
    if (0 <? debugQueueHead_ e)%nat then
      (set_debug e (debugMode_ e) (debugSignals_ e) (debugSignalMap_ e)
         (debugDirtyFlags_ e) [] 0%nat, None)
    else (e, None)
  else
    let idx := default 0%nat (debugDirtyQueue_ e !! debugQueueHead_ e) in
    let head' := S (debugQueueHead_ e) in
    match debugSignals_ e !! idx with
    | Some sig =>
        (set_debug e (debugMode_ e)
           (<[idx := set_lastDebugValue sig (value sig)]> (debugSignals_ e))
           (debugSignalMap_ e)
           (<[idx := false]> (debugDirtyFlags_ e))
           (debugDirtyQueue_ e) head',
         Some sig)
    | None =>
        (set_debug e (debugMode_ e) (debugSignals_ e) (debugSignalMap_ e)
           (debugDirtyFlags_ e) (debugDirtyQueue_ e) head', None)
    end.

(** The entries of the dirty queue that have not been popped yet. *)
Definition pendingDirty (e : State) : list nat :=
  drop (debugQueueHead_ e) (debugDirtyQueue_ e).

End Engine.

(** ** ESP32OTAService.cpp: the full-image path *)

Inductive OTAStatus :=
| IDLE | RECEIVING | VALIDATING | APPLYING | SUCCESS
| ERROR_SPACE | ERROR_CRC | ERROR_SIGNATURE | ERROR_FLASH | ERROR_TIMEOUT.

(** A call made to one of the two registered callbacks. *)
Inductive OTAEvent :=
| Progress (bytesReceived totalBytes percentage : Z)
| Complete (status : OTAStatus).

Module ESP32OTAService.

(** The members the full-image path uses.  [progressCb_] and [completeCb_]
    record whether a callback is installed; [events] collects the calls
    made to them.  The results of the ESP-IDF flash routines are arguments
    of the operations that call them. *)
Record State := mkState {
  status_ : OTAStatus;
  otaHandle_ : Z;
  expectedSize_ : Z;
  expectedCRC_ : Z;
  receivedBytes_ : Z;
  calculatedCRC_ : Z;
  isDelta_ : bool;
  progressCb_ : bool;
  completeCb_ : bool;
  events : list OTAEvent
}.

Definition init : State :=
  {| status_ := IDLE; otaHandle_ := 0; expectedSize_ := 0; expectedCRC_ := 0;
     receivedBytes_ := 0; calculatedCRC_ := 0; isDelta_ := false;
     progressCb_ := false; completeCb_ := false; events := [] |}.

Definition OTAStatus_eqb (a b : OTAStatus) : bool :=
  match a, b with
  | IDLE, IDLE | RECEIVING, RECEIVING | VALIDATING, VALIDATING
  | APPLYING, APPLYING | SUCCESS, SUCCESS | ERROR_SPACE, ERROR_SPACE
  | ERROR_CRC, ERROR_CRC | ERROR_SIGNATURE, ERROR_SIGNATURE
  | ERROR_FLASH, ERROR_FLASH | ERROR_TIMEOUT, ERROR_TIMEOUT => true
  | _, _ => false
  end.

Definition getStatus (s : State) : OTAStatus := status_ s.

Definition needsPause (s : State) : bool :=
  OTAStatus_eqb (status_ s) APPLYING || OTAStatus_eqb (status_ s) VALIDATING.

Definition set_status (s : State) (st : OTAStatus) : State :=
  {| status_ := st; otaHandle_ := otaHandle_ s;
     expectedSize_ := expectedSize_ s; expectedCRC_ := expectedCRC_ s;
     receivedBytes_ := receivedBytes_ s; calculatedCRC_ := calculatedCRC_ s;
     isDelta_ := isDelta_ s; progressCb_ := progressCb_ s;
     completeCb_ := completeCb_ s; events := events s |}.

Definition set_otaHandle (s : State) (h : Z) : State :=
  {| status_ := status_ s; otaHandle_ := h;
     expectedSize_ := expectedSize_ s; expectedCRC_ := expectedCRC_ s;
     receivedBytes_ := receivedBytes_ s; calculatedCRC_ := calculatedCRC_ s;
     isDelta_ := isDelta_ s; progressCb_ := progressCb_ s;
     completeCb_ := completeCb_ s; events := events s |}.

Definition set_progress (s : State) (received crc : Z) : State :=
  {| status_ := status_ s; otaHandle_ := otaHandle_ s;
     expectedSize_ := expectedSize_ s; expectedCRC_ := expectedCRC_ s;
     receivedBytes_ := received; calculatedCRC_ := crc;
     isDelta_ := isDelta_ s; progressCb_ := progressCb_ s;
     completeCb_ := completeCb_ s; events := events s |}.

Definition emit (s : State) (ev : OTAEvent) : State :=
  {| status_ := status_ s; otaHandle_ := otaHandle_ s;
     expectedSize_ := expectedSize_ s; expectedCRC_ := expectedCRC_ s;
     receivedBytes_ := receivedBytes_ s; calculatedCRC_ := calculatedCRC_ s;
     isDelta_ := isDelta_ s; progressCb_ := progressCb_ s;
     completeCb_ := completeCb_ s; events := events s ++ [ev] |}.

Definition notifyProgress (s : State) : State :=
  if progressCb_ s && (0 <? expectedSize_ s) then
    emit s (Progress (receivedBytes_ s) (expectedSize_ s)
              (u8 (u32 (receivedBytes_ s * 100) / expectedSize_ s)))
  else s.

Definition notifyComplete (s : State) (st : OTAStatus) : State :=
  let s1 := set_status s st in
  if completeCb_ s1 then emit s1 (Complete st) else s1.

(** [partition] is the size of the partition found by
    [esp_ota_get_next_update_partition], if any; [begin] is the handle
    returned by [esp_ota_begin] when it succeeds. *)
Definition startFirmwareUpdate (partition : option Z) (begin : option Z)
    (s : State) (expectedSize crc32 : Z) : State * bool :=
  if negb (OTAStatus_eqb (status_ s) IDLE) then (s, false)
  else
    match partition with
    | None => (s, false)
    | Some size =>
        if size <? expectedSize then (s, false)
        else
          match begin with
          | None => (s, false)
          | Some h =>
              ({| status_ := RECEIVING; otaHandle_ := h;
                  expectedSize_ := expectedSize; expectedCRC_ := crc32;
                  receivedBytes_ := 0; calculatedCRC_ := 0; isDelta_ := false;
                  progressCb_ := progressCb_ s; completeCb_ := completeCb_ s;
                  events := events s |}, true)
          end
    end.

(** [write_ok] is the outcome of [esp_ota_write].  [len] is a 32-bit
    [size_t], so [receivedBytes_ + len] wraps at [2^32]. *)
Definition writeFirmwareChunk (write_ok : bool) (s : State) (data : list Z)
    : State * bool :=
  let len := Z.of_nat (length data) in
  if negb (OTAStatus_eqb (status_ s) RECEIVING) || isDelta_ s then (s, false)
  else if expectedSize_ s <? u32 (receivedBytes_ s + len) then
    (notifyComplete (set_status s ERROR_SPACE) ERROR_SPACE, false)
  else if negb write_ok then
    (notifyComplete (set_status s ERROR_FLASH) ERROR_FLASH, false)
  else
    (notifyProgress
       (set_progress s (u32 (receivedBytes_ s + len))
          (esp_crc32_le (calculatedCRC_ s) data)),
     true).

(** [end_ok] and [boot_ok] are the outcomes of [esp_ota_end] and
    [esp_ota_set_boot_partition]. *)
Definition finalizeFirmwareUpdate (end_ok boot_ok : bool) (s : State)
    : State * bool :=
  if negb (OTAStatus_eqb (status_ s) RECEIVING) || isDelta_ s then (s, false)
  else
    let s1 := set_status s VALIDATING in
    if negb (receivedBytes_ s1 =? expectedSize_ s1) then
      (notifyComplete (set_status s1 ERROR_SPACE) ERROR_SPACE, false)
    else if negb (calculatedCRC_ s1 =? expectedCRC_ s1) then
      (notifyComplete (set_status s1 ERROR_CRC) ERROR_CRC, false)
    else
      let s2 := set_otaHandle s1 0 in
      if negb end_ok then
        (notifyComplete (set_status s2 ERROR_FLASH) ERROR_FLASH, false)
      else if negb boot_ok then
        (notifyComplete (set_status s2 ERROR_FLASH) ERROR_FLASH, false)
      else (notifyComplete (set_status s2 SUCCESS) SUCCESS, true).

(** A full session declared with size [N] and CRC [C] that has accepted
    the bytes [bs] so far: opened by a successful [startFirmwareUpdate] and
    advanced by successful [writeFirmwareChunk] calls, each short enough
    for the 32-bit sum [receivedBytes_ + len] not to wrap. *)
Inductive FullSession (N C : Z) : list Z -> State -> Prop :=
| session_start partition begin s0 s :
    startFirmwareUpdate partition begin s0 N C = (s, true) ->
    FullSession N C [] s
| session_write bs s write_ok data s' :
    FullSession N C bs s ->
    Z.of_nat (length (bs ++ data)) < 2 ^ 32 ->
    writeFirmwareChunk write_ok s data = (s', true) ->
    FullSession N C (bs ++ data) s'.

End ESP32OTAService.

(** ** W4RP.cpp: the status frame *)

Module Controller.

(** The members [sendStatus] reads; [connected] is
    [transport_->isConnected()]. *)
Record State := mkState {
  engine_ : Engine.State;
  rulesMode_ : Z;
  bootCount_ : Z;
  connected : bool
}.

Definition dec (z : Z) : string := pretty z.

(** The frame handed to [transport_->sendStatus], if any. *)
Definition sendStatus (c : State) (millis : Z) : option string :=
  if negb (connected c) then None
  else
    Some ("S:" +:+ dec (rulesMode_ c)
          +:+ ":" +:+ dec (Z.of_nat (Engine.getSignalCount (engine_ c)))
          +:+ ":" +:+ dec (Z.of_nat (Engine.getRuleCount (engine_ c)))
          +:+ ":" +:+ dec (Z.of_nat (Engine.getSignalCount (engine_ c)))
          +:+ ":" +:+ dec millis
          +:+ ":" +:+ dec (bootCount_ c)).

(** The number of distinct CAN ids among the installed signals. *)
Definition uniqueCanIds (e : Engine.State) : nat :=
  size (list_to_set (canId <$> Engine.signals_ e) : gset Z).

(** The fields of a frame, split at [':']. *)
Fixpoint fieldsFrom (cur : string) (s : string) : list string :=
  match s with
  | EmptyString => [cur]
  | String c rest =>
      if Ascii.eqb c ":"%char then cur :: fieldsFrom EmptyString rest
      else fieldsFrom (cur +:+ String c EmptyString) rest
  end.

Definition fields (s : string) : list string := fieldsFrom EmptyString s.

End Controller.

(** ** The specification's wording of the two extraction rules *)

(** Bit [(pos mod 8)] of payload byte [(pos / 8)]. *)
Definition payloadBit (data : list Z) (pos : Z) : bool :=
  Z.testbit (byteAt data (pos / 8)) (pos mod 8).

(** Little-endian, as the specification words it: bit [i] of the result is
    payload bit [start + i], and a bit whose byte index is [>= 8] is
    skipped. *)
Definition spec_le_bit (data : list Z) (start : Z) (i : Z) : bool :=
  if (start + i) / 8 <? 8 then payloadBit data (start + i) else false.

(** Big-endian, as the specification words it: accumulate MSB-first over
    [i] in [[0, len)], an out-of-range position contributing a zero bit. *)
Definition spec_be_step (data : list Z) (start : Z) (result : Z) (i : nat) : Z :=
  let bitPos := start - Z.of_nat i in
  let bit :=
    if (bitPos <? 0) || (64 <=? bitPos) then 0
    else Z.b2z (payloadBit data bitPos) in
  Z.lor (u64 (Z.shiftl result 1)) bit.

Definition spec_extractBits_be (data : list Z) (start len : Z) : Z :=
  fold_left (spec_be_step data start) (seq 0 (Z.to_nat len)) 0.

(** ** Concrete rulesets and frames *)

Module Fixtures.

(** One signal (CAN id 0x100, bits 0..7, little-endian, factor 1.0, offset
    0.0), one condition [WITHIN] on it with value1 = 10.0 and value2 = 5.0,
    one action whose capability is ["buzz"], one rule with condition mask 1
    and no debounce or cooldown; string table ["buzz\0"]. *)
Definition within_swapped : list Z :=
  le32 WBP_MAGIC_RULES ++ [2; 0] ++ le16 75 ++ [1; 1; 1; 1]
  ++ le16 0 ++ le16 0 ++ le16 70 ++ le16 0 ++ le32 0x34AFB336
  ++ le32 0x100 ++ le16 0 ++ [8; 0] ++ le32 0x3F800000 ++ le32 0
  ++ [0; 6] ++ le16 0 ++ le32 0x41200000 ++ le32 0x40A00000
  ++ le16 0 ++ [0; 0] ++ le32 0
  ++ le16 0 ++ le32 1 ++ [0; 1; 0; 0]
  ++ [98; 117; 122; 122; 0].

(** A header that passes the magic, version and size checks (total size 53 =
    buffer length) whose string-table offset is 0 and whose crc32 field
    differs from the CRC of the body in its lowest bit. *)
Definition bad_offset_bad_crc : list Z :=
  le32 WBP_MAGIC_RULES ++ [2; 0] ++ le16 53 ++ [1; 1; 0; 0]
  ++ le16 0 ++ le16 0 ++ le16 0 ++ le16 0 ++ le32 0x84D22219
  ++ le32 0x100 ++ le16 0 ++ [8; 0] ++ le32 0x3F800000 ++ le32 0
  ++ [0; 2] ++ le16 0 ++ le32 0x3F800000 ++ le32 0
  ++ [0].

(** Two signals that share CAN id 0x100 (bits 0..7 and bits 8..15); no
    conditions, actions or rules. *)
Definition shared_can_id : list Z :=
  le32 WBP_MAGIC_RULES ++ [2; 0] ++ le16 57 ++ [2; 0; 0; 0]
  ++ le16 0 ++ le16 0 ++ le16 56 ++ le16 0 ++ le32 0x8CD0E73C
  ++ le32 0x100 ++ le16 0 ++ [8; 0] ++ le32 0x3F800000 ++ le32 0
  ++ le32 0x100 ++ le16 8 ++ [8; 0] ++ le32 0x3F800000 ++ le32 0
  ++ [0].

(** One signal (CAN id 0x100, bits 0..7), one condition [GT 0.0] on it, one
    action whose capability is ["log"], one rule with mask 1, debounce 10 ds
    and cooldown 50 ds; string table ["log\0"]. *)
Definition timed_rule : list Z :=
  le32 WBP_MAGIC_RULES ++ [2; 0] ++ le16 74 ++ [1; 1; 1; 1]
  ++ le16 0 ++ le16 0 ++ le16 70 ++ le16 0 ++ le32 0x9D57957C
  ++ le32 0x100 ++ le16 0 ++ [8; 0] ++ le32 0x3F800000 ++ le32 0
  ++ [0; 2] ++ le16 0 ++ le32 0 ++ le32 0
  ++ le16 0 ++ [0; 0] ++ le32 0
  ++ le16 0 ++ le32 1 ++ [0; 1; 10; 50]
  ++ [108; 111; 103; 0].

(** A frame on CAN id 0x100 whose first payload byte is [b]. *)
Definition frame_0x100 (b : Z) : CanFrame :=
  {| frame_id := 0x100; frame_data := [b; 0; 0; 0; 0; 0; 0; 0] |}.

(** An engine in which the capability [id] is registered. *)
Definition engine_with (id : string) : Engine.State :=
  Engine.registerCapability Engine.init id 1%nat.

End Fixtures.

(** ** Auxiliary notions for the extraction loops *)

(** The bit that iteration [i] of the little-endian loop contributes. *)
Definition le_code_bit (data : list Z) (start : Z) (i : Z) : bool :=
  let bitPos := u16 (start + i) in
  if u8 (bitPos / 8) <? 8
  then Z.testbit (byteAt data (u8 (bitPos / 8))) (bitPos mod 8)
  else false.

(** The positions [i] of the big-endian loop that fall inside the payload
    are [be_lo start <= i < be_hi start n] after [n] iterations. *)
Definition be_lo (start : Z) : Z := Z.max 0 (start - 63).
Definition be_hi (start : Z) (n : Z) : Z := Z.min n (start + 1).

(** The two signals of the specification's decoding scenarios. *)
Definition sig_le16 : RuntimeSignal :=
  {| canId := 0x100; startBit := 0; bitLength := 16; bigEndian := false;
     isSigned := false; factor := F32.of_bits 0x3f800000; offset := F32.zero;
     value := F32.zero; lastValue := F32.zero; lastDebugValue := F32.cm999999_9;
     lastUpdateMs := 0; everSet := false |}.

Definition sig_be8 : RuntimeSignal :=
  {| canId := 0x100; startBit := 7; bitLength := 8; bigEndian := true;
     isSigned := false; factor := F32.of_bits 0x3f800000; offset := F32.zero;
     value := F32.zero; lastValue := F32.zero; lastDebugValue := F32.cm999999_9;
     lastUpdateMs := 0; everSet := false |}.

(** ** The decision taken for one rule, as functions of [allMet] *)

(** The rule after the state-change bookkeeping of [evaluateRules]. *)
Definition noteState (rule : RuntimeRule) (met : bool) (nowMs : Z) : RuntimeRule :=
  if negb (eqb met (lastConditionState rule))
  then Engine.set_conditionState rule met nowMs else rule.

(** The rule reaches its action loop. *)
Definition ruleFires (rule : RuntimeRule) (met : bool) (nowMs : Z) : bool :=
  let rule1 := noteState rule met nowMs in
  met
  && (debounceMs rule1 <=? u32 (nowMs - lastConditionChangeMs rule1))
  && (cooldownMs rule1 <=? u32 (nowMs - lastTriggerMs rule1)).

Definition ruleAfter (rule : RuntimeRule) (met : bool) (nowMs : Z) : RuntimeRule :=
  if ruleFires rule met nowMs
  then Engine.set_lastTrigger (noteState rule met nowMs) nowMs
  else noteState rule met nowMs.

Definition ruleOutcome (actions : list RuntimeAction) (rule : RuntimeRule)
    (met : bool) (nowMs : Z) : Outcome :=
  mkOutcome met
    (if ruleFires rule met nowMs
     then Some (take (actionCount rule) (drop (actionStartIdx rule) actions))
     else None).

(** [rulesTriggered_++], a 32-bit increment. *)
Definition bumpTriggered (t : Z) : Z := u32 (t + 1).

(** The number of rules that fired in one pass. *)
Definition countFired (os : list Outcome) : nat :=
  length (List.filter (fun o => match fired o with Some _ => true | None => false end) os).

(** ** Runs of the engine under one ruleset *)

(** CAN frames and rule evaluations in any order, starting from [e].  The
    log has one entry per [evaluateRules] call: its clock value and the
    outcomes it produced, one per rule. *)
Inductive Run : Engine.State -> list (Z * list Outcome) -> Engine.State -> Prop :=
| run_done e : Run e [] e
| run_frame e frame nowMs log e' :
    Run (Engine.processCanFrame e frame nowMs) log e' ->
    Run e log e'
| run_eval e nowMs e1 os log e' :
    Engine.evaluateRules e nowMs = Some (e1, os) ->
    Run e1 log e' ->
    Run e ((nowMs, os) :: log) e'.

(** The clock values [ts] are 32-bit, non-decreasing and at least [from]. *)
Fixpoint nondecreasing (from : Z) (ts : list Z) : Prop :=
  match ts with
  | [] => True
  | t :: ts' => from <= t < 2 ^ 32 /\ nondecreasing t ts'
  end.

(** Evaluation [j] of the log happened at time [t] and executed the actions
    of rule [i]. *)
Definition firedAt (log : list (Z * list Outcome)) (i j : nat) (t : Z) : Prop :=
  exists os o acts,
    log !! j = Some (t, os) /\ os !! i = Some o /\ fired o = Some acts.

(** At evaluation [j], which happened at time [t], every condition in the
    AND-group of rule [i] was true. *)
Definition metAt (log : list (Z * list Outcome)) (i j : nat) (t : Z) : Prop :=
  exists os o, log !! j = Some (t, os) /\ os !! i = Some o /\ allMet o = true.

(** [evaluateRules] as a total function, for building concrete runs. *)
Definition evalAt (e : Engine.State) (nowMs : Z) : Engine.State * list Outcome :=
  default (e, []) (Engine.evaluateRules e nowMs).

(** ** Reachable engine states *)

(** The states the public operations of [Engine] produce from a freshly
    constructed engine. *)
Inductive Reachable : Engine.State -> Prop :=
| reach_init : Reachable Engine.init
| reach_registerCapability e id h :
    Reachable e -> Reachable (Engine.registerCapability e id h)
| reach_loadRuleset e data :
    Reachable e -> Reachable (fst (Engine.loadRuleset e data))
| reach_clearRuleset e :
    Reachable e -> Reachable (Engine.clearRuleset e)
| reach_processCanFrame e frame nowMs :
    Reachable e -> Reachable (Engine.processCanFrame e frame nowMs)
| reach_evaluateRules e nowMs e' os :
    Reachable e -> Engine.evaluateRules e nowMs = Some (e', os) -> Reachable e'
| reach_loadDebugSignals e defs :
    Reachable e -> Reachable (fst (Engine.loadDebugSignals e defs))
| reach_clearDebugSignals e :
    Reachable e -> Reachable (Engine.clearDebugSignals e)
| reach_setDebugMode e enabled :
    Reachable e -> Reachable (Engine.setDebugMode e enabled)
| reach_popDirtyDebugSignal e :
    Reachable e -> Reachable (fst (Engine.popDirtyDebugSignal e)).

(** The invariant of the dirty queue: one flag per overlay signal, at most
    64 slots in use, no pending index twice, and every pending index
    flagged. *)
Definition DebugInv (e : Engine.State) : Prop :=
  length (Engine.debugDirtyFlags_ e) = length (Engine.debugSignals_ e)
  /\ (length (Engine.debugDirtyQueue_ e) <= 64)%nat
  /\ NoDup (Engine.pendingDirty e)
  /\ forall idx, idx ∈ Engine.pendingDirty e ->
       Engine.debugDirtyFlags_ e !! idx = Some true.

(** The overlay signal [idx] was decoded from [data] and differs from its
    last-reported value by more than 0.01. *)
Definition changedFrom (data : list Z) (e : Engine.State) (idx : nat) : Prop :=
  exists sig,
    Engine.debugSignals_ e !! idx = Some sig
    /\ value sig = decodeSignal sig data
    /\ Engine.debugChanged sig = true.

(** An overlay definition for the first payload byte of CAN id 0x100. *)
Definition def_byte0 : DebugDef :=
  {| def_canId := 0x100; def_startBit := 0; def_bitLen := 8; def_be := 0;
     def_factor := F32.of_bits 0x3f800000; def_offset := F32.zero |}.

(** ** Two's complement reading of an extracted field *)

(** The value of the [len]-bit pattern [raw] read as a signed number. *)
Definition twosComplement (len raw : Z) : Z :=
  if Z.testbit raw (len - 1) then raw - 2 ^ len else raw.

(** ** Frame routing *)

(** The positions, counted from [i], of the signals whose CAN id is [key]. *)
Fixpoint indicesFrom (key : Z) (i : nat) (sigs : list RuntimeSignal) : list nat :=
  match sigs with
  | [] => []
  | sig :: rest =>
      if canId sig =? key then i :: indicesFrom key (S i) rest
      else indicesFrom key (S i) rest
  end.

(** Every signal on the frame's CAN id decoded from the frame, every other
    signal left as it is. *)
Definition decodeMatching (frame : CanFrame) (now : Z) (sigs : list RuntimeSignal)
    : list RuntimeSignal :=
  (fun sig => if canId sig =? frame_id frame
              then Engine.updateSignal sig (frame_data frame) now else sig) <$> sigs.

(** Both lookup maps list, for every CAN id, the positions of the signals
    that carry it, in table order. *)
Definition MapInv (e : Engine.State) : Prop :=
  (forall key, default [] (Engine.signalMap_ e !! key)
               = indicesFrom key 0 (Engine.signals_ e))
  /\ (forall key, default [] (Engine.debugSignalMap_ e !! key)
                  = indicesFrom key 0 (Engine.debugSignals_ e)).

(** ** Well-formed tables *)

(** Every index stored in the tables points inside the table it refers to:
    a condition names an existing signal, the set bits of a rule's mask name
    existing conditions, a rule's action range lies inside the action table,
    and no action has an empty capability id. *)
Definition WellFormed (sigs : list RuntimeSignal) (conds : list RuntimeCondition)
    (acts : list RuntimeAction) (rules : list RuntimeRule) : Prop :=
  Forall (fun c => (signalIdx c < length sigs)%nat) conds
  /\ Forall (fun a => capabilityId a <> EmptyString) acts
  /\ Forall (fun r =>
               (actionStartIdx r + actionCount r <= length acts)%nat
               /\ (forall c : nat, Z.testbit (conditionMask r) (Z.of_nat c) = true ->
                                   (c < length conds)%nat)
               /\ 0 <= debounceMs r <= 2550
               /\ 0 <= cooldownMs r <= 2550) rules.

(** ** The installed ruleset *)

(** The fields of a table entry that come from the binary, as opposed to the
    run-time state kept next to them. *)
Definition signalDef (sig : RuntimeSignal) :=
  (canId sig, startBit sig, bitLength sig, bigEndian sig, isSigned sig,
   factor sig, offset sig).

Definition conditionDef (c : RuntimeCondition) :=
  (signalIdx c, operation c, value1 c, value2 c, holdMs c).

Definition ruleDef (r : RuntimeRule) :=
  (conditionMask r, actionStartIdx r, actionCount r, debounceMs r, cooldownMs r).

(** The tables in use are the tables [t], up to run-time state. *)
Definition InstalledFrom (e : Engine.State) (t : Protocol.Tables) : Prop :=
  signalDef <$> Engine.signals_ e = signalDef <$> Protocol.outSignals t
  /\ conditionDef <$> Engine.conditions_ e = conditionDef <$> Protocol.outConditions t
  /\ Engine.actions_ e = Protocol.outActions t
  /\ ruleDef <$> Engine.rules_ e = ruleDef <$> Protocol.outRules t.

(** Either nothing is installed, or the tables in use are those the parser
    produces from the retained binary and [rulesetCRC_] is the CRC of that
    binary; and every action's capability has a handler. *)
Definition RulesetInv (e : Engine.State) : Prop :=
  match Protocol.parseRules (Engine.rulesetBinary_ e) with
  | inr t =>
      InstalledFrom e t
      /\ Engine.rulesetCRC_ e = Protocol.calculateCRC32 (Engine.rulesetBinary_ e)
  | inl _ =>
      Engine.rulesetBinary_ e = [] /\ Engine.rulesetCRC_ e = 0
      /\ Engine.signals_ e = [] /\ Engine.conditions_ e = []
      /\ Engine.actions_ e = [] /\ Engine.rules_ e = []
  end
  /\ Forall (fun a => is_Some (Engine.handlers_ e !! capabilityId a))
            (Engine.actions_ e).

(** The members that neither a CAN frame nor the debug overlay touches. *)
Definition sameTables (e e' : Engine.State) : Prop :=
  Engine.conditions_ e' = Engine.conditions_ e
  /\ Engine.actions_ e' = Engine.actions_ e
  /\ Engine.rules_ e' = Engine.rules_ e
  /\ Engine.rulesetBinary_ e' = Engine.rulesetBinary_ e
  /\ Engine.rulesetCRC_ e' = Engine.rulesetCRC_ e
  /\ Engine.handlers_ e' = Engine.handlers_ e
  /\ Engine.rulesTriggered_ e' = Engine.rulesTriggered_ e
  /\ Engine.unknownCapability_ e' = Engine.unknownCapability_ e.

(** ** Sampling a condition over time *)

(** The results of evaluating one condition at successive samples, each a
    signal table and a reading of [millis()]. *)
Fixpoint sampleCondition (cond : RuntimeCondition)
    (samples : list (list RuntimeSignal * Z)) : list bool :=
  match samples with
  | [] => []
  | (sigs, nowMs) :: rest =>
      match Engine.evaluateCondition sigs cond nowMs with
      | Some (cond', r) => r :: sampleCondition cond' rest
      | None => []
      end
  end.

(** The signal of the condition has been received and its magnitude is
    above [EPSILON]. *)
Definition holdSignalActive (cond : RuntimeCondition) (sigs : list RuntimeSignal)
    : Prop :=
  exists sig, sigs !! signalIdx cond = Some sig /\ everSet sig = true
              /\ F32.ltb F32.EPSILON (F32.abs (value sig)) = true.

(** A sample taken at the time [T] (in ms since boot, unbounded) reads the
    32-bit clock [millis()]. *)
Definition clocked (s : list RuntimeSignal * Z) : list RuntimeSignal * Z :=
  (fst s, u32 (snd s)).

(** ** W4RP.cpp: streamed uploads, downloads and persistence *)

(** [(int)x] for a 32-bit [size_t]. *)
Definition s32 (z : Z) : Z :=
  let r := u32 z in if 2 ^ 31 <=? r then r - 2 ^ 32 else r.

(** The bytes of a C string. *)
Definition text (s : string) : list Z :=
  (fun c => Z.of_N (N_of_ascii c)) <$> list_ascii_of_string s.

(** [snprintf(buf, size, ...)] keeps at most [size - 1] characters. *)
Definition snprintf (size : nat) (s : string) : string :=
  String.substring 0 (size - 1) s.

Module ControllerStream.

Inductive StreamType :=
| NONE | RULESET_RAM | RULESET_NVS | DEBUG_WATCH | OTA_FULL | OTA_DELTA.

Definition StreamType_eqb (a b : StreamType) : bool :=
  match a, b with
  | NONE, NONE | RULESET_RAM, RULESET_RAM | RULESET_NVS, RULESET_NVS
  | DEBUG_WATCH, DEBUG_WATCH | OTA_FULL, OTA_FULL | OTA_DELTA, OTA_DELTA => true
  | _, _ => false
  end.

(** What [handleCommand] recognises in a packet, for a controller built
    without an OTA service ([otaService_ == nullptr], so that the [OTA:]
    commands are not looked at).  The lengths and CRCs are the values
    assigned to the 32-bit members. *)
Inductive Command :=
| GET_PROFILE
| GET_RULES
| DEBUG_START
| DEBUG_STOP
| DEBUG_WATCH_len_crc (len crc : Z)
| SET_RULES_RAM_len_crc (len crc : Z)
| SET_RULES_NVS_len_crc (len crc : Z)
| Unrecognised.

(** The members used by the packet handlers.  [outbox] collects the packets
    handed to [transport_->send], oldest first; [rules_bin] is the blob kept
    by the storage driver under the key ["rules_bin"], empty when there is
    none. *)
Record State := mkState {
  engine_ : Engine.State;
  rulesMode_ : Z;
  streamType_ : StreamType;
  streamBuffer_ : list Z;
  streamExpectedLen_ : Z;
  streamExpectedCRC_ : Z;
  rules_bin : list Z;
  outbox : list (list Z)
}.

Definition init : State :=
  {| engine_ := Engine.init; rulesMode_ := 0; streamType_ := NONE;
     streamBuffer_ := []; streamExpectedLen_ := 0; streamExpectedCRC_ := 0;
     rules_bin := []; outbox := [] |}.

Definition set_engine (s : State) (e : Engine.State) : State :=
  {| engine_ := e; rulesMode_ := rulesMode_ s; streamType_ := streamType_ s;
     streamBuffer_ := streamBuffer_ s; streamExpectedLen_ := streamExpectedLen_ s;
     streamExpectedCRC_ := streamExpectedCRC_ s; rules_bin := rules_bin s;
     outbox := outbox s |}.

Definition set_rulesMode (s : State) (mode : Z) : State :=
  {| engine_ := engine_ s; rulesMode_ := mode; streamType_ := streamType_ s;
     streamBuffer_ := streamBuffer_ s; streamExpectedLen_ := streamExpectedLen_ s;
     streamExpectedCRC_ := streamExpectedCRC_ s; rules_bin := rules_bin s;
     outbox := outbox s |}.

Definition set_stream (s : State) (ty : StreamType) (buf : list Z) (len crc : Z)
    : State :=
  {| engine_ := engine_ s; rulesMode_ := rulesMode_ s; streamType_ := ty;
     streamBuffer_ := buf; streamExpectedLen_ := len; streamExpectedCRC_ := crc;
     rules_bin := rules_bin s; outbox := outbox s |}.

Definition set_rules_bin (s : State) (blob : list Z) : State :=
  {| engine_ := engine_ s; rulesMode_ := rulesMode_ s; streamType_ := streamType_ s;
     streamBuffer_ := streamBuffer_ s; streamExpectedLen_ := streamExpectedLen_ s;
     streamExpectedCRC_ := streamExpectedCRC_ s; rules_bin := blob;
     outbox := outbox s |}.

(** [transport_->send(...)] *)
Definition send (s : State) (packet : list Z) : State :=
  {| engine_ := engine_ s; rulesMode_ := rulesMode_ s; streamType_ := streamType_ s;
     streamBuffer_ := streamBuffer_ s; streamExpectedLen_ := streamExpectedLen_ s;
     streamExpectedCRC_ := streamExpectedCRC_ s; rules_bin := rules_bin s;
     outbox := outbox s ++ [packet] |}.

(** [streamType_ = NONE; streamBuffer_.clear();] *)
Definition endStream (s : State) : State :=
  set_stream s NONE [] (streamExpectedLen_ s) (streamExpectedCRC_ s).

(** [write_ok] is the result of [storage_->writeBlob]; a failed write
    leaves the blob as it was. *)
Definition saveRulesToNvs (write_ok : bool) (s : State) : State :=
  let data := Engine.getRulesetBinary (engine_ s) in
  match data with
  | [] => s
  | _ => if write_ok then set_rules_bin s data else s
  end.

(** [read_ok] tells whether the second [readBlob] returned the whole
    blob. *)
Definition loadRulesFromNvs (read_ok : bool) (s : State) : State :=
  match rules_bin s with
  | [] => set_rulesMode s 0
  | blob =>
      if negb read_ok then set_rulesMode s 0
      else
        let r := Engine.loadRuleset (engine_ s) blob in
        if snd r then set_rulesMode (set_engine s (fst r)) 2
        else set_rulesMode (set_engine s (fst r)) 0
  end.

Section Handlers.

(** The comparison [packet == "END"] and the prefix tests and number scans
    of [handleCommand] are Arduino [String] code, and so is the scanner of
    [loadDebugSignals]; [mtu] is [transport_->getMTU()]. *)
Variable isEnd : list Z -> bool.
Variable decode : list Z -> Command.
Variable scanDefs : list Z -> list DebugDef.
Variable mtu : Z.

(** The second half of [finalizeStream], once length and CRC have been
    found right. *)
Definition applyStream (write_ok : bool) (s : State) : State :=
  match streamType_ s with
  | DEBUG_WATCH =>
      set_engine s
        (fst (Engine.loadDebugSignals (engine_ s) (scanDefs (streamBuffer_ s))))
  | RULESET_RAM | RULESET_NVS =>
      let r := Engine.loadRuleset (engine_ s) (streamBuffer_ s) in
      let s1 := set_engine s (fst r) in
      if snd r then
        if StreamType_eqb (streamType_ s) RULESET_NVS
        then saveRulesToNvs write_ok (set_rulesMode s1 2)
        else set_rulesMode s1 1
      else
        let unknownCap := Engine.getUnknownCapability (fst r) in
        if negb (String.eqb unknownCap EmptyString)
        then send s1 (text (snprintf 64 ("ERR:CAP_UNKNOWN:" +:+ unknownCap)))
        else send s1 (text "ERR:RULES_INVALID")
  | _ => s
  end.

Definition finalizeStream (write_ok : bool) (s : State) : State :=
  if negb (Z.of_nat (length (streamBuffer_ s)) =? streamExpectedLen_ s) then
    endStream (send s (text "ERR:LEN_MISMATCH"))
  else if negb (Protocol.calculateCRC32 (streamBuffer_ s) =? streamExpectedCRC_ s)
  then endStream (send s (text "ERR:CRC_FAIL"))
  else endStream (applyStream write_ok s).

Definition handleStreamData (write_ok : bool) (s : State) (data : list Z) : State :=
  if isEnd data then finalizeStream write_ok s
  else
    set_stream s (streamType_ s) (streamBuffer_ s ++ data)
      (streamExpectedLen_ s) (streamExpectedCRC_ s).

(** The loop [for (offset = 0; offset < len; offset += mtu)] that sends
    [data] in chunks; [offset] is a 32-bit [size_t].  The result is [None]
    when the loop has not ended after [fuel] iterations. *)
Fixpoint sendChunks (fuel : nat) (data : list Z) (offset : Z) (s : State)
    : option State :=
  if offset <? Z.of_nat (length data) then
    match fuel with
    | O => None
    | S fuel' =>
        let remaining := Z.of_nat (length data) - offset in
        let chunkLen := if mtu <? remaining then mtu else remaining in
        sendChunks fuel' data (u32 (offset + mtu))
          (send s (Protocol.slice data offset chunkLen))
    end
  else Some s.

(** ["END:%d:%u"] *)
Definition endMessage (len : nat) (crc : Z) : list Z :=
  text (snprintf 64 ("END:" +:+ Controller.dec (s32 (Z.of_nat len))
                     +:+ ":" +:+ Controller.dec crc)).

Definition sendRules (fuel : nat) (s : State) : option State :=
  let rules := Engine.getRulesetBinary (engine_ s) in
  match rules with
  | [] => Some (send s (text "ERR:NO_RULES"))
  | _ =>
      s1 ← sendChunks fuel rules 0 (send s (text "BEGIN"));
      Some (send s1 (endMessage (length rules) (Engine.getRulesetCRC (engine_ s))))
  end.

(** [profile] holds the bytes [serializeProfile] wrote, none when it
    returned 0. *)
Definition sendProfile (fuel : nat) (profile : list Z) (s : State) : option State :=
  match profile with
  | [] => Some (send s (text "ERR:PROFILE_TOO_LARGE"))
  | _ =>
      s1 ← sendChunks fuel profile 0 (send s (text "BEGIN"));
      Some (send s1 (endMessage (length profile) (Protocol.calculateCRC32 profile)))
  end.

Definition handleCommand (fuel : nat) (profile : list Z) (s : State)
    (packet : list Z) : option State :=
  match decode packet with
  | GET_PROFILE => sendProfile fuel profile s
  | GET_RULES => sendRules fuel s
  | DEBUG_START => Some (set_engine s (Engine.setDebugMode (engine_ s) true))
  | DEBUG_STOP =>
      Some (set_engine s
              (Engine.clearDebugSignals (Engine.setDebugMode (engine_ s) false)))
  | DEBUG_WATCH_len_crc len crc => Some (set_stream s DEBUG_WATCH [] len crc)
  | SET_RULES_RAM_len_crc len crc => Some (set_stream s RULESET_RAM [] len crc)
  | SET_RULES_NVS_len_crc len crc => Some (set_stream s RULESET_NVS [] len crc)
  | Unrecognised => Some s
  end.

(** The receive callback installed by the constructor. *)
Definition onReceive (fuel : nat) (write_ok : bool) (profile : list Z) (s : State)
    (packet : list Z) : option State :=
  if negb (StreamType_eqb (streamType_ s) NONE)
  then Some (handleStreamData write_ok s packet)
  else handleCommand fuel profile s packet.

(** The packets [packets] received one after the other. *)
Fixpoint receiveAll (fuel : nat) (write_ok : bool) (profile : list Z) (s : State)
    (packets : list (list Z)) : option State :=
  match packets with
  | [] => Some s
  | p :: rest =>
      s1 ← onReceive fuel write_ok profile s p;
      receiveAll fuel write_ok profile s1 rest
  end.

End Handlers.

(** The connection callback installed by the constructor. *)
Definition onConnectionChange (s : State) (connected : bool) : State :=
  if connected then s
  else
    set_engine (endStream s)
      (Engine.clearDebugSignals (Engine.setDebugMode (engine_ s) false)).

End ControllerStream.

(** ** ESP32OTAService.cpp: leaving a session *)

Module OtaLifecycle.

(** [abort()], on the members of the full-image path: the delta task and
    the ring buffer it also clears are not among them. *)
Definition abort (s : ESP32OTAService.State) : ESP32OTAService.State :=
  if ESP32OTAService.OTAStatus_eqb (ESP32OTAService.status_ s) IDLE then s
  else
    {| ESP32OTAService.status_ := IDLE;
       ESP32OTAService.otaHandle_ := 0;
       ESP32OTAService.expectedSize_ := ESP32OTAService.expectedSize_ s;
       ESP32OTAService.expectedCRC_ := ESP32OTAService.expectedCRC_ s;
       ESP32OTAService.receivedBytes_ := 0;
       ESP32OTAService.calculatedCRC_ := 0;
       ESP32OTAService.isDelta_ := false;
       ESP32OTAService.progressCb_ := ESP32OTAService.progressCb_ s;
       ESP32OTAService.completeCb_ := ESP32OTAService.completeCb_ s;
       ESP32OTAService.events := ESP32OTAService.events s |}.

(** [setProgressCallback(cb)] with a callable [cb]. *)
Definition setProgressCallback (s : ESP32OTAService.State) : ESP32OTAService.State :=
  {| ESP32OTAService.status_ := ESP32OTAService.status_ s;
     ESP32OTAService.otaHandle_ := ESP32OTAService.otaHandle_ s;
     ESP32OTAService.expectedSize_ := ESP32OTAService.expectedSize_ s;
     ESP32OTAService.expectedCRC_ := ESP32OTAService.expectedCRC_ s;
     ESP32OTAService.receivedBytes_ := ESP32OTAService.receivedBytes_ s;
     ESP32OTAService.calculatedCRC_ := ESP32OTAService.calculatedCRC_ s;
     ESP32OTAService.isDelta_ := ESP32OTAService.isDelta_ s;
     ESP32OTAService.progressCb_ := true;
     ESP32OTAService.completeCb_ := ESP32OTAService.completeCb_ s;
     ESP32OTAService.events := ESP32OTAService.events s |}.

(** The service is neither idle nor receiving. *)
Definition closed (s : ESP32OTAService.State) : Prop :=
  ESP32OTAService.status_ s <> IDLE /\ ESP32OTAService.status_ s <> RECEIVING.

End OtaLifecycle.

(** A comparison with the three bytes of ["END"], for concrete runs. *)
Definition isEND (p : list Z) : bool :=
  match p with
  | [a; b; c] => (a =? 69) && (b =? 78) && (c =? 68)
  | _ => false
  end.

(** ** Protocol.cpp: the profile serializer *)

Definition WBP_MAGIC_PROFILE : Z := 0xC0DE5701.

(** [CapabilityParamMeta] and [CapabilityMeta] of Types.h. *)
Record CapabilityParamMeta := mkParamMeta {
  pm_name : string;
  pm_type : string;
  pm_required : bool;
  pm_min : Z;
  pm_max : Z;
  pm_description : string
}.

Record CapabilityMeta := mkCapabilityMeta {
  cm_id : string;
  cm_label : string;
  cm_description : string;
  cm_category : string;
  cm_params : list CapabilityParamMeta
}.

(** [class StringTableBuilder].  The keys of [indexMap_] are compared as C
    strings; the strings handled here are C strings, without a NUL inside. *)
Module StringTableBuilder.

Record State := mkState {
  strings_ : list string;
  indexMap_ : gmap string Z;
  currentOffset_ : Z
}.

Definition empty : State :=
  {| strings_ := []; indexMap_ := ∅; currentOffset_ := 0 |}.

Definition strlen (str : string) : Z := Z.of_nat (String.length str).

(** The returned pair is the builder after the call and the offset
    returned. *)
Definition add (b : State) (str : string) : State * Z :=
  match indexMap_ b !! str with
  | Some offset => (b, offset)
  | None =>
      if 0xFFF0 <? u32 (currentOffset_ b + strlen str + 1) then (b, 0)
      else
        ({| strings_ := strings_ b ++ [str];
            indexMap_ := <[str := currentOffset_ b]> (indexMap_ b);
            currentOffset_ := u16 (currentOffset_ b + strlen str + 1) |},
         currentOffset_ b)
  end.

Definition size (b : State) : Z := currentOffset_ b.

(** The bytes [write] stores at [dest]. *)
Definition write (b : State) : list Z :=
  flat_map (fun s => text s ++ [0]) (strings_ b).

End StringTableBuilder.

Module ProfileSerializer.

Definition sizeof_WBPProfileHeader : Z := 32.
Definition sizeof_WBPCapability : Z := 12.
Definition sizeof_WBPCapParam : Z := 12.

(** The chain of comparisons on [p.type]. *)
Definition paramTypeCode (ty : string) : Z :=
  if String.eqb ty "int" then 0
  else if String.eqb ty "float" then 1
  else if String.eqb ty "string" then 2
  else if String.eqb ty "bool" then 3
  else 0.

(** The state of the loop over [capabilities]: the string table and the
    packed [WBPCapability] and [WBPCapParam] entries collected so far. *)
Record Collected := mkCollected {
  strTable : StringTableBuilder.State;
  capEntries : list (list Z);
  capParams : list (list Z)
}.

(** The body of the loop over [meta.params]. *)
Definition addParam (acc : Collected) (p : CapabilityParamMeta) : Collected :=
  let r1 := StringTableBuilder.add (strTable acc) (pm_name p) in
  let r2 := StringTableBuilder.add (fst r1) (pm_description p) in
  let param :=
    le16 (snd r1) ++ le16 (snd r2)
    ++ [paramTypeCode (pm_type p); if pm_required p then 1 else 0]
    ++ le16 0 ++ le16 (pm_min p) ++ le16 (pm_max p) in
  {| strTable := fst r2; capEntries := capEntries acc;
     capParams := capParams acc ++ [param] |}.

(** The body of the loop over [capabilities]. *)
Definition addCapability (acc : Collected) (meta : CapabilityMeta) : Collected :=
  let r1 := StringTableBuilder.add (strTable acc) (cm_id meta) in
  let r2 := StringTableBuilder.add (fst r1) (cm_label meta) in
  let r3 := StringTableBuilder.add (fst r2) (cm_description meta) in
  let r4 := StringTableBuilder.add (fst r3) (cm_category meta) in
  let cap :=
    le16 (snd r1) ++ le16 (snd r2) ++ le16 (snd r3) ++ le16 (snd r4)
    ++ [u8 (Z.of_nat (length (cm_params meta)));
        u8 (Z.of_nat (length (capParams acc)))]
    ++ le16 0 in
  let acc1 :=
    fold_left addParam (cm_params meta)
      {| strTable := fst r4; capEntries := capEntries acc;
         capParams := capParams acc |} in
  {| strTable := strTable acc1; capEntries := capEntries acc1 ++ [cap];
     capParams := capParams acc1 |}.

(** The packed [WBPProfileHeader]. *)
Definition headerBytes (moduleIdIdx hwIdx fwIdx serialIdx capabilityCount : Z)
    (rulesMode rulesCRC signalCount conditionCount actionCount ruleCount : Z)
    (uptimeMs bootCount stringTableOffset : Z) : list Z :=
  le32 WBP_MAGIC_PROFILE
  ++ [WBP_VERSION; if u32 rulesCRC =? 0 then 0 else 1]
  ++ le16 moduleIdIdx ++ le16 hwIdx ++ le16 fwIdx ++ le16 serialIdx
  ++ [u8 capabilityCount; u8 rulesMode]
  ++ le32 rulesCRC
  ++ [u8 signalCount; u8 conditionCount; u8 actionCount; u8 ruleCount]
  ++ le32 uptimeMs ++ le16 bootCount ++ le16 stringTableOffset.

(** The bytes written to [outBuffer]; none when the function returns 0. *)
Definition serializeProfile (maxLen : Z) (moduleId hwVersion fwVersion serial : string)
    (uptimeMs bootCount rulesMode rulesCRC : Z)
    (signalCount conditionCount actionCount ruleCount : Z)
    (capabilities : list CapabilityMeta) : list Z :=
  let r1 := StringTableBuilder.add StringTableBuilder.empty moduleId in
  let r2 := StringTableBuilder.add (fst r1) hwVersion in
  let r3 := StringTableBuilder.add (fst r2) fwVersion in
  let r4 := StringTableBuilder.add (fst r3) serial in
  let acc :=
    fold_left addCapability capabilities
      {| strTable := fst r4; capEntries := []; capParams := [] |} in
  let headerSize := sizeof_WBPProfileHeader in
  let capsSize := Z.of_nat (length (capEntries acc)) * sizeof_WBPCapability in
  let paramsSize := Z.of_nat (length (capParams acc)) * sizeof_WBPCapParam in
  let stringSize := StringTableBuilder.size (strTable acc) in
  let totalSize := headerSize + capsSize + paramsSize + stringSize in
  if maxLen <? totalSize then []
  else
    headerBytes (snd r1) (snd r2) (snd r3) (snd r4)
      (Z.of_nat (length (capEntries acc))) rulesMode rulesCRC
      signalCount conditionCount actionCount ruleCount uptimeMs bootCount
      (headerSize + capsSize + paramsSize)
    ++ concat (capEntries acc) ++ concat (capParams acc)
    ++ StringTableBuilder.write (strTable acc).

End ProfileSerializer.

(** ** Auxiliary notions for the string table *)

(** A C string: no character is NUL. *)
Definition NULfree (s : string) : Prop :=
  Forall (fun c => c <> Ascii.zero) (list_ascii_of_string s).

(** The bytes one string occupies in the table. *)
Definition tableEntry (s : string) : list Z := text s ++ [0].

(** The builder's bookkeeping agrees with the bytes it will write: the
    current offset is their number and stays within [0xFFF0], and every
    string of the index map starts at its recorded offset. *)
Definition TableInv (b : StringTableBuilder.State) : Prop :=
  StringTableBuilder.currentOffset_ b
  = Z.of_nat (length (StringTableBuilder.write b))
  /\ StringTableBuilder.currentOffset_ b <= 0xFFF0
  /\ forall str off,
       StringTableBuilder.indexMap_ b !! str = Some off ->
       exists l1 l2,
         StringTableBuilder.strings_ b = l1 ++ str :: l2
         /\ off = Z.of_nat (length (flat_map tableEntry l1)).

(** The builder after adding the strings [strs] in order. *)
Definition addAll (b : StringTableBuilder.State) (strs : list string)
    : StringTableBuilder.State :=
  fold_left (fun b s => fst (StringTableBuilder.add b s)) strs b.

(** The strings a profile hands to the string table, in the order of the
    calls to [add]. *)
Definition paramStrings (p : CapabilityParamMeta) : list string :=
  [pm_name p; pm_description p].

Definition capabilityStrings (meta : CapabilityMeta) : list string :=
  [cm_id meta; cm_label meta; cm_description meta; cm_category meta]
  ++ flat_map paramStrings (cm_params meta).

Definition profileStrings (moduleId hwVersion fwVersion serial : string)
    (capabilities : list CapabilityMeta) : list string :=
  [moduleId; hwVersion; fwVersion; serial] ++ flat_map capabilityStrings capabilities.

(** The number of parameters of all capabilities together. *)
Definition paramTotal (capabilities : list CapabilityMeta) : nat :=
  length (flat_map cm_params capabilities).

(** ** W4RPBLE.cpp: the CRC-32 of the single-file library *)

Module W4RPBLE.

(** [crc = (crc >> 1) ^ (0xEDB88320 & (-(crc & 1)))] on a [uint32_t]. *)
Definition crc32_step (crc : Z) : Z :=
  Z.lxor (Z.shiftr crc 1) (Z.land 0xEDB88320 (u32 (- Z.land crc 1))).

(** [crc ^= data[i]] followed by the eight steps. *)
Definition crc32_octet (crc b : Z) : Z :=
  Nat.iter 8 crc32_step (Z.lxor crc (u8 b)).

Definition crc32_ieee (data : list Z) : Z :=
  u32 (Z.lnot (fold_left crc32_octet data 0xFFFFFFFF)).

End W4RPBLE.

(** * Properties *)

(** ** Sanity checks of the embedding *)

Example crc_check_value :
  esp_crc32_le 0 [0x31; 0x32; 0x33; 0x34; 0x35; 0x36; 0x37; 0x38; 0x39] = 0xCBF43926.
Proof. vm_compute. reflexivity. Qed.

Example extract_le_16 : extractBits [0x34; 0x12; 0; 0; 0; 0; 0; 0] 0 16 false = 4660.
Proof. vm_compute. reflexivity. Qed.

Example extract_be_8 : extractBits [0x5A; 0; 0; 0; 0; 0; 0; 0] 7 8 true = 90.
Proof. vm_compute. reflexivity. Qed.

Example parse_within_swapped_ok :
  mapP (fun t => (operation <$> Protocol.outConditions t,
                  capabilityId <$> Protocol.outActions t))
       (Protocol.parseRules Fixtures.within_swapped)
  = inr ([WITHIN], ["buzz"%string]).
Proof. vm_compute. reflexivity. Qed.

Example parse_timed_rule_fields :
  mapP (fun t => (debounceMs <$> Protocol.outRules t,
                  cooldownMs <$> Protocol.outRules t))
       (Protocol.parseRules Fixtures.timed_rule)
  = inr ([100], [500]).
Proof. vm_compute. reflexivity. Qed.

(** ** Bit-level facts *)

(** Case analysis on every integer comparison of the goal. *)
Ltac zbool :=
  repeat (first
    [ match goal with |- context [Z.eqb ?x ?y] => destruct (Z.eqb_spec x y) end
    | match goal with |- context [Z.ltb ?x ?y] => destruct (Z.ltb_spec x y) end
    | match goal with |- context [Z.leb ?x ?y] => destruct (Z.leb_spec x y) end ]);
  simpl; try reflexivity; try lia.

Lemma testbit_one (k : Z) : Z.testbit 1 k = (k =? 0).
Proof. destruct k as [|p|p]; reflexivity. Qed.

Lemma testbit_u64 (x j : Z) : Z.testbit (u64 x) j = (j <? 64) && Z.testbit x j.
Proof.
  unfold u64. destruct (Z.ltb_spec j 64).
  - rewrite Z.mod_pow2_bits_low by lia. reflexivity.
  - rewrite Z.mod_pow2_bits_high by lia. reflexivity.
Qed.

Lemma testbit_low_bit (b k j : Z) :
  0 <= k -> Z.testbit (Z.land (Z.shiftr b k) 1) j = (j =? 0) && Z.testbit b k.
Proof.
  intros Hk. rewrite Z.land_spec, testbit_one.
  destruct (Z.eqb_spec j 0) as [->|Hj].
  - rewrite Z.shiftr_spec by lia. simpl. rewrite andb_true_r. reflexivity.
  - rewrite andb_false_r. reflexivity.
Qed.

Lemma low_bit_range (b k : Z) : 0 <= Z.land (Z.shiftr b k) 1 <= 1.
Proof.
  change 1 with (Z.ones 1) at 1 2. rewrite Z.land_ones by lia.
  change (2 ^ 1) with 2. pose proof (Z.mod_pos_bound (Z.shiftr b k) 2). lia.
Qed.

Lemma byteAt_range (data : list Z) (i : Z) : 0 <= byteAt data i < 256.
Proof. unfold byteAt, u8. apply Z.mod_pos_bound. lia. Qed.

(** The loops of [extractBits] over a fixed payload and start bit. *)
Section ExtractBits.

Variable data : list Z.
Variable start : Z.

Lemma le_step_testbit r (i : nat) j :
  0 <= j -> (i < 64)%nat ->
  Z.testbit (extractBits_le_step data start r i) j
  = Z.testbit r j || ((j =? Z.of_nat i) && le_code_bit data start j).
Proof.
  intros Hj Hi. unfold extractBits_le_step, le_code_bit.
  destruct (Z.eqb_spec j (Z.of_nat i)) as [->|Hne].
  - destruct (u8 (u16 (start + Z.of_nat i) / 8) <? 8); simpl.
    + rewrite Z.lor_spec, testbit_u64, Z.shiftl_spec by lia.
      rewrite Z.sub_diag, testbit_low_bit.
      2:{ unfold u16. pose proof (Z.mod_pos_bound (start + Z.of_nat i) (2^16)).
          apply Z.mod_pos_bound. lia. }
      replace (Z.of_nat i <? 64) with true by (symmetry; apply Z.ltb_lt; lia).
      reflexivity.
    + rewrite orb_false_r. reflexivity.
  - simpl. rewrite orb_false_r.
    destruct (u8 (u16 (start + Z.of_nat i) / 8) <? 8); [|reflexivity].
    rewrite Z.lor_spec, testbit_u64, Z.shiftl_spec by lia.
    rewrite testbit_low_bit.
    2:{ apply Z.mod_pos_bound. lia. }
    replace (j - Z.of_nat i =? 0) with false by (symmetry; apply Z.eqb_neq; lia).
    simpl. rewrite andb_false_r, orb_false_r. reflexivity.
Qed.

Lemma le_fold_testbit (n : nat) : forall (a : nat) r j,
  0 <= j -> (a + n <= 64)%nat ->
  Z.testbit (fold_left (extractBits_le_step data start) (seq a n) r) j
  = Z.testbit r j
    || ((Z.of_nat a <=? j) && (j <? Z.of_nat (a + n)) && le_code_bit data start j).
Proof.
  induction n as [|n IH]; intros a r j Hj Hn.
  - simpl. destruct (Z.testbit r j); [reflexivity|]. zbool.
  - cbn [seq fold_left]. rewrite IH by lia. rewrite le_step_testbit by lia.
    destruct (Z.testbit r j), (le_code_bit data start j); zbool.
Qed.

(** Where no index is truncated, the code's bit is the specification's. *)
Lemma le_code_bit_spec i :
  0 <= start -> 0 <= i -> start + i < 2048 ->
  le_code_bit data start i = spec_le_bit data start i.
Proof.
  intros Hs Hi Hlt. unfold le_code_bit, spec_le_bit, payloadBit, u16, u8.
  rewrite (Z.mod_small (start + i)) by lia.
  assert (0 <= (start + i) / 8 < 256).
  { split; [apply Z.div_pos; lia | apply Z.div_lt_upper_bound; lia]. }
  rewrite (Z.mod_small ((start + i) / 8)) by lia. reflexivity.
Qed.

(** Little-endian extraction meets the specification's rule whenever
    [start + len <= 2048]. *)
Lemma extractBits_le_bits len i :
  1 <= len <= 64 -> 0 <= start -> start + len <= 2048 -> 0 <= i < len ->
  Z.testbit (extractBits data start len false) i = spec_le_bit data start i.
Proof.
  intros Hlen Hs Hfit Hi. unfold extractBits.
  replace ((len =? 0) || (64 <? len)) with false by zbool.
  cbn [negb]. rewrite le_fold_testbit by lia.
  rewrite Z.testbit_0_l, le_code_bit_spec by lia.
  destruct (spec_le_bit data start i); zbool.
Qed.

Lemma lor_shift_bit (r : Z) (b : bool) :
  Z.lor (Z.shiftl r 1) (Z.b2z b) = 2 * r + Z.b2z b.
Proof.
  rewrite Z.shiftl_mul_pow2 by lia. change (2 ^ 1) with 2.
  destruct b; simpl Z.b2z.
  - assert (H : Z.land (r * 2) 1 = 0).
    { change 1 with (Z.ones 1). rewrite Z.land_ones by lia.
      change (2 ^ 1) with 2. apply Z.mod_mul. lia. }
    rewrite <- Z.lxor_lor by exact H.
    rewrite <- Z.add_nocarry_lxor by exact H. lia.
  - rewrite Z.lor_0_r. lia.
Qed.

Lemma low_bit_b2z (b k : Z) :
  0 <= k -> Z.land (Z.shiftr b k) 1 = Z.b2z (Z.testbit b k).
Proof.
  intros Hk. apply Z.bits_inj'. intros j Hj.
  rewrite testbit_low_bit by lia.
  destruct (Z.eqb_spec j 0) as [->|Hne]; simpl.
  - destruct (Z.testbit b k); reflexivity.
  - destruct (Z.testbit b k); simpl.
    + rewrite testbit_one. zbool.
    + symmetry. apply Z.testbit_0_l.
Qed.

Lemma be_step_in_range r (i : nat) :
  0 <= start - Z.of_nat i < 64 -> 0 <= r < 2 ^ 63 ->
  extractBits_be_step data start r i
  = 2 * r + Z.b2z (payloadBit data (start - Z.of_nat i)).
Proof.
  intros Hpos Hr. unfold extractBits_be_step.
  replace ((start - Z.of_nat i <? 0) || (64 <=? start - Z.of_nat i)) with false by zbool.
  assert (Hdiv : 0 <= (start - Z.of_nat i) / 8 < 8).
  { split; [apply Z.div_pos; lia | apply Z.div_lt_upper_bound; lia]. }
  unfold u8 at 1. rewrite (Z.mod_small ((start - Z.of_nat i) / 8)) by lia.
  rewrite low_bit_b2z by (apply Z.mod_pos_bound; lia).
  unfold u64. rewrite Z.mod_small.
  - apply lor_shift_bit.
  - rewrite Z.shiftl_mul_pow2 by lia. change (2 ^ 64) with (2 ^ 63 * 2 ^ 1). lia.
Qed.

Lemma be_step_out_of_range r (i : nat) :
  start - Z.of_nat i < 0 \/ 64 <= start - Z.of_nat i ->
  extractBits_be_step data start r i = r.
Proof.
  intros H. unfold extractBits_be_step.
  replace ((start - Z.of_nat i <? 0) || (64 <=? start - Z.of_nat i)) with true;
    [reflexivity|].
  destruct H; zbool.
Qed.

Lemma be_fold_bits (n : nat) :
  0 <= start -> (n <= 64)%nat ->
  let r := fold_left (extractBits_be_step data start) (seq 0 n) 0 in
  let lo := be_lo start in
  let hi := be_hi start (Z.of_nat n) in
  0 <= r < 2 ^ Z.max 0 (hi - lo)
  /\ forall i, lo <= i < hi ->
       Z.testbit r (hi - 1 - i) = payloadBit data (start - i).
Proof.
  intros Hs. induction n as [|n IH]; intros Hn.
  - cbn. unfold be_lo, be_hi. split; [|intros i Hi; lia].
    replace (Z.max 0 (Z.min 0 (start + 1) - Z.max 0 (start - 63))) with 0 by lia.
    simpl. lia.
  - rewrite seq_S, fold_left_app. cbn [fold_left Nat.add].
    destruct IH as [Hr Hbits]; [lia|].
    set (r := fold_left (extractBits_be_step data start) (seq 0 n) 0) in *.
    unfold be_lo, be_hi in *.
    destruct (Z_lt_dec (start - Z.of_nat n) 0) as [Hneg|Hnn].
    { cbv zeta. rewrite be_step_out_of_range by lia.
      replace (Z.min (Z.of_nat (S n)) (start + 1)) with (Z.min (Z.of_nat n) (start + 1)) by lia.
      split; [exact Hr | exact Hbits]. }
    destruct (Z_le_dec 64 (start - Z.of_nat n)) as [Hbig|Hsmall].
    { cbv zeta. rewrite be_step_out_of_range by lia.
      replace (Z.max 0 (Z.min (Z.of_nat (S n)) (start + 1) - Z.max 0 (start - 63)))
        with 0 by lia.
      replace (Z.max 0 (Z.min (Z.of_nat n) (start + 1) - Z.max 0 (start - 63)))
        with 0 in Hr by lia.
      split; [exact Hr | intros i Hi; lia]. }
    cbv zeta.
    replace (Z.min (Z.of_nat n) (start + 1)) with (Z.of_nat n) in * by lia.
    replace (Z.min (Z.of_nat (S n)) (start + 1)) with (Z.of_nat n + 1) by lia.
    replace (Z.max 0 (Z.of_nat n - Z.max 0 (start - 63)))
      with (Z.of_nat n - Z.max 0 (start - 63)) in Hr by lia.
    replace (Z.max 0 (Z.of_nat n + 1 - Z.max 0 (start - 63)))
      with (Z.of_nat n - Z.max 0 (start - 63) + 1) by lia.
    assert (Hpow : 2 ^ (Z.of_nat n - Z.max 0 (start - 63)) <= 2 ^ 63)
      by (apply Z.pow_le_mono_r; lia).
    rewrite be_step_in_range by lia.
    split.
    + rewrite Z.pow_add_r by lia. change (2 ^ 1) with 2.
      destruct (payloadBit data (start - Z.of_nat n)); simpl Z.b2z; lia.
    + intros i Hi.
      destruct (Z.eq_dec i (Z.of_nat n)) as [->|Hne].
      * replace (Z.of_nat n + 1 - 1 - Z.of_nat n) with 0 by lia.
        apply Z.testbit_0_r.
      * replace (Z.of_nat n + 1 - 1 - i) with (Z.succ (Z.of_nat n - 1 - i)) by lia.
        rewrite Z.testbit_succ_r by lia. apply Hbits. lia.
Qed.

End ExtractBits.

(** ** Signal extraction (C5, C6) *)

(** The first decoding scenario: a little-endian unsigned 16-bit signal at
    start bit 0 of [0x34, 0x12, ...] with factor 1 and offset 0 decodes to
    4660.0. *)
Example decode_le16_scenario :
  decodeSignal sig_le16 [0x34; 0x12; 0; 0; 0; 0; 0; 0] = F32.of_bits 0x4591a000.
Proof. vm_compute. reflexivity. Qed.

(** C5, at the failing input.  [start_bit = 2048], [bit_length = 1],
    little-endian, payload [01 00 00 00 00 00 00 00]: the byte index
    [2048 / 8 = 256] is stored in a [uint8_t] and becomes 0, so the guard
    [byteIdx < 8] passes and bit 0 of byte 0 is read; the extracted value is
    1, whereas the rule of the specification skips byte index 256 and gives
    bit 0 the value 0. *)
Theorem C5_le_byte_index_truncated :
  extractBits [0x01; 0; 0; 0; 0; 0; 0; 0] 2048 1 false = 1
  /\ Z.testbit (extractBits [0x01; 0; 0; 0; 0; 0; 0; 0] 2048 1 false) 0 = true
  /\ spec_le_bit [0x01; 0; 0; 0; 0; 0; 0; 0] 2048 0 = false.
Proof. repeat split; vm_compute; reflexivity. Qed.

(** C6 as stated fails: with [start_bit = 3] and [bit_length = 8] the
    positions [i = 4..7] lie below bit 0 of the payload.  The code skips
    them and returns the four bits read, 15; contributing a zero bit for each
    of them would give 240. *)
Lemma C6_counterexample :
  extractBits [0x0F; 0; 0; 0; 0; 0; 0; 0] 3 8 true = 15
  /\ spec_extractBits_be [0x0F; 0; 0; 0; 0; 0; 0; 0] 3 8 = 240
  /\ extractBits [0x0F; 0; 0; 0; 0; 0; 0; 0] 3 8 true
     <> spec_extractBits_be [0x0F; 0; 0; 0; 0; 0; 0; 0] 3 8.
Proof. repeat split; vm_compute; congruence. Qed.

(** C6, amended.  For [bit_length] in 1..=64 the big-endian value is
    accumulated MSB-first from payload bit [start_bit - i] over exactly the
    positions [i] that fall inside the 64-bit payload,
    [be_lo start <= i < be_hi start len]; a position outside the payload is
    skipped without shifting the accumulator, so the result has one bit
    position per in-range [i].  The second decoding scenario (8 bits at
    start bit 7 of [0x5A, ...]) yields 90.0. *)
Theorem C6_be_extraction_skips_out_of_range (data : list Z) (start len : Z) :
  1 <= len <= 64 -> 0 <= start ->
  let r := extractBits data start len true in
  let lo := be_lo start in
  let hi := be_hi start len in
  0 <= r < 2 ^ Z.max 0 (hi - lo)
  /\ (forall i, lo <= i < hi ->
        Z.testbit r (hi - 1 - i) = payloadBit data (start - i))
  /\ decodeSignal sig_be8 [0x5A; 0; 0; 0; 0; 0; 0; 0] = F32.of_bits 0x42b40000.
Proof.
  intros Hlen Hs. cbv zeta. unfold extractBits.
  replace ((len =? 0) || (64 <? len)) with false by zbool.
  cbn [negb].
  pose proof (be_fold_bits data start (Z.to_nat len) Hs) as H.
  cbv zeta in H. rewrite Z2Nat.id in H by lia.
  destruct H as [Hr Hbits]; [lia|].
  split; [exact Hr|]. split; [exact Hbits|]. vm_compute. reflexivity.
Qed.

Lemma C6_be_extraction_witness :
  1 <= 8 <= 64 /\ 0 <= 3
  /\ (let r := extractBits [0x0F; 0; 0; 0; 0; 0; 0; 0] 3 8 true in
      let lo := be_lo 3 in
      let hi := be_hi 3 8 in
      0 <= r < 2 ^ Z.max 0 (hi - lo)
      /\ (forall i, lo <= i < hi ->
            Z.testbit r (hi - 1 - i)
            = payloadBit [0x0F; 0; 0; 0; 0; 0; 0; 0] (3 - i))
      /\ decodeSignal sig_be8 [0x5A; 0; 0; 0; 0; 0; 0; 0] = F32.of_bits 0x42b40000).
Proof.
  split; [lia|]. split; [lia|].
  apply (C6_be_extraction_skips_out_of_range [0x0F; 0; 0; 0; 0; 0; 0; 0] 3 8); lia.
Defined.

(** ** Order of the parser's checks (C2) *)

(** The checks up to TruncatedBody pass, so that [parseRules] reaches its
    CRC comparison. *)
Lemma parseRules_after_header (data : list Z) :
  Protocol.headerChecksPass data ->
  Protocol.parseRules data
  = let hdr := Protocol.readHeader data in
    if Protocol.bodyCrc data hdr =? Protocol.hdr_crc32 hdr then
      if negb ((Protocol.hdr_stringTableOffset hdr <? Protocol.firstOffset hdr)
               || (Protocol.hdr_totalSize hdr <=? Protocol.hdr_stringTableOffset hdr))
      then
        if negb ((Z.of_nat (length data) <? Protocol.expectedSize hdr)
                 || (Protocol.hdr_stringTableOffset hdr <? Protocol.expectedSize hdr))
        then Protocol.parseRules data
        else inl CountsOverflow
      else inl BadStringTableOffset
    else inl CrcMismatch.
Proof.
  unfold Protocol.headerChecksPass. cbv zeta. intros (Hlen & Hmagic & Hver & Htot).
  unfold Protocol.parseRules. cbv zeta.
  replace (Protocol.sizeof_WBPRulesHeader <=? Z.of_nat (length data)) with true by zbool.
  replace (Protocol.hdr_magic (Protocol.readHeader data) =? WBP_MAGIC_RULES)
    with true by zbool.
  replace ((Protocol.hdr_version (Protocol.readHeader data) <? WBP_MIN_VERSION)
           || (WBP_VERSION <? Protocol.hdr_version (Protocol.readHeader data)))
    with false by zbool.
  replace (Protocol.hdr_totalSize (Protocol.readHeader data) <=? Z.of_nat (length data))
    with true by zbool.
  replace (Protocol.sizeof_WBPRulesHeader <=? Protocol.hdr_totalSize (Protocol.readHeader data))
    with true by zbool.
  cbn [negb].
  destruct (Protocol.bodyCrc data (Protocol.readHeader data)
            =? Protocol.hdr_crc32 (Protocol.readHeader data)); [|reflexivity].
  destruct (negb ((Protocol.hdr_stringTableOffset (Protocol.readHeader data)
                   <? Protocol.firstOffset (Protocol.readHeader data))
                  || (Protocol.hdr_totalSize (Protocol.readHeader data)
                      <=? Protocol.hdr_stringTableOffset (Protocol.readHeader data))));
    [|reflexivity].
  destruct (negb ((Z.of_nat (length data) <? Protocol.expectedSize (Protocol.readHeader data))
                  || (Protocol.hdr_stringTableOffset (Protocol.readHeader data)
                      <? Protocol.expectedSize (Protocol.readHeader data))));
    reflexivity.
Qed.

(** With a matching CRC, an invalid string-table offset is the next error
    reported. *)
Lemma parseRules_bad_offset_after_crc (data : list Z) :
  Protocol.headerChecksPass data ->
  ~ Protocol.crcMismatch data ->
  Protocol.stringTableOffsetInvalid data ->
  Protocol.parseRules data = inl BadStringTableOffset.
Proof.
  intros Hh Hcrc Hsto. rewrite parseRules_after_header by exact Hh. cbv zeta.
  unfold Protocol.crcMismatch, Protocol.stringTableOffsetInvalid in *.
  cbv zeta in Hsto.
  destruct (Z.eqb_spec (Protocol.bodyCrc data (Protocol.readHeader data))
              (Protocol.hdr_crc32 (Protocol.readHeader data))); [|tauto].
  replace ((Protocol.hdr_stringTableOffset (Protocol.readHeader data)
            <? Protocol.firstOffset (Protocol.readHeader data))
           || (Protocol.hdr_totalSize (Protocol.readHeader data)
               <=? Protocol.hdr_stringTableOffset (Protocol.readHeader data)))
    with true; [reflexivity|].
  destruct Hsto; zbool.
Qed.

(** C2 as stated fails: the buffer below passes the ShortHeader, BadMagic,
    UnsupportedVersion and TruncatedBody checks, its string-table offset (0)
    is invalid and its body CRC differs from the header field; the parser
    reports [CrcMismatch]. *)
Lemma C2_counterexample :
  Protocol.headerChecksPass Fixtures.bad_offset_bad_crc
  /\ Protocol.stringTableOffsetInvalid Fixtures.bad_offset_bad_crc
  /\ Protocol.crcMismatch Fixtures.bad_offset_bad_crc
  /\ Protocol.parseRules Fixtures.bad_offset_bad_crc = inl CrcMismatch
  /\ Protocol.parseRules Fixtures.bad_offset_bad_crc <> inl BadStringTableOffset
  /\ Protocol.parseRules Fixtures.bad_offset_bad_crc <> inl CountsOverflow.
Proof.
  assert (Hp : Protocol.parseRules Fixtures.bad_offset_bad_crc = inl CrcMismatch)
    by (vm_compute; reflexivity).
  split; [vm_compute; repeat split; congruence|].
  split; [left; vm_compute; reflexivity|].
  split; [vm_compute; congruence|].
  split; [exact Hp|]. rewrite Hp. split; congruence.
Qed.

(** C2, amended.  The CRC check comes directly after the TruncatedBody
    checks and before the string-table-offset and counts checks: every input
    that passes the ShortHeader, BadMagic, UnsupportedVersion and
    TruncatedBody checks and whose body CRC differs from the header's crc32
    field is reported as [CrcMismatch], whatever its string-table offset and
    counts are. *)
Theorem C2_crc_checked_before_offsets (data : list Z) :
  Protocol.headerChecksPass data ->
  Protocol.crcMismatch data ->
  Protocol.parseRules data = inl CrcMismatch.
Proof.
  intros Hh Hcrc. rewrite parseRules_after_header by exact Hh. cbv zeta.
  apply Z.eqb_neq in Hcrc. rewrite Hcrc. reflexivity.
Qed.

Lemma C2_crc_checked_before_offsets_witness :
  Protocol.headerChecksPass Fixtures.bad_offset_bad_crc
  /\ Protocol.crcMismatch Fixtures.bad_offset_bad_crc
  /\ Protocol.parseRules Fixtures.bad_offset_bad_crc = inl CrcMismatch.
Proof.
  assert (H1 : Protocol.headerChecksPass Fixtures.bad_offset_bad_crc)
    by (vm_compute; repeat split; congruence).
  assert (H2 : Protocol.crcMismatch Fixtures.bad_offset_bad_crc)
    by (vm_compute; congruence).
  split; [exact H1|]. split; [exact H2|].
  exact (C2_crc_checked_before_offsets Fixtures.bad_offset_bad_crc H1 H2).
Defined.

(** ** The status frame (C8) *)

(** C8, at the failing input.  After installing a ruleset whose two signals
    share CAN id 0x100, the number of distinct CAN ids is 1, but the fourth
    numeric field of the status frame is 2: [sendStatus] prints
    [getSignalCount()] a second time in that position. *)
Theorem C8_status_frame_repeats_signal_count :
  let r := Engine.loadRuleset Engine.init Fixtures.shared_can_id in
  let c := {| Controller.engine_ := fst r; Controller.rulesMode_ := 1;
              Controller.bootCount_ := 7; Controller.connected := true |} in
  snd r = true
  /\ canId <$> Engine.signals_ (fst r) = [0x100; 0x100]
  /\ Controller.uniqueCanIds (fst r) = 1%nat
  /\ Controller.sendStatus c 5000 = Some "S:1:2:0:2:5000:7"%string
  /\ Controller.fields <$> Controller.sendStatus c 5000
     = Some ["S"; "1"; "2"; "0"; "2"; "5000"; "7"]%string.
Proof. cbv zeta. repeat split; vm_compute; reflexivity. Qed.

(** ** OTA full-path finalization (C7) *)

Lemma lxor_mask_involutive (x m : Z) : Z.lxor (Z.lxor x m) m = x.
Proof. rewrite Z.lxor_assoc, Z.lxor_nilpotent, Z.lxor_0_r. reflexivity. Qed.

(** The running CRC over consecutive chunks is the CRC of their
    concatenation. *)
Lemma esp_crc32_le_app (c : Z) (a b : list Z) :
  esp_crc32_le (esp_crc32_le c a) b = esp_crc32_le c (a ++ b).
Proof.
  unfold esp_crc32_le. rewrite lxor_mask_involutive, fold_left_app. reflexivity.
Qed.

Lemma esp_crc32_le_nil (c : Z) : esp_crc32_le c [] = c.
Proof. unfold esp_crc32_le. simpl. apply lxor_mask_involutive. Qed.

Lemma OTAStatus_eqb_eq (a b : OTAStatus) :
  ESP32OTAService.OTAStatus_eqb a b = true <-> a = b.
Proof. destruct a, b; simpl; split; congruence. Qed.

Lemma notifyComplete_status (s : ESP32OTAService.State) (st : OTAStatus) :
  ESP32OTAService.status_ (ESP32OTAService.notifyComplete s st) = st.
Proof.
  unfold ESP32OTAService.notifyComplete.
  destruct (ESP32OTAService.completeCb_ (ESP32OTAService.set_status s st)); reflexivity.
Qed.

(** What a running full session has recorded. *)
Lemma FullSession_state (N C : Z) (bs : list Z) (s : ESP32OTAService.State) :
  0 <= N < 2 ^ 32 ->
  ESP32OTAService.FullSession N C bs s ->
  ESP32OTAService.status_ s = RECEIVING
  /\ ESP32OTAService.isDelta_ s = false
  /\ ESP32OTAService.expectedSize_ s = N
  /\ ESP32OTAService.expectedCRC_ s = C
  /\ ESP32OTAService.receivedBytes_ s = Z.of_nat (length bs)
  /\ ESP32OTAService.calculatedCRC_ s = esp_crc32_le 0 bs
  /\ Z.of_nat (length bs) <= N.
Proof.
  intros HN Hsess. induction Hsess as [partition begin s0 s Hstart
                                      | bs s write_ok data s' Hsess IH Hlen Hwrite].
  - unfold ESP32OTAService.startFirmwareUpdate in Hstart.
    destruct (negb (ESP32OTAService.OTAStatus_eqb (ESP32OTAService.status_ s0) IDLE));
      [congruence|].
    destruct partition as [size|]; [|congruence].
    destruct (size <? N); [congruence|].
    destruct begin as [h|]; [|congruence].
    injection Hstart as <-. simpl. rewrite esp_crc32_le_nil.
    repeat split; try reflexivity. lia.
  - destruct IH as (Hst & Hd & Hsz & Hcrc & Hrecv & Hcalc & Hle).
    unfold ESP32OTAService.writeFirmwareChunk in Hwrite. cbv zeta in Hwrite.
    rewrite Hst, Hd in Hwrite. simpl in Hwrite.
    rewrite Hsz, Hrecv in Hwrite.
    rewrite length_app, Nat2Z.inj_add in Hlen.
    unfold u32 in Hwrite. rewrite Z.mod_small in Hwrite by lia.
    destruct (Z.ltb_spec N (Z.of_nat (length bs) + Z.of_nat (length data)));
      [congruence|].
    destruct write_ok; simpl in Hwrite; [|congruence].
    injection Hwrite as <-.
    unfold ESP32OTAService.notifyProgress.
    match goal with |- context [if ?c then _ else _] => destruct c end;
      simpl; rewrite ?Hcalc, ?esp_crc32_le_app, ?length_app, ?Nat2Z.inj_add;
      repeat split; auto; lia.
Qed.

(** [finalizeFirmwareUpdate] on a state that is receiving a full image. *)
Lemma finalize_receiving (end_ok boot_ok : bool) (s : ESP32OTAService.State) :
  ESP32OTAService.status_ s = RECEIVING ->
  ESP32OTAService.isDelta_ s = false ->
  let r := ESP32OTAService.finalizeFirmwareUpdate end_ok boot_ok s in
  (snd r, ESP32OTAService.status_ (fst r))
  = if negb (ESP32OTAService.receivedBytes_ s =? ESP32OTAService.expectedSize_ s)
    then (false, ERROR_SPACE)
    else if negb (ESP32OTAService.calculatedCRC_ s =? ESP32OTAService.expectedCRC_ s)
    then (false, ERROR_CRC)
    else if end_ok && boot_ok then (true, SUCCESS) else (false, ERROR_FLASH).
Proof.
  intros Hst Hd. cbv zeta. unfold ESP32OTAService.finalizeFirmwareUpdate.
  rewrite Hst, Hd. cbn [ESP32OTAService.OTAStatus_eqb negb orb]. cbv zeta.
  cbn [ESP32OTAService.receivedBytes_ ESP32OTAService.expectedSize_
       ESP32OTAService.calculatedCRC_ ESP32OTAService.expectedCRC_
       ESP32OTAService.set_status].
  destruct (negb (ESP32OTAService.receivedBytes_ s =? ESP32OTAService.expectedSize_ s)).
  { cbn [fst snd]. rewrite notifyComplete_status. reflexivity. }
  destruct (negb (ESP32OTAService.calculatedCRC_ s =? ESP32OTAService.expectedCRC_ s)).
  { cbn [fst snd]. rewrite notifyComplete_status. reflexivity. }
  destruct end_ok, boot_ok; cbn [negb andb fst snd];
    rewrite notifyComplete_status; reflexivity.
Qed.

(** A concrete full session: declared size 1 and the CRC of the byte
    [0x31], opened on a 1 MiB partition, after that one byte was written. *)
Lemma one_byte_session :
  let C := esp_crc32_le 0 [0x31] in
  let s0 := fst (ESP32OTAService.startFirmwareUpdate (Some 0x100000) (Some 1)
                   ESP32OTAService.init 1 C) in
  let s1 := fst (ESP32OTAService.writeFirmwareChunk true s0 [0x31]) in
  ESP32OTAService.FullSession 1 C [0x31] s1.
Proof.
  cbv zeta.
  refine (ESP32OTAService.session_write 1 _ [] _ true [0x31] _ _ _ _).
  - refine (ESP32OTAService.session_start 1 _ (Some 0x100000) (Some 1)
              ESP32OTAService.init _ _).
    vm_compute. reflexivity.
  - vm_compute. reflexivity.
  - vm_compute. reflexivity.
Qed.

(** C7 as stated fails: a full session declared with size 1 and the CRC of
    the byte [0x31] receives exactly that byte, so the byte count and the
    running CRC both match; when [esp_ota_end] reports an error, finalize
    fails and the state is [ERROR_FLASH], not [SUCCESS]. *)
Lemma C7_counterexample :
  let C := esp_crc32_le 0 [0x31] in
  let s0 := fst (ESP32OTAService.startFirmwareUpdate (Some 0x100000) (Some 1)
                   ESP32OTAService.init 1 C) in
  let s1 := fst (ESP32OTAService.writeFirmwareChunk true s0 [0x31]) in
  ESP32OTAService.FullSession 1 C [0x31] s1
  /\ ESP32OTAService.receivedBytes_ s1 = 1
  /\ ESP32OTAService.calculatedCRC_ s1 = C
  /\ snd (ESP32OTAService.finalizeFirmwareUpdate false true s1) = false
  /\ ESP32OTAService.status_ (fst (ESP32OTAService.finalizeFirmwareUpdate false true s1))
     = ERROR_FLASH.
Proof.
  cbv zeta. split; [exact one_byte_session|].
  repeat split; vm_compute; reflexivity.
Qed.

(** C7, amended.  For a full session started with declared size [N] and CRC
    [C] that has received the bytes [bs]:
    if exactly [N] bytes were received and their running CRC-32 equals [C],
    finalize succeeds with state [SUCCESS] provided [esp_ota_end] and
    [esp_ota_set_boot_partition] both succeed, and fails with [ERROR_FLASH]
    otherwise; if fewer than [N] bytes were received finalize fails with
    [ERROR_SPACE]; if [N] bytes were received but the running CRC differs
    from [C] finalize fails with [ERROR_CRC]; and a chunk that would push the
    received byte count past [N] (the 32-bit sum not wrapping) fails the
    session with [ERROR_SPACE]. *)
Theorem C7_full_session_finalization (N C : Z) (bs : list Z)
    (s : ESP32OTAService.State) :
  0 <= N < 2 ^ 32 ->
  ESP32OTAService.FullSession N C bs s ->
  (Z.of_nat (length bs) = N -> esp_crc32_le 0 bs = C ->
   forall end_ok boot_ok,
     let r := ESP32OTAService.finalizeFirmwareUpdate end_ok boot_ok s in
     (snd r, ESP32OTAService.status_ (fst r))
     = if end_ok && boot_ok then (true, SUCCESS) else (false, ERROR_FLASH))
  /\ (Z.of_nat (length bs) < N ->
      forall end_ok boot_ok,
        let r := ESP32OTAService.finalizeFirmwareUpdate end_ok boot_ok s in
        (snd r, ESP32OTAService.status_ (fst r)) = (false, ERROR_SPACE))
  /\ (Z.of_nat (length bs) = N -> esp_crc32_le 0 bs <> C ->
      forall end_ok boot_ok,
        let r := ESP32OTAService.finalizeFirmwareUpdate end_ok boot_ok s in
        (snd r, ESP32OTAService.status_ (fst r)) = (false, ERROR_CRC))
  /\ (forall write_ok data,
        N < Z.of_nat (length bs) + Z.of_nat (length data) < 2 ^ 32 ->
        let r := ESP32OTAService.writeFirmwareChunk write_ok s data in
        (snd r, ESP32OTAService.status_ (fst r)) = (false, ERROR_SPACE)).
Proof.
  intros HN Hsess.
  destruct (FullSession_state N C bs s HN Hsess)
    as (Hst & Hd & Hsz & Hcrc & Hrecv & Hcalc & Hle).
  repeat split.
  - intros Hlen Hc end_ok boot_ok. cbv zeta.
    rewrite finalize_receiving by assumption.
    rewrite Hrecv, Hsz, Hcalc, Hcrc.
    replace (Z.of_nat (length bs) =? N) with true by zbool.
    replace (esp_crc32_le 0 bs =? C) with true by zbool. reflexivity.
  - intros Hlen end_ok boot_ok. cbv zeta.
    rewrite finalize_receiving by assumption.
    rewrite Hrecv, Hsz.
    replace (Z.of_nat (length bs) =? N) with false by zbool. reflexivity.
  - intros Hlen Hc end_ok boot_ok. cbv zeta.
    rewrite finalize_receiving by assumption.
    rewrite Hrecv, Hsz, Hcalc, Hcrc.
    replace (Z.of_nat (length bs) =? N) with true by zbool.
    replace (esp_crc32_le 0 bs =? C) with false by zbool. reflexivity.
  - intros write_ok data Hover. cbv zeta.
    unfold ESP32OTAService.writeFirmwareChunk. cbv zeta.
    rewrite Hst, Hd, Hsz, Hrecv. cbn [ESP32OTAService.OTAStatus_eqb negb orb].
    unfold u32. rewrite Z.mod_small by lia.
    replace (N <? Z.of_nat (length bs) + Z.of_nat (length data)) with true by zbool.
    cbn [fst snd]. rewrite notifyComplete_status. reflexivity.
Qed.

Lemma C7_full_session_finalization_witness :
  let C := esp_crc32_le 0 [0x31] in
  let s0 := fst (ESP32OTAService.startFirmwareUpdate (Some 0x100000) (Some 1)
                   ESP32OTAService.init 1 C) in
  let s1 := fst (ESP32OTAService.writeFirmwareChunk true s0 [0x31]) in
  0 <= 1 < 2 ^ 32
  /\ ESP32OTAService.FullSession 1 C [0x31] s1
  /\ Z.of_nat (length [0x31]) = 1
  /\ (let r := ESP32OTAService.finalizeFirmwareUpdate true true s1 in
      (snd r, ESP32OTAService.status_ (fst r)) = (true, SUCCESS)).
Proof.
  cbv zeta.
  assert (HN : 0 <= 1 < 2 ^ 32) by lia.
  pose proof one_byte_session as Hs. cbv zeta in Hs.
  split; [exact HN|]. split; [exact Hs|]. split; [reflexivity|].
  exact (proj1 (C7_full_session_finalization 1 _ [0x31] _ HN Hs)
           eq_refl eq_refl true true).
Defined.

(** ** Ruleset installation (C1) *)

(** What the validation loop of [loadRuleset] finds. *)
Lemma firstUnknown_Some (handlers : gmap string Handler)
    (acts : list RuntimeAction) (id : string) :
  Engine.firstUnknown handlers acts = Some id ->
  exists a, a ∈ acts /\ capabilityId a = id /\ handlers !! id = None.
Proof.
  unfold Engine.firstUnknown. intros H.
  destruct (List.find _ acts) as [a|] eqn:Hfind; [|discriminate].
  injection H as <-. apply List.find_some in Hfind as [Hin Hp].
  exists a. split; [apply list_elem_of_In; exact Hin|]. split; [reflexivity|].
  apply bool_decide_eq_true in Hp. exact Hp.
Qed.

Lemma firstUnknown_None (handlers : gmap string Handler)
    (acts : list RuntimeAction) :
  Engine.firstUnknown handlers acts = None ->
  forall a, a ∈ acts -> is_Some (handlers !! capabilityId a).
Proof.
  unfold Engine.firstUnknown. intros H a Ha.
  destruct (List.find _ acts) as [b|] eqn:Hfind; [discriminate|].
  apply list_elem_of_In in Ha.
  pose proof (List.find_none _ _ Hfind a Ha) as Hp. cbv beta in Hp.
  apply bool_decide_eq_false in Hp.
  destruct (handlers !! capabilityId a); [eauto | congruence].
Qed.

(** C1.  Installation is atomic.  When [loadRuleset] fails, the signal,
    condition, action and rule tables (hence their counts), the retained
    binary and the ruleset CRC are those of before the call; a failure after
    a successful parse is caused by an action whose capability id has no
    registered handler, and [getUnknownCapability] then returns that id.
    When [loadRuleset] succeeds, the buffer parsed, every action's capability
    id is registered, and the tables, binary and CRC are the new ones. *)
Theorem C1_install_atomic (e : Engine.State) (data : list Z)
    (e' : Engine.State) (ok : bool) :
  Engine.loadRuleset e data = (e', ok) ->
  (ok = false ->
     Engine.signals_ e' = Engine.signals_ e
     /\ Engine.conditions_ e' = Engine.conditions_ e
     /\ Engine.actions_ e' = Engine.actions_ e
     /\ Engine.rules_ e' = Engine.rules_ e
     /\ Engine.getSignalCount e' = Engine.getSignalCount e
     /\ Engine.getConditionCount e' = Engine.getConditionCount e
     /\ Engine.getActionCount e' = Engine.getActionCount e
     /\ Engine.getRuleCount e' = Engine.getRuleCount e
     /\ Engine.getRulesetBinary e' = Engine.getRulesetBinary e
     /\ Engine.getRulesetCRC e' = Engine.getRulesetCRC e
     /\ Engine.signalMap_ e' = Engine.signalMap_ e
     /\ (forall err, Protocol.parseRules data = inl err -> e' = e)
     /\ (forall t, Protocol.parseRules data = inr t ->
           exists a, a ∈ Protocol.outActions t
                     /\ Engine.handlers_ e !! capabilityId a = None
                     /\ Engine.getUnknownCapability e' = capabilityId a))
  /\ (ok = true ->
        exists t, Protocol.parseRules data = inr t
          /\ (forall a, a ∈ Protocol.outActions t ->
                is_Some (Engine.handlers_ e !! capabilityId a))
          /\ Engine.signals_ e' = Protocol.outSignals t
          /\ Engine.conditions_ e' = Protocol.outConditions t
          /\ Engine.actions_ e' = Protocol.outActions t
          /\ Engine.rules_ e' = Protocol.outRules t
          /\ Engine.getRulesetBinary e' = data
          /\ Engine.getRulesetCRC e' = Protocol.calculateCRC32 data
          /\ Engine.getUnknownCapability e' = EmptyString).
Proof.
  unfold Engine.loadRuleset. intros Hload.
  destruct (Protocol.parseRules data) as [err|t] eqn:Hparse.
  - injection Hload as <- <-. split; [|discriminate]. intros _.
    repeat split; try reflexivity. intros t Ht. discriminate.
  - destruct (Engine.firstUnknown (Engine.handlers_ e) (Protocol.outActions t))
      as [id|] eqn:Hunk.
    + injection Hload as <- <-. split; [|discriminate]. intros _.
      repeat split; try reflexivity.
      * intros err Herr. discriminate.
      * intros t' Ht'. injection Ht' as <-.
        destruct (firstUnknown_Some _ _ _ Hunk) as (a & Hin & Hid & Hnone).
        exists a. subst id. repeat split; assumption.
    + injection Hload as <- <-. split; [discriminate|]. intros _.
      exists t. repeat split; try reflexivity.
      apply firstUnknown_None. exact Hunk.
Qed.

(** An engine that knows the capability ["log"] and runs [timed_rule]
    rejects [within_swapped], whose action needs ["buzz"], and keeps
    [timed_rule]. *)
Lemma C1_install_atomic_witness :
  let e := fst (Engine.loadRuleset (Fixtures.engine_with "log") Fixtures.timed_rule) in
  let e' := fst (Engine.loadRuleset e Fixtures.within_swapped) in
  Engine.loadRuleset e Fixtures.within_swapped = (e', false)
  /\ Engine.getRulesetBinary e' = Fixtures.timed_rule
  /\ Engine.getRuleCount e' = 1%nat
  /\ Engine.rules_ e' = Engine.rules_ e
  /\ Engine.getUnknownCapability e' = "buzz"%string.
Proof.
  cbv zeta.
  assert (H : Engine.loadRuleset
                (fst (Engine.loadRuleset (Fixtures.engine_with "log") Fixtures.timed_rule))
                Fixtures.within_swapped
              = (fst (Engine.loadRuleset
                        (fst (Engine.loadRuleset (Fixtures.engine_with "log")
                                Fixtures.timed_rule))
                        Fixtures.within_swapped), false)).
  { vm_compute. reflexivity. }
  split; [exact H|].
  destruct (proj1 (C1_install_atomic _ _ _ _ H) eq_refl)
    as (_ & _ & _ & Hrules & _ & _ & _ & _ & _ & _ & _ & _ & _).
  split; [vm_compute; reflexivity|].
  split; [vm_compute; reflexivity|].
  split; [exact Hrules|].
  vm_compute. reflexivity.
Defined.

(** ** WITHIN bounds (C3) *)

(** Ordering facts of binary32 comparison. *)
Lemma SFleb_trans_not_lt (a b c : spec_float) :
  SFleb a b = true -> SFleb b c = true -> SFltb c a = false.
Proof.
  unfold SFleb, SFltb.
  destruct a as [sa|sa| |sa ma ea], b as [sb|sb| |sb mb eb],
           c as [sc|sc| |sc mc ec];
    try destruct sa; try destruct sb; try destruct sc;
    cbn [SFcompare]; try reflexivity; try discriminate;
    change (Pos.compare_cont Eq) with Pos.compare;
    repeat match goal with
      | |- context [Z.compare ?x ?y] => destruct (Z.compare_spec x y)
      | |- context [Pos.compare ?x ?y] => destruct (Pos.compare_spec x y)
      end;
    cbn [CompOpp]; try reflexivity; try discriminate; try lia.
Qed.

Lemma forP_lookup {A : Type} (body : Z -> Parse A) (n : nat) :
  forall (a : nat) (l : list A),
  forP body (seq a n) = inr l ->
  length l = n
  /\ forall (i : nat) (x : A), l !! i = Some x -> body (Z.of_nat (a + i)) = inr x.
Proof.
  induction n as [|n IH]; intros a l H; cbn [seq forP] in H.
  - injection H as <-. split; [reflexivity|]. intros i x Hx. discriminate.
  - unfold bindP in H at 1.
    destruct (body (Z.of_nat a)) as [err|x0] eqn:Hb; [discriminate|].
    unfold bindP in H at 1.
    destruct (forP body (seq (S a) n)) as [err|rest] eqn:Hrest; [discriminate|].
    injection H as <-. destruct (IH _ _ Hrest) as [Hlen Hall].
    split; [simpl; lia|].
    intros [|i] x Hx.
    + injection Hx as <-. rewrite Nat.add_0_r. exact Hb.
    + replace (a + S i)%nat with (S a + i)%nat by lia. apply Hall. exact Hx.
Qed.

(** The tables of a successful parse are the results of the four loops. *)
Lemma parseRules_tables (data : list Z) (t : Protocol.Tables) :
  Protocol.parseRules data = inr t ->
  let hdr := Protocol.readHeader data in
  let offset1 :=
    Protocol.firstOffset hdr + Protocol.hdr_signalCount hdr * Protocol.sizeof_WBPSignal in
  forP (Protocol.parseSignal data (Protocol.firstOffset hdr))
       (seq 0 (Z.to_nat (Protocol.hdr_signalCount hdr)))
  = inr (Protocol.outSignals t)
  /\ forP (Protocol.parseCondition data hdr offset1)
          (seq 0 (Z.to_nat (Protocol.hdr_conditionCount hdr)))
     = inr (Protocol.outConditions t).
Proof.
  unfold Protocol.parseRules. cbv zeta. intros H.
  repeat match type of H with
         | (if ?c then _ else inl _) = _ => destruct c; [|discriminate H]
         end.
  unfold bindP in H.
  repeat match type of H with
         | match ?m with inl _ => _ | inr _ => _ end = _ =>
             let E := fresh "E" in destruct m eqn:E; [discriminate H|]
         end.
  injection H as <-. cbn [Protocol.outSignals Protocol.outConditions].
  split; reflexivity.
Qed.

(** A condition produced by [parseCondition] carries the two serialized
    floats in serialized order. *)
Lemma parseCondition_values (data : list Z) (hdr : Protocol.WBPRulesHeader)
    (base i : Z) (c : RuntimeCondition) :
  Protocol.parseCondition data hdr base i = inr c ->
  value1 c = rdf32 data (base + i * Protocol.sizeof_WBPCondition + 4)
  /\ value2 c = rdf32 data (base + i * Protocol.sizeof_WBPCondition + 8)
  /\ Operation_of_code (rd8 data (base + i * Protocol.sizeof_WBPCondition + 1))
     = Some (operation c).
Proof.
  unfold Protocol.parseCondition. cbv zeta. intros H.
  destruct (rd8 data (base + i * Protocol.sizeof_WBPCondition)
            <? Protocol.hdr_signalCount hdr); [|discriminate].
  destruct (Operation_of_code _) as [op|] eqn:Hop; [|discriminate].
  assert (Hplain : forall c0 : RuntimeCondition,
            (inr c0 : Parse RuntimeCondition) = inr c ->
            value1 c0 = rdf32 data (base + i * Protocol.sizeof_WBPCondition + 4) ->
            value2 c0 = rdf32 data (base + i * Protocol.sizeof_WBPCondition + 8) ->
            operation c0 = op ->
            value1 c = rdf32 data (base + i * Protocol.sizeof_WBPCondition + 4)
            /\ value2 c = rdf32 data (base + i * Protocol.sizeof_WBPCondition + 8)
            /\ Some op = Some (operation c)).
  { intros c0 Hc H1 H2 H3. injection Hc as <-. rewrite H1, H2, H3. auto. }
  destruct op;
    lazymatch type of H with
    | (if _ then _ else _) = _ => idtac
    | _ => exact (Hplain _ H eq_refl eq_refl eq_refl)
    end.
  destruct (negb _); [|discriminate H].
  exact (Hplain _ H eq_refl eq_refl eq_refl).
Qed.


(** What [evaluateCondition] computes for a WITHIN condition: the signal must
    exist and have been set, and its value must satisfy
    [value1 <= val && val <= value2]. *)
Lemma evaluateCondition_WITHIN (sigs : list RuntimeSignal)
    (cond : RuntimeCondition) (nowMs : Z) :
  operation cond = WITHIN ->
  Engine.evaluateCondition sigs cond nowMs
  = Some (cond,
          match sigs !! signalIdx cond with
          | Some sig =>
              everSet sig
              && (F32.leb (value1 cond) (value sig)
                  && F32.leb (value sig) (value2 cond))
          | None => false
          end).
Proof.
  intros Hop. unfold Engine.evaluateCondition.
  destruct (Nat.leb_spec (length sigs) (signalIdx cond)) as [Hge|Hlt].
  - rewrite (proj2 (lookup_ge_None sigs (signalIdx cond))) by lia. reflexivity.
  - destruct (lookup_lt_is_Some_2 sigs (signalIdx cond) Hlt) as [sig Hsig].
    rewrite Hsig. cbn [mbind option_bind].
    destruct (everSet sig); cbn [negb andb]; [|reflexivity].
    rewrite Hop. reflexivity.
Qed.

(** C3, at the failing input: the ruleset [within_swapped] serializes a
    WITHIN condition with value1 = 10.0 and value2 = 5.0.  After installation
    the condition still has value1 = 10.0 > value2 = 5.0, and with the signal
    at 7.0, which lies between the two bounds, it evaluates to false, where
    the specification requires the bounds swapped and the result true. *)
Lemma C3_counterexample :
  let r := Engine.loadRuleset (Fixtures.engine_with "buzz") Fixtures.within_swapped in
  let e := Engine.processCanFrame (fst r) (Fixtures.frame_0x100 7) 1000 in
  snd r = true
  /\ operation <$> Engine.conditions_ e = [WITHIN]
  /\ value1 <$> Engine.conditions_ e = [F32.of_bits 0x41200000]
  /\ value2 <$> Engine.conditions_ e = [F32.of_bits 0x40a00000]
  /\ F32.leb (F32.of_bits 0x41200000) (F32.of_bits 0x40a00000) = false
  /\ value <$> Engine.signals_ e = [F32.of_bits 0x40e00000]
  /\ F32.leb (F32.of_bits 0x40a00000) (F32.of_bits 0x40e00000) = true
  /\ F32.leb (F32.of_bits 0x40e00000) (F32.of_bits 0x41200000) = true
  /\ snd <$> (Engine.conditions_ e !! 0%nat
              ≫= fun c => Engine.evaluateCondition (Engine.signals_ e) c 1000)
     = Some false.
Proof. cbv zeta. repeat split; vm_compute; reflexivity. Qed.

(** C3, the defect for every ruleset.  [Protocol::parseRules] copies the two
    floats of a condition as serialized and [Engine::loadRuleset] installs
    the parsed table unchanged, so on the binary path nothing orders the
    bounds of a WITHIN condition (the JSON loader [W4RPBLE::applyRuleset]
    does swap them when [v2 < v1]).  The installed [value1] and [value2] are
    the two serialized floats in serialized order and the condition is true
    exactly when its signal has been set and [value1 <= val <= value2]; a
    WITHIN condition serialized with [value2 < value1] is therefore false
    for every signal value, also for those between the two bounds, where the
    specification requires true. *)
Theorem C3_within_bounds_kept_as_serialized (data : list Z)
    (t : Protocol.Tables) (i : nat) (c : RuntimeCondition) :
  Protocol.parseRules data = inr t ->
  Protocol.outConditions t !! i = Some c ->
  operation c = WITHIN ->
  let hdr := Protocol.readHeader data in
  let p := Protocol.firstOffset hdr
           + Protocol.hdr_signalCount hdr * Protocol.sizeof_WBPSignal
           + Z.of_nat i * Protocol.sizeof_WBPCondition in
  value1 c = rdf32 data (p + 4)
  /\ value2 c = rdf32 data (p + 8)
  /\ (forall sigs nowMs,
        Engine.evaluateCondition sigs c nowMs
        = Some (c, match sigs !! signalIdx c with
                   | Some sig =>
                       everSet sig
                       && (F32.leb (value1 c) (value sig)
                           && F32.leb (value sig) (value2 c))
                   | None => false
                   end))
  /\ (F32.ltb (value2 c) (value1 c) = true ->
      forall sigs nowMs, Engine.evaluateCondition sigs c nowMs = Some (c, false)).
Proof.
  intros Hparse Hc Hop. cbv zeta.
  destruct (parseRules_tables data t Hparse) as [_ Hconds]. cbv zeta in Hconds.
  destruct (forP_lookup _ _ _ _ Hconds) as [_ Hall].
  specialize (Hall i c Hc). rewrite Nat.add_0_l in Hall.
  destruct (parseCondition_values _ _ _ _ _ Hall) as (H1 & H2 & _).
  split; [exact H1|]. split; [exact H2|].
  split; [intros sigs nowMs; apply evaluateCondition_WITHIN; exact Hop|].
  intros Hswap sigs nowMs. rewrite evaluateCondition_WITHIN by exact Hop.
  destruct (sigs !! signalIdx c) as [sig|]; [|reflexivity].
  destruct (everSet sig); [|reflexivity]. cbn [andb].
  destruct (F32.leb (value1 c) (value sig)) eqn:Hlo; [|reflexivity].
  destruct (F32.leb (value sig) (value2 c)) eqn:Hhi; [|reflexivity].
  pose proof (SFleb_trans_not_lt _ _ _ Hlo Hhi) as Hno.
  unfold F32.ltb in Hswap. congruence.
Qed.

Lemma C3_within_bounds_witness :
  let r := Engine.loadRuleset (Fixtures.engine_with "buzz") Fixtures.within_swapped in
  let e := Engine.processCanFrame (fst r) (Fixtures.frame_0x100 7) 1000 in
  let c := {| signalIdx := 0; operation := WITHIN;
              value1 := F32.of_bits 0x41200000; value2 := F32.of_bits 0x40a00000;
              holdMs := 0; holdStartMs := 0; holdActive := false;
              lastResult := false |} in
  Engine.conditions_ e !! 0%nat = Some c
  /\ operation c = WITHIN
  /\ F32.ltb (value2 c) (value1 c) = true
  /\ Engine.evaluateCondition (Engine.signals_ e) c 1000 = Some (c, false).
Proof.
  cbv zeta.
  pose (c := {| signalIdx := 0; operation := WITHIN;
                value1 := F32.of_bits 0x41200000; value2 := F32.of_bits 0x40a00000;
                holdMs := 0; holdStartMs := 0; holdActive := false;
                lastResult := false |}).
  destruct (Protocol.parseRules Fixtures.within_swapped) as [err|t] eqn:Hparse;
    [vm_compute in Hparse; discriminate|].
  assert (Hc : Protocol.outConditions t !! 0%nat = Some c).
  { vm_compute in Hparse. injection Hparse as <-. vm_compute. reflexivity. }
  assert (Hop : operation c = WITHIN) by reflexivity.
  assert (Hswap : F32.ltb (value2 c) (value1 c) = true) by (vm_compute; reflexivity).
  split; [vm_compute; reflexivity|].
  split; [exact Hop|]. split; [exact Hswap|].
  exact (proj2 (proj2 (proj2
           (C3_within_bounds_kept_as_serialized Fixtures.within_swapped t 0 c
              Hparse Hc Hop))) Hswap _ 1000).
Defined.

(** ** Rule evaluation stays inside the tables (C10) *)

Lemma evaluateCondition_total (sigs : list RuntimeSignal)
    (cond : RuntimeCondition) (nowMs : Z) :
  exists cond' r, Engine.evaluateCondition sigs cond nowMs = Some (cond', r).
Proof.
  unfold Engine.evaluateCondition.
  destruct (Nat.leb_spec (length sigs) (signalIdx cond)) as [Hge|Hlt]; [eauto|].
  destruct (lookup_lt_is_Some_2 sigs (signalIdx cond) Hlt) as [sig Hsig].
  rewrite Hsig. cbn [mbind option_bind].
  destruct (negb (everSet sig)); [eauto|].
  destruct (operation cond); eauto.
  destruct (F32.ltb F32.EPSILON (F32.abs (value sig))); eauto.
Qed.

Lemma evaluateCondition_out_of_range (sigs : list RuntimeSignal)
    (cond : RuntimeCondition) (nowMs : Z) :
  (length sigs <= signalIdx cond)%nat ->
  Engine.evaluateCondition sigs cond nowMs = Some (cond, false).
Proof.
  intros H. unfold Engine.evaluateCondition.
  destruct (Nat.leb_spec (length sigs) (signalIdx cond)); [reflexivity | lia].
Qed.

Lemma evalMask_total (sigs : list RuntimeSignal) (nowMs mask : Z) (cs : list nat) :
  forall conds : list RuntimeCondition,
  Forall (fun c => (c < length conds)%nat) cs ->
  exists conds' met,
    Engine.evalMask sigs nowMs mask cs conds = Some (conds', met)
    /\ length conds' = length conds.
Proof.
  induction cs as [|c cs IH]; intros conds Hcs; cbn [Engine.evalMask].
  - eauto.
  - apply Forall_cons in Hcs as [Hc Hcs].
    destruct (Z.testbit mask (Z.of_nat c)); [|apply IH; exact Hcs].
    destruct (lookup_lt_is_Some_2 conds c Hc) as [cond Hcond].
    rewrite Hcond. cbn [mbind option_bind].
    destruct (evaluateCondition_total sigs cond nowMs) as (cond' & r & Hev).
    rewrite Hev. cbn [mbind option_bind].
    destruct r.
    + destruct (IH (<[c := cond']> conds)) as (conds' & met & Hm & Hlen).
      { rewrite length_insert. exact Hcs. }
      exists conds', met. split; [exact Hm|]. rewrite Hlen. apply length_insert.
    + eexists _, _. split; [reflexivity|]. apply length_insert.
Qed.

Lemma evalMask_ext (sigs : list RuntimeSignal) (nowMs m m' : Z) (cs : list nat) :
  forall conds : list RuntimeCondition,
  Forall (fun c => Z.testbit m (Z.of_nat c) = Z.testbit m' (Z.of_nat c)) cs ->
  Engine.evalMask sigs nowMs m cs conds = Engine.evalMask sigs nowMs m' cs conds.
Proof.
  induction cs as [|c cs IH]; intros conds Hcs; cbn [Engine.evalMask]; [reflexivity|].
  apply Forall_cons in Hcs as [Hc Hcs]. rewrite <- Hc.
  destruct (Z.testbit m (Z.of_nat c)); [|apply IH; exact Hcs].
  destruct (conds !! c) as [cond|]; [|reflexivity]. cbn [mbind option_bind].
  destruct (Engine.evaluateCondition sigs cond nowMs) as [[cond' r]|]; [|reflexivity].
  cbn [mbind option_bind]. destruct r; [|reflexivity]. apply IH. exact Hcs.
Qed.

Lemma mapM_lookup_seq {A : Type} (l : list A) (n : nat) :
  forall start : nat,
  (start + n <= length l)%nat ->
  mapM (fun a => l !! a) (seq start n) = Some (take n (drop start l)).
Proof.
  induction n as [|n IH]; intros start Hfit; cbn [seq mapM].
  - reflexivity.
  - destruct (lookup_lt_is_Some_2 l start) as [x Hx]; [lia|].
    rewrite Hx. cbn [mbind option_bind]. rewrite IH by lia.
    cbn [mbind option_bind mret option_ret].
    rewrite (drop_S l x start Hx). reflexivity.
Qed.

(** The executed slice is [actions[start .. start+count)] cut at the end of
    the table. *)
Lemma actionSlice_clipped (actions : list RuntimeAction) (start count : nat) :
  Engine.actionSlice actions start count = Some (take count (drop start actions)).
Proof.
  unfold Engine.actionSlice, Engine.actionIndices.
  destruct (Nat.le_gt_cases (length actions) start) as [Hout|Hin].
  - replace (Nat.min (start + count) (length actions) - start)%nat with 0%nat by lia.
    rewrite drop_ge by lia. rewrite take_nil. reflexivity.
  - rewrite mapM_lookup_seq by lia. f_equal.
    destruct (Nat.le_gt_cases (start + count) (length actions)) as [Hfit|Hclip].
    + f_equal. lia.
    + rewrite !take_ge; [reflexivity | rewrite length_drop; lia | rewrite length_drop; lia].
Qed.

(** [evalRule] in terms of the value of [allMet]. *)
Lemma evalRule_eq (sigs : list RuntimeSignal) (actions : list RuntimeAction)
    (nowMs : Z) (conds : list RuntimeCondition) (triggered : Z) (rule : RuntimeRule) :
  Engine.evalRule sigs actions nowMs conds triggered rule
  = match Engine.evalMask sigs nowMs (conditionMask rule)
            (seq 0 (Nat.min (length conds) 32)) conds with
    | Some (conds1, met) =>
        Some (conds1,
              if ruleFires rule met nowMs then bumpTriggered triggered else triggered,
              ruleAfter rule met nowMs,
              ruleOutcome actions rule met nowMs)
    | None => None
    end.
Proof.
  unfold Engine.evalRule.
  destruct (Engine.evalMask sigs nowMs (conditionMask rule)
              (seq 0 (Nat.min (length conds) 32)) conds) as [[conds1 met]|];
    [|reflexivity].
  cbn [mbind option_bind].
  unfold ruleOutcome, ruleAfter, ruleFires, noteState, bumpTriggered.
  destruct met; cbn [negb andb].
  - destruct (negb (eqb true (lastConditionState rule)));
      cbn [Engine.set_conditionState debounceMs cooldownMs lastConditionChangeMs
           lastTriggerMs actionStartIdx actionCount];
      match goal with |- context [?d <=? u32 ?x] => destruct (d <=? u32 x) end;
      cbn [negb orb andb]; try reflexivity;
      match goal with |- context [?d <=? u32 ?x] => destruct (d <=? u32 x) end;
      cbn [negb orb andb]; try reflexivity;
      rewrite actionSlice_clipped; reflexivity.
  - reflexivity.
Qed.

Lemma iter_bump_shift (k : nat) (t : Z) :
  Nat.iter k bumpTriggered (bumpTriggered t) = bumpTriggered (Nat.iter k bumpTriggered t).
Proof. induction k as [|k IH]; simpl; [reflexivity | rewrite IH; reflexivity]. Qed.

(** One pass over the rule table: it always completes, keeps the sizes of
    the tables, and treats rule [i] according to [ruleAfter] and
    [ruleOutcome] for the value [met] its condition loop produced. *)
Lemma evalRulesLoop_spec (sigs : list RuntimeSignal) (actions : list RuntimeAction)
    (nowMs : Z) (rules : list RuntimeRule) :
  forall (conds : list RuntimeCondition) (triggered : Z),
  exists conds' triggered' rules' os,
    Engine.evalRulesLoop sigs actions nowMs rules conds triggered
    = Some (conds', triggered', rules', os)
    /\ length conds' = length conds
    /\ length rules' = length rules
    /\ length os = length rules
    /\ triggered' = Nat.iter (countFired os) bumpTriggered triggered
    /\ forall (i : nat) (rule : RuntimeRule),
         rules !! i = Some rule ->
         exists met,
           rules' !! i = Some (ruleAfter rule met nowMs)
           /\ os !! i = Some (ruleOutcome actions rule met nowMs).
Proof.
  induction rules as [|rule rest IH]; intros conds triggered;
    cbn [Engine.evalRulesLoop].
  - exists conds, triggered, [], []. repeat split; try reflexivity.
    intros i rule H. discriminate.
  - rewrite evalRule_eq.
    destruct (evalMask_total sigs nowMs (conditionMask rule)
                (seq 0 (Nat.min (length conds) 32)) conds)
      as (conds1 & met & Hmask & Hlen1).
    { apply Forall_forall. intros c Hc. apply elem_of_seq in Hc. lia. }
    rewrite Hmask. cbn [mbind option_bind].
    destruct (IH conds1
                (if ruleFires rule met nowMs then bumpTriggered triggered else triggered))
      as (conds2 & triggered2 & rest' & os & Hloop & Hlen2 & Hlr & Hlo & Htrig & Hall).
    rewrite Hloop. cbn [mbind option_bind].
    exists conds2, triggered2, (ruleAfter rule met nowMs :: rest'),
      (ruleOutcome actions rule met nowMs :: os).
    split; [reflexivity|]. split; [congruence|].
    split; [simpl; congruence|]. split; [simpl; congruence|].
    split.
    + rewrite Htrig. unfold countFired, ruleOutcome.
      cbn [List.filter fired].
      destruct (ruleFires rule met nowMs); cbn [length Nat.iter]; [|reflexivity].
      apply iter_bump_shift.
    + intros [|i] r Hr.
      * injection Hr as <-. exists met. split; reflexivity.
      * apply Hall. exact Hr.
Qed.

(** C10.  For every state of the tables and every clock value,
    [evaluateRules] completes without reading outside a table and keeps the
    table sizes; a condition whose [signalIdx] is at or beyond the signal
    count evaluates to false (and no condition makes [evaluateCondition]
    read out of range); condition-mask bits at or beyond
    [min(condition count, 32)] do not influence the condition loop; and the
    executed action slice is [actions[start .. start+count)] clipped to the
    action table. *)
Theorem C10_evaluation_in_bounds (e : Engine.State) (nowMs : Z) :
  (exists e' os,
     Engine.evaluateRules e nowMs = Some (e', os)
     /\ length os = length (Engine.rules_ e)
     /\ length (Engine.rules_ e') = length (Engine.rules_ e)
     /\ length (Engine.conditions_ e') = length (Engine.conditions_ e)
     /\ Engine.signals_ e' = Engine.signals_ e
     /\ Engine.actions_ e' = Engine.actions_ e)
  /\ (forall cond : RuntimeCondition,
        (length (Engine.signals_ e) <= signalIdx cond)%nat ->
        Engine.evaluateCondition (Engine.signals_ e) cond nowMs = Some (cond, false))
  /\ (forall cond : RuntimeCondition,
        is_Some (Engine.evaluateCondition (Engine.signals_ e) cond nowMs))
  /\ (forall mask : Z,
        let n := Nat.min (length (Engine.conditions_ e)) 32 in
        Engine.evalMask (Engine.signals_ e) nowMs mask (seq 0 n) (Engine.conditions_ e)
        = Engine.evalMask (Engine.signals_ e) nowMs
            (Z.land mask (Z.ones (Z.of_nat n))) (seq 0 n) (Engine.conditions_ e))
  /\ (forall start count : nat,
        Engine.actionSlice (Engine.actions_ e) start count
        = Some (take count (drop start (Engine.actions_ e)))).
Proof.
  repeat split.
  - unfold Engine.evaluateRules.
    destruct (evalRulesLoop_spec (Engine.signals_ e) (Engine.actions_ e) nowMs
                (Engine.rules_ e) (Engine.conditions_ e) (Engine.rulesTriggered_ e))
      as (conds' & triggered' & rules' & os & Hloop & Hlc & Hlr & Hlo & _ & _).
    rewrite Hloop. cbn [mbind option_bind].
    eexists _, os. split; [reflexivity|]. repeat split; assumption.
  - intros cond H. apply evaluateCondition_out_of_range. exact H.
  - intros cond.
    destruct (evaluateCondition_total (Engine.signals_ e) cond nowMs) as (c' & r & H).
    rewrite H. eauto.
  - intros mask. cbv zeta. apply evalMask_ext.
    apply Forall_forall. intros c Hc. apply elem_of_seq in Hc.
    rewrite Z.land_spec, Z.ones_spec_low by lia. rewrite andb_true_r. reflexivity.
  - intros start count. apply actionSlice_clipped.
Qed.

(** ** Debounce and cooldown (C4) *)

Lemma updateRulesetSignal_fold_rules data nowMs (idxs : list nat) :
  forall sigs e,
  Engine.rules_ (Engine.set_signals e
                   (fold_left (Engine.updateRulesetSignal data nowMs) idxs sigs))
  = Engine.rules_ e.
Proof. reflexivity. Qed.

Lemma updateDebugSignal_rules data nowMs e idx :
  Engine.rules_ (Engine.updateDebugSignal data nowMs e idx) = Engine.rules_ e
  /\ Engine.actions_ (Engine.updateDebugSignal data nowMs e idx) = Engine.actions_ e.
Proof.
  unfold Engine.updateDebugSignal.
  destruct (Engine.debugSignals_ e !! idx); [|split; reflexivity].
  match goal with |- context [if ?c then _ else _] => destruct c end;
    split; reflexivity.
Qed.

Lemma updateDebugSignal_fold_rules data nowMs (idxs : list nat) :
  forall e,
  Engine.rules_ (fold_left (Engine.updateDebugSignal data nowMs) idxs e)
  = Engine.rules_ e
  /\ Engine.actions_ (fold_left (Engine.updateDebugSignal data nowMs) idxs e)
     = Engine.actions_ e.
Proof.
  induction idxs as [|idx idxs IH]; intros e; cbn [fold_left]; [split; reflexivity|].
  destruct (IH (Engine.updateDebugSignal data nowMs e idx)) as [H1 H2].
  destruct (updateDebugSignal_rules data nowMs e idx) as [H3 H4].
  split; congruence.
Qed.

(** CAN frames leave the rule and action tables alone. *)
Lemma processCanFrame_rules (e : Engine.State) (frame : CanFrame) (nowMs : Z) :
  Engine.rules_ (Engine.processCanFrame e frame nowMs) = Engine.rules_ e
  /\ Engine.actions_ (Engine.processCanFrame e frame nowMs) = Engine.actions_ e.
Proof.
  unfold Engine.processCanFrame. cbv zeta.
  set (e1 := match Engine.signalMap_ e !! frame_id frame with
             | Some idxs => _
             | None => e
             end).
  assert (H1 : Engine.rules_ e1 = Engine.rules_ e
               /\ Engine.actions_ e1 = Engine.actions_ e).
  { subst e1. destruct (Engine.signalMap_ e !! frame_id frame); split; reflexivity. }
  destruct H1 as [Hr Ha].
  destruct (Engine.debugMode_ e1); [|split; assumption].
  destruct (Engine.debugSignalMap_ e1 !! frame_id frame) as [idxs|]; [|split; assumption].
  destruct (updateDebugSignal_fold_rules (frame_data frame) nowMs idxs e1) as [H1 H2].
  split; congruence.
Qed.

(** One evaluation, seen from rule [i]. *)
Lemma evaluateRules_rule (e e1 : Engine.State) (nowMs : Z) (os : list Outcome)
    (i : nat) (rule : RuntimeRule) :
  Engine.evaluateRules e nowMs = Some (e1, os) ->
  Engine.rules_ e !! i = Some rule ->
  exists met,
    Engine.rules_ e1 !! i = Some (ruleAfter rule met nowMs)
    /\ os !! i = Some (ruleOutcome (Engine.actions_ e) rule met nowMs)
    /\ Engine.actions_ e1 = Engine.actions_ e
    /\ Engine.rulesTriggered_ e1
       = Nat.iter (countFired os) bumpTriggered (Engine.rulesTriggered_ e).
Proof.
  unfold Engine.evaluateRules. intros Hev Hrule.
  destruct (evalRulesLoop_spec (Engine.signals_ e) (Engine.actions_ e) nowMs
              (Engine.rules_ e) (Engine.conditions_ e) (Engine.rulesTriggered_ e))
    as (conds' & triggered' & rules' & os' & Hloop & _ & _ & _ & Htrig & Hall).
  rewrite Hloop in Hev. cbn [mbind option_bind] in Hev.
  injection Hev as <- <-.
  destruct (Hall i rule Hrule) as (met & Hr & Ho).
  exists met. repeat split; assumption.
Qed.

(** Static fields and runtime fields of a rule after one evaluation. *)
Lemma ruleAfter_static (rule : RuntimeRule) (met : bool) (nowMs : Z) :
  debounceMs (ruleAfter rule met nowMs) = debounceMs rule
  /\ cooldownMs (ruleAfter rule met nowMs) = cooldownMs rule
  /\ lastConditionState (ruleAfter rule met nowMs) = met.
Proof.
  unfold ruleAfter, noteState.
  destruct (ruleFires rule met nowMs), met,
    (lastConditionState rule) eqn:Hstate;
    cbn [eqb negb Engine.set_lastTrigger Engine.set_conditionState
         debounceMs cooldownMs lastConditionState];
    rewrite ?Hstate; repeat split; reflexivity.
Qed.

Lemma ruleAfter_lastTrigger (rule : RuntimeRule) (met : bool) (nowMs : Z) :
  lastTriggerMs (ruleAfter rule met nowMs)
  = if ruleFires rule met nowMs then nowMs else lastTriggerMs rule.
Proof.
  unfold ruleAfter, noteState.
  destruct (ruleFires rule met nowMs), (negb (eqb met (lastConditionState rule)));
    reflexivity.
Qed.

Lemma ruleAfter_lastChange (rule : RuntimeRule) (met : bool) (nowMs : Z) :
  lastConditionChangeMs (ruleAfter rule met nowMs)
  = if eqb met (lastConditionState rule)
    then lastConditionChangeMs rule else nowMs.
Proof.
  unfold ruleAfter, noteState.
  destruct (ruleFires rule met nowMs), (eqb met (lastConditionState rule));
    reflexivity.
Qed.

(** The two timing tests behind a firing. *)
Lemma ruleFires_inv (rule : RuntimeRule) (met : bool) (nowMs : Z) :
  ruleFires rule met nowMs = true ->
  met = true
  /\ debounceMs rule
     <= u32 (nowMs - (if eqb met (lastConditionState rule)
                      then lastConditionChangeMs rule else nowMs))
  /\ cooldownMs rule <= u32 (nowMs - lastTriggerMs rule).
Proof.
  unfold ruleFires, noteState. cbv zeta.
  destruct met; [|discriminate].
  destruct (eqb true (lastConditionState rule)); cbn [negb andb];
    cbn [Engine.set_conditionState debounceMs cooldownMs lastConditionChangeMs
         lastTriggerMs];
    intros H; apply andb_prop in H as [H1 H2];
    apply Z.leb_le in H1; apply Z.leb_le in H2; auto.
Qed.

Lemma u32_small (x : Z) : 0 <= x < 2 ^ 32 -> u32 x = x.
Proof. intros H. unfold u32. apply Z.mod_small. exact H. Qed.

Lemma firedAt_nil (i j : nat) (t : Z) : ~ firedAt [] i j t.
Proof. intros (os & o & acts & H & _). rewrite lookup_nil in H. discriminate. Qed.

Lemma firedAt_here (nowMs : Z) (os : list Outcome) log (i : nat) (t : Z) :
  firedAt ((nowMs, os) :: log) i 0 t ->
  t = nowMs /\ exists o acts, os !! i = Some o /\ fired o = Some acts.
Proof.
  intros (os' & o & acts & H & Ho & Hf). cbn in H. injection H as -> ->. eauto.
Qed.

Lemma firedAt_later (x : Z * list Outcome) log (i j : nat) (t : Z) :
  firedAt (x :: log) i (S j) t <-> firedAt log i j t.
Proof. unfold firedAt. cbn. tauto. Qed.

Lemma metAt_later (x : Z * list Outcome) log (i j : nat) (t : Z) :
  metAt (x :: log) i (S j) t <-> metAt log i j t.
Proof. unfold metAt. cbn. tauto. Qed.

(** The outcome recorded for a rule tells whether it fired and whether its
    conditions were met. *)
Lemma ruleOutcome_fired actions rule met nowMs (os : list Outcome) (i : nat) :
  os !! i = Some (ruleOutcome actions rule met nowMs) ->
  (exists o acts, os !! i = Some o /\ fired o = Some acts) ->
  ruleFires rule met nowMs = true.
Proof.
  intros Ho (o & acts & Ho' & Hf). rewrite Ho in Ho'. injection Ho' as <-.
  unfold ruleOutcome in Hf. cbn [fired] in Hf.
  destruct (ruleFires rule met nowMs); [reflexivity | discriminate].
Qed.

Lemma ruleOutcome_met actions rule nowMs (os : list Outcome) log (i : nat) :
  os !! i = Some (ruleOutcome actions rule true nowMs) ->
  metAt ((nowMs, os) :: log) i 0 nowMs.
Proof. intros Ho. exists os, (ruleOutcome actions rule true nowMs). auto. Qed.

(** Cooldown, for a run that starts in any state of the rule. *)
Lemma cooldown_gen (e e' : Engine.State) (log : list (Z * list Outcome)) :
  Run e log e' ->
  forall (i : nat) (rule : RuntimeRule) (from : Z),
  Engine.rules_ e !! i = Some rule ->
  0 <= from ->
  nondecreasing from (fst <$> log) ->
  (0 <= lastTriggerMs rule <= from ->
   forall j t, firedAt log i j t -> lastTriggerMs rule + cooldownMs rule <= t)
  /\ (forall j1 j2 t1 t2, (j1 < j2)%nat ->
        firedAt log i j1 t1 -> firedAt log i j2 t2 ->
        t1 + cooldownMs rule <= t2).
Proof.
  induction 1 as [e | e frame nowMs log e' Hrun IH | e nowMs e1 os log e' Hev Hrun IH];
    intros i rule from Hrule Hfrom Hclock.
  - split.
    + intros _ j t Hf. destruct (firedAt_nil _ _ _ Hf).
    + intros j1 j2 t1 t2 _ Hf. destruct (firedAt_nil _ _ _ Hf).
  - apply IH; try assumption.
    rewrite (proj1 (processCanFrame_rules e frame nowMs)). exact Hrule.
  - cbn in Hclock. destruct Hclock as [Hnow Hclock].
    destruct (evaluateRules_rule e e1 nowMs os i rule Hev Hrule)
      as (met & Hrule1 & Ho & _ & _).
    destruct (ruleAfter_static rule met nowMs) as (_ & Hcool & _).
    pose proof (ruleAfter_lastTrigger rule met nowMs) as Hlast.
    destruct (IH i _ nowMs Hrule1 ltac:(lia) Hclock) as [IH1 IH2].
    rewrite Hcool in IH1, IH2.
    split.
    + intros HL [|j] t Hf.
      * apply firedAt_here in Hf as [-> Hex].
        pose proof (ruleOutcome_fired _ _ _ _ _ _ Ho Hex) as Hfire.
        apply ruleFires_inv in Hfire as (_ & _ & Hc).
        rewrite u32_small in Hc by lia. lia.
      * apply firedAt_later in Hf.
        destruct (ruleFires rule met nowMs); rewrite Hlast in IH1.
        -- specialize (IH1 ltac:(lia) j t Hf). lia.
        -- apply (IH1 ltac:(lia) j t Hf).
    + intros [|j1] [|j2] t1 t2 Hlt Hf1 Hf2; try lia.
      * apply firedAt_here in Hf1 as [-> Hex].
        pose proof (ruleOutcome_fired _ _ _ _ _ _ Ho Hex) as Hfire.
        rewrite Hfire in Hlast. rewrite Hlast in IH1.
        apply firedAt_later in Hf2. apply (IH1 ltac:(lia) j2 t2 Hf2).
      * apply firedAt_later in Hf1. apply firedAt_later in Hf2.
        apply (IH2 j1 j2 t1 t2); [lia | assumption | assumption].
Qed.

(** Debounce, for a run that starts in any state of the rule: either the
    run of true evaluations that leads to a firing starts inside the log, or
    the rule was already in the true state when the log began. *)
Lemma debounce_gen (e e' : Engine.State) (log : list (Z * list Outcome)) :
  Run e log e' ->
  forall (i : nat) (rule : RuntimeRule) (from : Z),
  Engine.rules_ e !! i = Some rule ->
  0 <= from ->
  nondecreasing from (fst <$> log) ->
  (lastConditionState rule = true -> 0 <= lastConditionChangeMs rule <= from) ->
  forall j t, firedAt log i j t ->
    (exists k tk, (k <= j)%nat /\ metAt log i k tk /\ tk + debounceMs rule <= t
                  /\ forall m, (k <= m <= j)%nat -> exists tm, metAt log i m tm)
    \/ (lastConditionState rule = true
        /\ lastConditionChangeMs rule + debounceMs rule <= t
        /\ forall m, (m <= j)%nat -> exists tm, metAt log i m tm).
Proof.
  induction 1 as [e | e frame nowMs log e' Hrun IH | e nowMs e1 os log e' Hev Hrun IH];
    intros i rule from Hrule Hfrom Hclock Hstate j t Hf.
  - destruct (firedAt_nil _ _ _ Hf).
  - apply (IH i rule from); try assumption.
    rewrite (proj1 (processCanFrame_rules e frame nowMs)). exact Hrule.
  - cbn in Hclock. destruct Hclock as [Hnow Hclock].
    destruct (evaluateRules_rule e e1 nowMs os i rule Hev Hrule)
      as (met & Hrule1 & Ho & _ & _).
    destruct (ruleAfter_static rule met nowMs) as (Hdeb & _ & Hst1).
    pose proof (ruleAfter_lastChange rule met nowMs) as Hch1.
    destruct j as [|j].
    + apply firedAt_here in Hf as [-> Hex].
      pose proof (ruleOutcome_fired _ _ _ _ _ _ Ho Hex) as Hfire.
      apply ruleFires_inv in Hfire as (-> & Hd & _).
      pose proof (ruleOutcome_met _ _ _ _ log _ Ho) as Hmet.
      destruct (lastConditionState rule) eqn:HS; cbn [eqb] in Hd.
      * right. specialize (Hstate eq_refl). rewrite u32_small in Hd by lia.
        split; [reflexivity|]. split; [lia|].
        intros m Hm. replace m with 0%nat by lia. eauto.
      * left. rewrite Z.sub_diag in Hd. change (u32 0) with 0 in Hd.
        exists 0%nat, nowMs. split; [lia|]. split; [exact Hmet|]. split; [lia|].
        intros m Hm. replace m with 0%nat by lia. eauto.
    + apply firedAt_later in Hf.
      assert (Hpre : lastConditionState (ruleAfter rule met nowMs) = true ->
                     0 <= lastConditionChangeMs (ruleAfter rule met nowMs) <= nowMs).
      { rewrite Hst1, Hch1. intros ->.
        destruct (lastConditionState rule) eqn:HS; cbn [eqb]; [|lia].
        specialize (Hstate eq_refl). lia. }
      destruct (IH i _ nowMs Hrule1 ltac:(lia) Hclock Hpre j t Hf)
        as [(k & tk & Hk & Hmk & Htk & Hall) | (Hs & Hc & Hall)].
      * left. exists (S k), tk. rewrite Hdeb in Htk.
        split; [lia|]. split; [apply metAt_later; exact Hmk|]. split; [exact Htk|].
        intros [|m] Hm; [lia|].
        destruct (Hall m ltac:(lia)) as [tm Htm]. exists tm. apply metAt_later. exact Htm.
      * rewrite Hst1 in Hs. subst met. rewrite Hdeb, Hch1 in Hc.
        pose proof (ruleOutcome_met _ _ _ _ log _ Ho) as Hmet.
        assert (Hallm : forall m, (m <= S j)%nat ->
                          exists tm, metAt ((nowMs, os) :: log) i m tm).
        { intros [|m] Hm; [eauto|].
          destruct (Hall m ltac:(lia)) as [tm Htm]. exists tm.
          apply metAt_later. exact Htm. }
        destruct (lastConditionState rule) eqn:HS; cbn [eqb] in Hc.
        -- right. split; [reflexivity|]. split; [exact Hc|]. exact Hallm.
        -- left. exists 0%nat, nowMs. split; [lia|]. split; [exact Hmet|].
           split; [exact Hc|]. intros m Hm. apply Hallm. lia.
Qed.

Lemma countFired_pos (os : list Outcome) (i : nat) :
  (exists o acts, os !! i = Some o /\ fired o = Some acts) ->
  (1 <= countFired os)%nat.
Proof.
  intros (o & acts & Ho & Hf). unfold countFired.
  assert (Hin : In o (List.filter
                        (fun o => match fired o with Some _ => true | None => false end) os)).
  { apply List.filter_In. split.
    - apply list_elem_of_In. eapply list_elem_of_lookup_2. exact Ho.
    - rewrite Hf. reflexivity. }
  destruct (List.filter _ os); [destruct Hin | simpl; lia].
Qed.

(** C4.  Take any run of CAN frames and [evaluateRules] calls whose clock
    values are 32-bit and non-decreasing, and a rule [i] that starts in the
    state the parser gives it ([lastConditionState = false]), with
    [debounceMs = D] and [cooldownMs = C].
    Debounce: whenever the rule's actions execute at time [t], there is an
    earlier evaluation of the run, at a time [tk] with [tk + D <= t], from
    which on every evaluation up to the firing found the whole AND-group
    true.
    Cooldown: two executions at times [t1] and then [t2] satisfy
    [t1 + C <= t2].
    On firing, the rule's [lastTriggerMs] becomes the clock value and the
    trigger counter is incremented once for each rule that fired in that
    call. *)
Theorem C4_debounce_cooldown (e e' : Engine.State)
    (log : list (Z * list Outcome)) (i : nat) (rule : RuntimeRule) :
  Run e log e' ->
  Engine.rules_ e !! i = Some rule ->
  lastConditionState rule = false ->
  nondecreasing 0 (fst <$> log) ->
  (forall j t, firedAt log i j t ->
     exists k tk, (k <= j)%nat /\ metAt log i k tk
                  /\ tk + debounceMs rule <= t
                  /\ forall m, (k <= m <= j)%nat -> exists tm, metAt log i m tm)
  /\ (forall j1 j2 t1 t2, (j1 < j2)%nat ->
        firedAt log i j1 t1 -> firedAt log i j2 t2 ->
        t1 + cooldownMs rule <= t2)
  /\ (forall e0 nowMs e1 os r0,
        Engine.evaluateRules e0 nowMs = Some (e1, os) ->
        Engine.rules_ e0 !! i = Some r0 ->
        (exists o acts, os !! i = Some o /\ fired o = Some acts) ->
        exists r1,
          Engine.rules_ e1 !! i = Some r1
          /\ lastTriggerMs r1 = nowMs
          /\ (1 <= countFired os)%nat
          /\ Engine.getRulesTriggered e1
             = Nat.iter (countFired os) bumpTriggered (Engine.getRulesTriggered e0)).
Proof.
  intros Hrun Hrule Hfresh Hclock. split; [|split].
  - intros j t Hf.
    destruct (debounce_gen e e' log Hrun i rule 0 Hrule ltac:(lia) Hclock
                ltac:(congruence) j t Hf) as [H | (Hs & _)].
    + exact H.
    + congruence.
  - apply (cooldown_gen e e' log Hrun i rule 0 Hrule ltac:(lia) Hclock).
  - intros e0 nowMs e1 os r0 Hev Hr0 Hex.
    destruct (evaluateRules_rule e0 e1 nowMs os i r0 Hev Hr0)
      as (met & Hr1 & Ho & _ & Htrig).
    pose proof (ruleOutcome_fired _ _ _ _ _ _ Ho Hex) as Hfire.
    exists (ruleAfter r0 met nowMs). split; [exact Hr1|].
    split; [rewrite ruleAfter_lastTrigger, Hfire; reflexivity|].
    split; [exact (countFired_pos os i Hex)|]. exact Htrig.
Qed.

(** The ruleset [timed_rule] (debounce 100 ms, cooldown 500 ms): the signal
    becomes 1 before time 1000; evaluations at 1000, 1100, 1200 and 1600 fire
    the rule at 1100 and at 1600. *)
Lemma C4_debounce_cooldown_witness :
  let e0 := fst (Engine.loadRuleset (Fixtures.engine_with "log") Fixtures.timed_rule) in
  let e1 := Engine.processCanFrame e0 (Fixtures.frame_0x100 1) 900 in
  let r1 := evalAt e1 1000 in
  let r2 := evalAt (fst r1) 1100 in
  let r3 := evalAt (fst r2) 1200 in
  let r4 := evalAt (fst r3) 1600 in
  let log := [(1000, snd r1); (1100, snd r2); (1200, snd r3); (1600, snd r4)] in
  let rule := {| conditionMask := 1; actionStartIdx := 0; actionCount := 1;
                 debounceMs := 100; cooldownMs := 500; lastTriggerMs := 0;
                 lastConditionChangeMs := 0; lastConditionState := false |} in
  Run e0 log (fst r4)
  /\ Engine.rules_ e0 !! 0%nat = Some rule
  /\ nondecreasing 0 (fst <$> log)
  /\ firedAt log 0 1 1100
  /\ firedAt log 0 3 1600
  /\ 1100 + cooldownMs rule <= 1600
  /\ exists k tk, (k <= 1)%nat /\ metAt log 0 k tk /\ tk + debounceMs rule <= 1100.
Proof.
  cbv zeta.
  set (e0 := fst (Engine.loadRuleset (Fixtures.engine_with "log") Fixtures.timed_rule)).
  set (e1 := Engine.processCanFrame e0 (Fixtures.frame_0x100 1) 900).
  set (r1 := evalAt e1 1000). set (r2 := evalAt (fst r1) 1100).
  set (r3 := evalAt (fst r2) 1200). set (r4 := evalAt (fst r3) 1600).
  set (log := [(1000, snd r1); (1100, snd r2); (1200, snd r3); (1600, snd r4)]).
  set (rule := {| conditionMask := 1; actionStartIdx := 0; actionCount := 1;
                  debounceMs := 100; cooldownMs := 500; lastTriggerMs := 0;
                  lastConditionChangeMs := 0; lastConditionState := false |}).
  assert (Hrun : Run e0 log (fst r4)).
  { apply (run_frame e0 (Fixtures.frame_0x100 1) 900). fold e1.
    apply (run_eval e1 1000 (fst r1) (snd r1)); [vm_compute; reflexivity|].
    apply (run_eval (fst r1) 1100 (fst r2) (snd r2)); [vm_compute; reflexivity|].
    apply (run_eval (fst r2) 1200 (fst r3) (snd r3)); [vm_compute; reflexivity|].
    apply (run_eval (fst r3) 1600 (fst r4) (snd r4)); [vm_compute; reflexivity|].
    apply run_done. }
  assert (Hrule : Engine.rules_ e0 !! 0%nat = Some rule) by (vm_compute; reflexivity).
  assert (Hclock : nondecreasing 0 (fst <$> log)) by (cbn; lia).
  assert (Hf1 : firedAt log 0 1 1100).
  { exists (snd r2), (mkOutcome true (Some [mkAction "log" []])), [mkAction "log" []].
    repeat split; vm_compute; reflexivity. }
  assert (Hf2 : firedAt log 0 3 1600).
  { exists (snd r4), (mkOutcome true (Some [mkAction "log" []])), [mkAction "log" []].
    repeat split; vm_compute; reflexivity. }
  destruct (C4_debounce_cooldown e0 (fst r4) log 0 rule Hrun Hrule eq_refl Hclock)
    as (Hdeb & Hcool & _).
  split; [exact Hrun|]. split; [exact Hrule|]. split; [exact Hclock|].
  split; [exact Hf1|]. split; [exact Hf2|].
  split; [exact (Hcool 1%nat 3%nat 1100 1600 ltac:(lia) Hf1 Hf2)|].
  destruct (Hdeb 1%nat 1100 Hf1) as (k & tk & Hk & Hm & Ht & _).
  exists k, tk. auto.
Defined.

(** ** The debug dirty queue (C9) *)

Lemma DebugInv_same_debug (e e' : Engine.State) :
  Engine.debugSignals_ e' = Engine.debugSignals_ e ->
  Engine.debugDirtyFlags_ e' = Engine.debugDirtyFlags_ e ->
  Engine.debugDirtyQueue_ e' = Engine.debugDirtyQueue_ e ->
  Engine.debugQueueHead_ e' = Engine.debugQueueHead_ e ->
  DebugInv e -> DebugInv e'.
Proof.
  unfold DebugInv, Engine.pendingDirty. intros -> -> -> ->. tauto.
Qed.

Lemma elem_of_drop_snoc (q : list nat) (x idx : nat) (head : nat) :
  idx ∈ drop head (q ++ [x]) -> idx ∈ drop head q \/ idx = x.
Proof.
  rewrite drop_app. intros H. apply elem_of_app in H as [H|H]; [left; exact H|].
  right. apply list_elem_of_singleton. eapply (subseteq_drop _ [x]). exact H.
Qed.

Lemma NoDup_drop_snoc (q : list nat) (x head : nat) :
  NoDup (drop head q) -> x ∉ drop head q -> NoDup (drop head (q ++ [x])).
Proof.
  intros Hnd Hx. rewrite drop_app. apply NoDup_app. split; [exact Hnd|].
  split.
  - intros y Hy Hin. apply (subseteq_drop _ [x]) in Hin.
    apply list_elem_of_singleton in Hin. subst y. contradiction.
  - destruct (head - length q)%nat; cbn [drop]; [apply NoDup_singleton | rewrite drop_nil; constructor].
Qed.

(** The loop body of the overlay update keeps the invariant. *)
Lemma updateDebugSignal_inv (data : list Z) (nowMs : Z) (e : Engine.State) (idx : nat) :
  DebugInv e -> DebugInv (Engine.updateDebugSignal data nowMs e idx).
Proof.
  intros (Hlen & Hcap & Hnd & Hflag). unfold Engine.updateDebugSignal.
  destruct (Engine.debugSignals_ e !! idx) as [sig|] eqn:Hsig;
    [|repeat split; assumption].
  assert (Hidx : (idx < length (Engine.debugDirtyFlags_ e))%nat).
  { rewrite Hlen. eapply lookup_lt_Some. exact Hsig. }
  destruct (Engine.debugChanged (Engine.updateSignal sig data nowMs)
            && negb (default false (Engine.debugDirtyFlags_ e !! idx))
            && (length (Engine.debugDirtyQueue_ e) <? 64)%nat) eqn:Hpush.
  - apply andb_prop in Hpush as [Hpush Hroom].
    apply andb_prop in Hpush as [_ Hclean].
    apply Nat.ltb_lt in Hroom.
    unfold DebugInv, Engine.pendingDirty in *.
    cbn [Engine.set_debug Engine.debugSignals_ Engine.debugDirtyFlags_
         Engine.debugDirtyQueue_ Engine.debugQueueHead_].
    split; [rewrite !length_insert; exact Hlen|].
    split; [rewrite length_app; cbn; lia|].
    split.
    + apply NoDup_drop_snoc; [exact Hnd|].
      intros Hin. rewrite (Hflag idx Hin) in Hclean. discriminate.
    + intros j Hj. apply elem_of_drop_snoc in Hj as [Hj | ->].
      * destruct (decide (idx = j)) as [->|Hne].
        -- apply list_lookup_insert_eq. exact Hidx.
        -- rewrite list_lookup_insert_ne by exact Hne. apply Hflag. exact Hj.
      * apply list_lookup_insert_eq. exact Hidx.
  - unfold DebugInv, Engine.pendingDirty in *.
    cbn [Engine.set_debug Engine.debugSignals_ Engine.debugDirtyFlags_
         Engine.debugDirtyQueue_ Engine.debugQueueHead_].
    split; [rewrite length_insert; exact Hlen|]. repeat split; assumption.
Qed.

Lemma updateDebugSignal_fold_inv (data : list Z) (nowMs : Z) (idxs : list nat) :
  forall e, DebugInv e ->
  DebugInv (fold_left (Engine.updateDebugSignal data nowMs) idxs e).
Proof.
  induction idxs as [|idx idxs IH]; intros e He; cbn [fold_left]; [exact He|].
  apply IH. apply updateDebugSignal_inv. exact He.
Qed.

Lemma processCanFrame_inv (e : Engine.State) (frame : CanFrame) (nowMs : Z) :
  DebugInv e -> DebugInv (Engine.processCanFrame e frame nowMs).
Proof.
  intros He. unfold Engine.processCanFrame. cbv zeta.
  set (e1 := match Engine.signalMap_ e !! frame_id frame with
             | Some idxs => _
             | None => e
             end).
  assert (He1 : DebugInv e1).
  { subst e1. destruct (Engine.signalMap_ e !! frame_id frame); [|exact He].
    eapply DebugInv_same_debug; [..|exact He]; reflexivity. }
  destruct (Engine.debugMode_ e1); [|exact He1].
  destruct (Engine.debugSignalMap_ e1 !! frame_id frame); [|exact He1].
  apply updateDebugSignal_fold_inv. exact He1.
Qed.

Lemma popDirtyDebugSignal_inv (e : Engine.State) :
  DebugInv e -> DebugInv (fst (Engine.popDirtyDebugSignal e)).
Proof.
  intros (Hlen & Hcap & Hnd & Hflag). unfold Engine.popDirtyDebugSignal.
  destruct (Nat.leb_spec (length (Engine.debugDirtyQueue_ e)) (Engine.debugQueueHead_ e))
    as [Hdone|Hmore].
  - destruct (0 <? Engine.debugQueueHead_ e)%nat; cbn [fst];
      [|repeat split; assumption].
    unfold DebugInv, Engine.pendingDirty.
    cbn [Engine.set_debug Engine.debugSignals_ Engine.debugDirtyFlags_
         Engine.debugDirtyQueue_ Engine.debugQueueHead_].
    split; [exact Hlen|]. split; [cbn; lia|].
    split; [constructor|]. intros idx Hidx.
    cbn in Hidx. apply elem_of_nil in Hidx. destruct Hidx.
  - cbv zeta.
    destruct (lookup_lt_is_Some_2 (Engine.debugDirtyQueue_ e)
                (Engine.debugQueueHead_ e) Hmore) as [idx Hq].
    rewrite Hq. cbn [default from_option id].
    unfold Engine.pendingDirty in Hnd, Hflag.
    rewrite (drop_S _ _ _ Hq) in Hnd, Hflag.
    apply NoDup_cons in Hnd as [Hfresh Hnd].
    destruct (Engine.debugSignals_ e !! idx) as [sig|]; cbn [fst];
      unfold DebugInv, Engine.pendingDirty;
      cbn [Engine.set_debug Engine.debugSignals_ Engine.debugDirtyFlags_
           Engine.debugDirtyQueue_ Engine.debugQueueHead_].
    + split; [rewrite !length_insert; exact Hlen|]. split; [exact Hcap|].
      split; [exact Hnd|]. intros j Hj.
      rewrite list_lookup_insert_ne by (intros ->; contradiction).
      apply Hflag. apply elem_of_cons. right. exact Hj.
    + split; [exact Hlen|]. split; [exact Hcap|]. split; [exact Hnd|].
      intros j Hj. apply Hflag. apply elem_of_cons. right. exact Hj.
Qed.

Lemma loadDebugSignals_inv (e : Engine.State) (defs : list DebugDef) :
  DebugInv (fst (Engine.loadDebugSignals e defs)).
Proof.
  unfold Engine.loadDebugSignals, DebugInv, Engine.pendingDirty. cbv zeta.
  cbn [fst Engine.set_debug Engine.debugSignals_ Engine.debugDirtyFlags_
       Engine.debugDirtyQueue_ Engine.debugQueueHead_].
  split; [apply length_replicate|]. split; [cbn; lia|].
  split; [constructor|].
  intros idx Hidx. cbn in Hidx. apply elem_of_nil in Hidx. destruct Hidx.
Qed.

Lemma evaluateRules_debug (e e' : Engine.State) (nowMs : Z) (os : list Outcome) :
  Engine.evaluateRules e nowMs = Some (e', os) ->
  Engine.debugSignals_ e' = Engine.debugSignals_ e
  /\ Engine.debugDirtyFlags_ e' = Engine.debugDirtyFlags_ e
  /\ Engine.debugDirtyQueue_ e' = Engine.debugDirtyQueue_ e
  /\ Engine.debugQueueHead_ e' = Engine.debugQueueHead_ e.
Proof.
  unfold Engine.evaluateRules. intros H.
  destruct (Engine.evalRulesLoop _ _ _ _ _ _) as [[[[conds trig] rules] os']|];
    [|discriminate].
  cbn [mbind option_bind] in H. injection H as <- <-. repeat split; reflexivity.
Qed.

(** Every reachable state satisfies the queue invariant. *)
Lemma Reachable_DebugInv (e : Engine.State) : Reachable e -> DebugInv e.
Proof.
  induction 1 as [ | e id h _ IH | e data _ IH | e _ IH | e frame nowMs _ IH
                 | e nowMs e' os _ IH Hev | e defs _ IH | e _ IH
                 | e enabled _ IH | e _ IH ].
  - unfold DebugInv, Engine.pendingDirty. cbn.
    split; [reflexivity|]. split; [lia|]. split; [constructor|].
    intros idx Hidx. apply elem_of_nil in Hidx. destruct Hidx.
  - eapply DebugInv_same_debug; [..|exact IH]; reflexivity.
  - eapply DebugInv_same_debug; [..|exact IH];
      unfold Engine.loadRuleset;
      destruct (Protocol.parseRules data) as [err|t]; try reflexivity;
      destruct (Engine.firstUnknown _ _); reflexivity.
  - eapply DebugInv_same_debug; [..|exact IH]; reflexivity.
  - apply processCanFrame_inv. exact IH.
  - destruct (evaluateRules_debug _ _ _ _ Hev) as (H1 & H2 & H3 & H4).
    eapply DebugInv_same_debug; [..|exact IH]; assumption.
  - apply loadDebugSignals_inv.
  - unfold DebugInv, Engine.pendingDirty. cbn.
    split; [reflexivity|]. split; [lia|]. split; [constructor|].
    intros idx Hidx. apply elem_of_nil in Hidx. destruct Hidx.
  - eapply DebugInv_same_debug; [..|exact IH]; reflexivity.
  - apply popDirtyDebugSignal_inv. exact IH.
Qed.

Lemma decodeSignal_updateSignal (sig : RuntimeSignal) (data data' : list Z) (nowMs : Z) :
  decodeSignal (Engine.updateSignal sig data nowMs) data' = decodeSignal sig data'.
Proof. reflexivity. Qed.

(** A later update from the same payload keeps a signal "changed". *)
Lemma updateDebugSignal_changedFrom (data : list Z) (nowMs : Z)
    (e : Engine.State) (idx' idx : nat) :
  changedFrom data e idx ->
  changedFrom data (Engine.updateDebugSignal data nowMs e idx') idx.
Proof.
  intros (sig & Hsig & Hval & Hch). unfold Engine.updateDebugSignal.
  destruct (Engine.debugSignals_ e !! idx') as [sig'|] eqn:Hsig';
    [|exists sig; auto].
  assert (Hgoal : exists s,
            <[idx' := Engine.updateSignal sig' data nowMs]> (Engine.debugSignals_ e)
              !! idx = Some s
            /\ value s = decodeSignal s data /\ Engine.debugChanged s = true).
  { destruct (decide (idx' = idx)) as [->|Hne].
    - rewrite Hsig in Hsig'. injection Hsig' as <-.
      exists (Engine.updateSignal sig data nowMs).
      split; [apply list_lookup_insert_eq; eapply lookup_lt_Some; exact Hsig|].
      split; [reflexivity|].
      unfold Engine.debugChanged in *. cbn [Engine.updateSignal value lastDebugValue].
      rewrite <- Hval. exact Hch.
    - exists sig. rewrite list_lookup_insert_ne by exact Hne. auto. }
  unfold changedFrom.
  match goal with |- context [if ?c then _ else _] => destruct c end;
    cbn [Engine.set_debug Engine.debugSignals_]; exact Hgoal.
Qed.

Lemma updateDebugSignal_fold_changedFrom (data : list Z) (nowMs : Z)
    (idxs : list nat) (idx : nat) :
  forall e, changedFrom data e idx ->
  changedFrom data (fold_left (Engine.updateDebugSignal data nowMs) idxs e) idx.
Proof.
  induction idxs as [|idx' idxs IH]; intros e He; cbn [fold_left]; [exact He|].
  apply IH. apply updateDebugSignal_changedFrom. exact He.
Qed.

(** One loop iteration enqueues only the signal it has just found changed. *)
Lemma updateDebugSignal_enqueue (data : list Z) (nowMs : Z)
    (e : Engine.State) (idx' idx : nat) :
  idx ∈ Engine.pendingDirty (Engine.updateDebugSignal data nowMs e idx') ->
  idx ∈ Engine.pendingDirty e
  \/ changedFrom data (Engine.updateDebugSignal data nowMs e idx') idx.
Proof.
  unfold Engine.updateDebugSignal.
  destruct (Engine.debugSignals_ e !! idx') as [sig'|] eqn:Hsig'; [|auto].
  destruct (Engine.debugChanged (Engine.updateSignal sig' data nowMs)
            && negb (default false (Engine.debugDirtyFlags_ e !! idx'))
            && (length (Engine.debugDirtyQueue_ e) <? 64)%nat) eqn:Hpush.
  - unfold Engine.pendingDirty, changedFrom.
    cbn [Engine.set_debug Engine.debugSignals_ Engine.debugDirtyQueue_
         Engine.debugQueueHead_].
    intros Hin. apply elem_of_drop_snoc in Hin as [Hin | ->]; [left; exact Hin|].
    right. exists (Engine.updateSignal sig' data nowMs).
    split; [apply list_lookup_insert_eq; eapply lookup_lt_Some; exact Hsig'|].
    split; [reflexivity|].
    apply andb_prop in Hpush as [Hpush _]. apply andb_prop in Hpush as [Hch _].
    exact Hch.
  - unfold Engine.pendingDirty.
    cbn [Engine.set_debug Engine.debugDirtyQueue_ Engine.debugQueueHead_]. auto.
Qed.

Lemma updateDebugSignal_fold_enqueue (data : list Z) (nowMs : Z)
    (idxs : list nat) (idx : nat) :
  forall e,
  idx ∈ Engine.pendingDirty (fold_left (Engine.updateDebugSignal data nowMs) idxs e) ->
  idx ∈ Engine.pendingDirty e
  \/ changedFrom data (fold_left (Engine.updateDebugSignal data nowMs) idxs e) idx.
Proof.
  induction idxs as [|idx' idxs IH]; intros e Hin; cbn [fold_left] in *; [auto|].
  destruct (IH _ Hin) as [Hmid | Hfinal]; [|right; exact Hfinal].
  destruct (updateDebugSignal_enqueue data nowMs e idx' idx Hmid) as [Hold | Hnew].
  - left. exact Hold.
  - right. apply updateDebugSignal_fold_changedFrom. exact Hnew.
Qed.

(** CAN-frame processing enqueues an index only for a signal whose newly
    decoded value differs from its last-reported value by more than 0.01. *)
Lemma processCanFrame_enqueue (e : Engine.State) (frame : CanFrame) (nowMs : Z)
    (idx : nat) :
  idx ∈ Engine.pendingDirty (Engine.processCanFrame e frame nowMs) ->
  idx ∉ Engine.pendingDirty e ->
  changedFrom (frame_data frame) (Engine.processCanFrame e frame nowMs) idx.
Proof.
  unfold Engine.processCanFrame. cbv zeta.
  set (e1 := match Engine.signalMap_ e !! frame_id frame with
             | Some idxs => _
             | None => e
             end).
  assert (Hp : Engine.pendingDirty e1 = Engine.pendingDirty e).
  { subst e1. destruct (Engine.signalMap_ e !! frame_id frame); reflexivity. }
  destruct (Engine.debugMode_ e1); [|rewrite Hp; contradiction].
  destruct (Engine.debugSignalMap_ e1 !! frame_id frame) as [idxs|];
    [|rewrite Hp; contradiction].
  intros Hin Hnew.
  destruct (updateDebugSignal_fold_enqueue _ _ _ _ _ Hin) as [Hold|Hch];
    [rewrite Hp in Hold; contradiction | exact Hch].
Qed.

(** A successful pop takes the first pending entry and records the
    signal's value as its last-reported value. *)
Lemma popDirtyDebugSignal_success (e e' : Engine.State) (out : RuntimeSignal) :
  Engine.popDirtyDebugSignal e = (e', Some out) ->
  exists idx,
    Engine.pendingDirty e = idx :: Engine.pendingDirty e'
    /\ Engine.debugSignals_ e !! idx = Some out
    /\ exists sig',
         Engine.debugSignals_ e' !! idx = Some sig'
         /\ lastDebugValue sig' = value out
         /\ value sig' = value out.
Proof.
  unfold Engine.popDirtyDebugSignal. cbv zeta.
  destruct (Nat.leb_spec (length (Engine.debugDirtyQueue_ e)) (Engine.debugQueueHead_ e))
    as [Hdone|Hmore].
  { destruct (0 <? Engine.debugQueueHead_ e)%nat; intros H; discriminate H. }
  destruct (lookup_lt_is_Some_2 (Engine.debugDirtyQueue_ e)
              (Engine.debugQueueHead_ e) Hmore) as [idx Hq].
  rewrite Hq. cbn [default from_option id].
  destruct (Engine.debugSignals_ e !! idx) as [sig|] eqn:Hsig; intros H;
    [|discriminate H].
  injection H as <- <-. exists idx.
  split; [unfold Engine.pendingDirty; cbn [Engine.set_debug Engine.debugDirtyQueue_
            Engine.debugQueueHead_]; apply drop_S; exact Hq|].
  split; [exact Hsig|].
  exists (Engine.set_lastDebugValue sig (value sig)).
  cbn [Engine.set_debug Engine.debugSignals_].
  split; [apply list_lookup_insert_eq; eapply lookup_lt_Some; exact Hsig|].
  split; reflexivity.
Qed.

(** The backing vector keeps popped entries until it is exhausted, so an
    index that was popped and enqueued again occurs twice in the vector but
    once among the pending entries. *)
Example dirty_vector_keeps_popped_entries :
  let e0 := fst (Engine.loadDebugSignals Engine.init [def_byte0]) in
  let e1 := Engine.processCanFrame e0 (Fixtures.frame_0x100 5) 10 in
  let e2 := fst (Engine.popDirtyDebugSignal e1) in
  let e3 := Engine.processCanFrame e2 (Fixtures.frame_0x100 9) 20 in
  Engine.debugDirtyQueue_ e3 = [0; 0]%nat
  /\ Engine.debugQueueHead_ e3 = 1%nat
  /\ Engine.pendingDirty e3 = [0%nat].
Proof. cbv zeta. repeat split; vm_compute; reflexivity. Qed.

(** C9.  In every reachable state the dirty queue holds at most 64 entries
    (the backing vector never exceeds 64 slots) and no overlay index is
    pending twice; CAN-frame processing makes an index pending only when the
    signal's newly decoded value differs from its last-reported value by more
    than 0.01; and a successful [popDirtyDebugSignal] removes exactly the
    first pending entry and sets that signal's last-reported value to its
    current value. *)
Theorem C9_dirty_queue (e : Engine.State) :
  Reachable e ->
  ((length (Engine.pendingDirty e) <= 64)%nat
   /\ (length (Engine.debugDirtyQueue_ e) <= 64)%nat
   /\ NoDup (Engine.pendingDirty e))
  /\ (forall frame nowMs idx,
        idx ∈ Engine.pendingDirty (Engine.processCanFrame e frame nowMs) ->
        idx ∉ Engine.pendingDirty e ->
        changedFrom (frame_data frame) (Engine.processCanFrame e frame nowMs) idx)
  /\ (forall e' out,
        Engine.popDirtyDebugSignal e = (e', Some out) ->
        exists idx,
          Engine.pendingDirty e = idx :: Engine.pendingDirty e'
          /\ Engine.debugSignals_ e !! idx = Some out
          /\ exists sig',
               Engine.debugSignals_ e' !! idx = Some sig'
               /\ lastDebugValue sig' = value out
               /\ value sig' = value out).
Proof.
  intros Hreach. destruct (Reachable_DebugInv e Hreach) as (_ & Hcap & Hnd & _).
  split; [|split].
  - split; [|split; assumption].
    unfold Engine.pendingDirty. rewrite length_drop. lia.
  - intros frame nowMs idx. apply processCanFrame_enqueue.
  - intros e' out. apply popDirtyDebugSignal_success.
Qed.

(** An overlay on byte 0 of CAN id 0x100 that has seen the byte 5: the
    index 0 is pending, once, and a pop reports the signal. *)
Lemma C9_dirty_queue_witness :
  let e := Engine.processCanFrame
             (fst (Engine.loadDebugSignals Engine.init [def_byte0]))
             (Fixtures.frame_0x100 5) 10 in
  Reachable e
  /\ Engine.pendingDirty e = [0%nat]
  /\ (length (Engine.pendingDirty e) <= 64)%nat
  /\ NoDup (Engine.pendingDirty e)
  /\ (value <$> snd (Engine.popDirtyDebugSignal e)) = Some (F32.of_bits 0x40a00000).
Proof.
  cbv zeta.
  assert (Hr : Reachable (Engine.processCanFrame
                            (fst (Engine.loadDebugSignals Engine.init [def_byte0]))
                            (Fixtures.frame_0x100 5) 10)).
  { apply reach_processCanFrame. apply reach_loadDebugSignals. apply reach_init. }
  destruct (C9_dirty_queue _ Hr) as ((Hlen & _ & Hnd) & _ & _).
  split; [exact Hr|]. split; [vm_compute; reflexivity|].
  split; [exact Hlen|]. split; [exact Hnd|]. vm_compute. reflexivity.
Defined.

(** * Further properties of the code *)

(** ** Range of the extracted field and sign extension *)

Lemma bound_of_high_bits (x n : Z) :
  0 <= n -> 0 <= x -> (forall j, n <= j -> Z.testbit x j = false) -> x < 2 ^ n.
Proof.
  intros Hn Hx Hbits.
  assert (Heq : x = x mod 2 ^ n).
  { apply Z.bits_inj'. intros j Hj.
    destruct (Z.lt_ge_cases j n).
    - rewrite Z.mod_pow2_bits_low by lia. reflexivity.
    - rewrite Z.mod_pow2_bits_high by lia. apply Hbits. lia. }
  rewrite Heq. apply Z.mod_pos_bound. apply Z.pow_pos_nonneg; lia.
Qed.

Lemma le_fold_nonneg (data : list Z) (start : Z) (idxs : list nat) :
  forall r, 0 <= r -> 0 <= fold_left (extractBits_le_step data start) idxs r.
Proof.
  induction idxs as [|i idxs IH]; intros r Hr; cbn [fold_left]; [exact Hr|].
  apply IH. unfold extractBits_le_step. cbv zeta.
  destruct (u8 (u16 (start + Z.of_nat i) / 8) <? 8); [|exact Hr].
  apply Z.lor_nonneg. split; [exact Hr|]. unfold u64. apply Z.mod_pos_bound. lia.
Qed.

Lemma extractBits_lt_pow2 (data : list Z) (start len : Z) (be : bool) :
  0 <= start -> 0 <= len ->
  0 <= extractBits data start len be < 2 ^ len.
Proof.
  intros Hs Hlen. unfold extractBits.
  assert (Hpow : 0 < 2 ^ len) by (apply Z.pow_pos_nonneg; lia).
  destruct (Z.eqb_spec len 0) as [->|Hne]; [cbn; lia|].
  destruct (Z.ltb_spec 64 len); cbn [orb]; [lia|].
  destruct be; cbn [negb].
  - destruct (be_fold_bits data start (Z.to_nat len) Hs ltac:(lia)) as [Hr _].
    cbv zeta in Hr. rewrite Z2Nat.id in Hr by lia.
    split; [lia|]. eapply Z.lt_le_trans; [apply Hr|].
    apply Z.pow_le_mono_r; [lia|]. unfold be_hi, be_lo. lia.
  - assert (Hnn : 0 <= fold_left (extractBits_le_step data start)
                          (seq 0 (Z.to_nat len)) 0)
      by (apply le_fold_nonneg; lia).
    split; [exact Hnn|]. apply bound_of_high_bits; [lia | exact Hnn |].
    intros j Hj. rewrite le_fold_testbit by lia.
    rewrite Z.testbit_0_l. cbn [orb].
    replace (j <? Z.of_nat (0 + Z.to_nat len)) with false by zbool.
    rewrite andb_false_r. reflexivity.
Qed.

(** X1.  The extracted raw value fits in [len] bits, for either byte order,
    every payload and every start bit; a length of 0 or above 64 gives 0. *)
Theorem extractBits_range (data : list Z) (start len : Z) (be : bool) :
  0 <= start -> 0 <= len ->
  0 <= extractBits data start len be < 2 ^ len
  /\ (len = 0 \/ 64 < len -> extractBits data start len be = 0).
Proof.
  intros Hs Hlen. split; [apply extractBits_lt_pow2; assumption|].
  intros H. unfold extractBits.
  replace ((len =? 0) || (64 <? len)) with true; [reflexivity|].
  destruct H; zbool.
Qed.

Lemma extractBits_range_witness :
  0 <= 60 /\ 0 <= 12
  /\ 0 <= extractBits [255; 255; 255; 255; 255; 255; 255; 255] 60 12 false < 2 ^ 12.
Proof.
  split; [lia|]. split; [lia|].
  apply (proj1 (extractBits_range [255; 255; 255; 255; 255; 255; 255; 255] 60 12 false
                  ltac:(lia) ltac:(lia))).
Defined.

Lemma testbit_top (raw len : Z) :
  1 <= len -> 0 <= raw < 2 ^ len ->
  Z.testbit raw (len - 1) = (2 ^ (len - 1) <=? raw).
Proof.
  intros Hlen Hraw.
  assert (Hsplit : 2 ^ len = 2 * 2 ^ (len - 1)).
  { replace len with (1 + (len - 1)) at 1 by lia. rewrite Z.pow_add_r by lia.
    reflexivity. }
  assert (Hpos : 0 < 2 ^ (len - 1)) by (apply Z.pow_pos_nonneg; lia).
  rewrite Z.testbit_eqb by lia.
  destruct (Z.leb_spec (2 ^ (len - 1)) raw) as [Hge|Hlt].
  - assert (Hq : raw / 2 ^ (len - 1) = 1).
    { symmetry. apply (Z.div_unique raw (2 ^ (len - 1)) 1 (raw - 2 ^ (len - 1))); lia. }
    rewrite Hq. reflexivity.
  - rewrite Z.div_small by lia. reflexivity.
Qed.

Lemma sign_fill (raw len : Z) :
  1 <= len < 64 -> 0 <= raw < 2 ^ len ->
  Z.lor raw (u64 (Z.shiftl (2 ^ 64 - 1) len)) = raw + 2 ^ 64 - 2 ^ len.
Proof.
  intros Hlen Hraw.
  assert (Hp : 2 ^ 64 = 2 ^ (64 - len) * 2 ^ len).
  { rewrite <- Z.pow_add_r by lia. f_equal. lia. }
  assert (Hpl : 0 < 2 ^ len) by (apply Z.pow_pos_nonneg; lia).
  assert (Hph : 1 <= 2 ^ (64 - len)).
  { pose proof (Z.pow_pos_nonneg 2 (64 - len)). lia. }
  assert (Hfill : u64 (Z.shiftl (2 ^ 64 - 1) len) = 2 ^ 64 - 2 ^ len).
  { unfold u64. rewrite Z.shiftl_mul_pow2 by lia.
    symmetry. apply (Z.mod_unique _ _ (2 ^ len - 1)).
    - left. lia.
    - nia. }
  rewrite Hfill.
  assert (Hdisj : Z.land raw (2 ^ 64 - 2 ^ len) = 0).
  { apply Z.bits_inj'. intros j Hj. rewrite Z.land_spec, Z.bits_0.
    destruct (Z.lt_ge_cases j len) as [Hlo|Hhi].
    - replace (2 ^ 64 - 2 ^ len) with ((2 ^ (64 - len) - 1) * 2 ^ len) by nia.
      rewrite Z.mul_pow2_bits_low by lia. apply andb_false_r.
    - replace (Z.testbit raw j) with false; [reflexivity|].
      symmetry. apply Z.bits_above_log2; [lia|].
      destruct (Z.eq_dec raw 0) as [->|Hnz]; [cbn; lia|].
      apply Z.log2_lt_pow2; [lia|].
      eapply Z.lt_le_trans; [apply Hraw|]. apply Z.pow_le_mono_r; lia. }
  rewrite <- Z.lxor_lor by exact Hdisj.
  rewrite <- Z.add_nocarry_lxor by exact Hdisj. lia.
Qed.

(** X2.  A signed signal is decoded from the two's complement reading of its
    [len] extracted bits: the raw field is sign-extended to 64 bits, so the
    number that is scaled is [raw - 2^len] when the top bit of the field is
    set and [raw] otherwise, always within [-2^(len-1), 2^(len-1)). *)
Theorem decodeSignal_signed (sig : RuntimeSignal) (data : list Z) :
  isSigned sig = true ->
  1 <= bitLength sig <= 64 ->
  0 <= startBit sig ->
  let raw := extractBits data (startBit sig) (bitLength sig) (bigEndian sig) in
  let v := twosComplement (bitLength sig) raw in
  decodeSignal sig data = F32.add (F32.mul (F32.of_Z v) (factor sig)) (offset sig)
  /\ - 2 ^ (bitLength sig - 1) <= v < 2 ^ (bitLength sig - 1)
  /\ (v < 0 <-> Z.testbit raw (bitLength sig - 1) = true).
Proof.
  intros Hsigned Hlen Hstart. cbv zeta.
  pose proof (extractBits_lt_pow2 data (startBit sig) (bitLength sig) (bigEndian sig)
                Hstart ltac:(lia)) as Hraw.
  unfold decodeSignal. rewrite Hsigned. cbv zeta.
  set (raw := extractBits data (startBit sig) (bitLength sig) (bigEndian sig)) in *.
  set (len := bitLength sig) in *.
  assert (Hsplit : 2 ^ len = 2 * 2 ^ (len - 1)).
  { replace len with (1 + (len - 1)) at 1 by lia. rewrite Z.pow_add_r by lia.
    reflexivity. }
  assert (Hpos : 0 < 2 ^ (len - 1)) by (apply Z.pow_pos_nonneg; lia).
  assert (Hle : 2 ^ len <= 2 ^ 64) by (apply Z.pow_le_mono_r; lia).
  pose proof (testbit_top raw len ltac:(lia) Hraw) as Htop.
  assert (Hv : - 2 ^ (len - 1) <= twosComplement len raw < 2 ^ (len - 1)
               /\ (twosComplement len raw < 0 <-> Z.testbit raw (len - 1) = true)).
  { unfold twosComplement. rewrite Htop.
    destruct (Z.leb_spec (2 ^ (len - 1)) raw); split; try lia;
      split; intros; try lia; try reflexivity; discriminate. }
  split; [|exact Hv].
  f_equal. f_equal. f_equal.
  unfold twosComplement.
  destruct (Z.ltb_spec len 64) as [Hlt|Hge].
  - replace (0 <? len) with true by zbool. cbn [andb].
    destruct (Z.testbit raw (len - 1)) eqn:Hbit.
    + rewrite sign_fill by lia. unfold s64, u64.
      rewrite Z.mod_small by lia.
      assert (Hhalf : 2 ^ len <= 2 ^ 63) by (apply Z.pow_le_mono_r; lia).
      replace (2 ^ 63 <=? raw + 2 ^ 64 - 2 ^ len) with true by zbool. lia.
    + symmetry in Htop. apply Z.leb_gt in Htop.
      assert (Hhalf : 2 ^ (len - 1) <= 2 ^ 63) by (apply Z.pow_le_mono_r; lia).
      unfold s64, u64. rewrite Z.mod_small by lia.
      replace (2 ^ 63 <=? raw) with false by zbool. reflexivity.
  - assert (Hlen64 : len = 64) by lia.
    replace (len <? 64) with false by zbool. rewrite andb_false_r.
    assert (Hr64 : raw < 2 ^ 64) by (eapply Z.lt_le_trans; [apply Hraw | exact Hle]).
    rewrite Htop. rewrite Hlen64. change (64 - 1) with 63.
    unfold s64, u64. rewrite Z.mod_small by lia.
    destruct (2 ^ 63 <=? raw); reflexivity.
Qed.

Lemma decodeSignal_signed_witness :
  let sig := {| canId := 0x100; startBit := 0; bitLength := 8; bigEndian := false;
                isSigned := true; factor := F32.of_bits 0x3f800000;
                offset := F32.zero; value := F32.zero; lastValue := F32.zero;
                lastDebugValue := F32.cm999999_9; lastUpdateMs := 0;
                everSet := false |} in
  isSigned sig = true /\ 1 <= bitLength sig <= 64 /\ 0 <= startBit sig
  /\ twosComplement 8 (extractBits [254; 0; 0; 0; 0; 0; 0; 0] 0 8 false) = -2
  /\ decodeSignal sig [254; 0; 0; 0; 0; 0; 0; 0]
     = F32.add (F32.mul (F32.of_Z (-2)) (factor sig)) (offset sig).
Proof.
  cbv zeta. split; [reflexivity|]. split; [cbn; lia|]. split; [cbn; lia|].
  split; [vm_compute; reflexivity|].
  exact (proj1 (decodeSignal_signed
                  {| canId := 0x100; startBit := 0; bitLength := 8; bigEndian := false;
                     isSigned := true; factor := F32.of_bits 0x3f800000;
                     offset := F32.zero; value := F32.zero; lastValue := F32.zero;
                     lastDebugValue := F32.cm999999_9; lastUpdateMs := 0;
                     everSet := false |}
                  [254; 0; 0; 0; 0; 0; 0; 0] eq_refl ltac:(cbn; lia) ltac:(cbn; lia))).
Defined.

(** ** Routing of a CAN frame to the signals on its id *)

Lemma pushIndex_fold (key : Z) (sigs : list RuntimeSignal) :
  forall (f : nat -> RuntimeSignal -> nat * RuntimeSignal) (a : nat)
         (m : gmap Z (list nat)),
  (forall i sig, f i sig = ((a + i)%nat, sig)) ->
  default [] (fold_left (fun m '(i, sig) => Engine.pushIndex m (canId sig) i)
                (imap f sigs) m !! key)
  = default [] (m !! key) ++ indicesFrom key a sigs.
Proof.
  induction sigs as [|sig rest IH]; intros f a m Hf; cbn [imap fold_left indicesFrom].
  - rewrite app_nil_r. reflexivity.
  - rewrite Hf, Nat.add_0_r.
    rewrite (IH (f ∘ S) (S a)).
    2:{ intros i s. unfold compose. rewrite Hf. f_equal. lia. }
    unfold Engine.pushIndex.
    destruct (Z.eqb_spec (canId sig) key) as [->|Hne].
    + rewrite lookup_insert_eq. cbn [default from_option id].
      rewrite <- app_assoc. reflexivity.
    + rewrite lookup_insert_ne by exact Hne. reflexivity.
Qed.

Lemma buildSignalMap_lookup (sigs : list RuntimeSignal) (key : Z) :
  default [] (Engine.buildSignalMap sigs !! key) = indicesFrom key 0 sigs.
Proof.
  unfold Engine.buildSignalMap.
  rewrite (pushIndex_fold key sigs _ 0%nat ∅) by reflexivity.
  rewrite lookup_empty. reflexivity.
Qed.

Lemma indicesFrom_ext (key : Z) (sigs sigs' : list RuntimeSignal) :
  canId <$> sigs = canId <$> sigs' ->
  forall a, indicesFrom key a sigs = indicesFrom key a sigs'.
Proof.
  revert sigs'. induction sigs as [|s rest IH]; intros [|s' rest'] H a;
    try discriminate; [reflexivity|].
  cbn [fmap list_fmap] in H. injection H as Hid Hrest.
  cbn [indicesFrom]. rewrite Hid, (IH _ Hrest). reflexivity.
Qed.

Lemma decodeMatching_canId (frame : CanFrame) (now : Z) (sigs : list RuntimeSignal) :
  canId <$> decodeMatching frame now sigs = canId <$> sigs.
Proof.
  unfold decodeMatching. rewrite <- list_fmap_compose. apply list_fmap_ext.
  intros i sig _. unfold compose.
  destruct (canId sig =? frame_id frame); reflexivity.
Qed.

(** The loop over the indices filed under the frame's id decodes exactly
    the signals that carry this id. *)
Lemma updateRulesetSignal_fold (frame : CanFrame) (now : Z)
    (rest : list RuntimeSignal) :
  forall pre : list RuntimeSignal,
  fold_left (Engine.updateRulesetSignal (frame_data frame) now)
            (indicesFrom (frame_id frame) (length pre) rest) (pre ++ rest)
  = pre ++ decodeMatching frame now rest.
Proof.
  induction rest as [|sig rest IH]; intros pre; [reflexivity|].
  cbn [indicesFrom]. unfold decodeMatching. cbn [fmap list_fmap].
  fold (decodeMatching frame now rest).
  destruct (canId sig =? frame_id frame).
  - cbn [fold_left]. unfold Engine.updateRulesetSignal at 2.
    rewrite list_lookup_middle by reflexivity.
    replace (length pre) with (length pre + 0)%nat at 2 by lia.
    rewrite insert_app_r. cbn [list_insert].
    specialize (IH (pre ++ [Engine.updateSignal sig (frame_data frame) now])).
    rewrite length_app in IH. cbn [length] in IH.
    replace (length pre + 1)%nat with (S (length pre)) in IH by lia.
    rewrite <- !app_assoc in IH. exact IH.
  - specialize (IH (pre ++ [sig])).
    rewrite length_app in IH. cbn [length] in IH.
    replace (length pre + 1)%nat with (S (length pre)) in IH by lia.
    rewrite <- !app_assoc in IH. exact IH.
Qed.

Lemma updateDebugSignal_signals (data : list Z) (now : Z) (e : Engine.State)
    (idx : nat) :
  Engine.debugSignals_ (Engine.updateDebugSignal data now e idx)
  = Engine.updateRulesetSignal data now (Engine.debugSignals_ e) idx
  /\ Engine.signals_ (Engine.updateDebugSignal data now e idx) = Engine.signals_ e
  /\ Engine.signalMap_ (Engine.updateDebugSignal data now e idx) = Engine.signalMap_ e
  /\ Engine.debugSignalMap_ (Engine.updateDebugSignal data now e idx)
     = Engine.debugSignalMap_ e.
Proof.
  unfold Engine.updateDebugSignal, Engine.updateRulesetSignal.
  destruct (Engine.debugSignals_ e !! idx) as [sig|]; [|auto].
  cbv zeta.
  match goal with |- context [if ?c then _ else _] => destruct c end;
    repeat split; reflexivity.
Qed.

Lemma updateDebugSignal_fold_signals (data : list Z) (now : Z) (idxs : list nat) :
  forall e : Engine.State,
  Engine.debugSignals_ (fold_left (Engine.updateDebugSignal data now) idxs e)
  = fold_left (Engine.updateRulesetSignal data now) idxs (Engine.debugSignals_ e)
  /\ Engine.signals_ (fold_left (Engine.updateDebugSignal data now) idxs e)
     = Engine.signals_ e
  /\ Engine.signalMap_ (fold_left (Engine.updateDebugSignal data now) idxs e)
     = Engine.signalMap_ e
  /\ Engine.debugSignalMap_ (fold_left (Engine.updateDebugSignal data now) idxs e)
     = Engine.debugSignalMap_ e.
Proof.
  induction idxs as [|idx idxs IH]; intros e; cbn [fold_left]; [auto|].
  destruct (IH (Engine.updateDebugSignal data now e idx)) as (H1 & H2 & H3 & H4).
  destruct (updateDebugSignal_signals data now e idx) as (G1 & G2 & G3 & G4).
  rewrite H1, H2, H3, H4, G1, G2, G3, G4. auto.
Qed.

Lemma processCanFrame_signals (e : Engine.State) (frame : CanFrame) (now : Z) :
  MapInv e ->
  Engine.signals_ (Engine.processCanFrame e frame now)
  = decodeMatching frame now (Engine.signals_ e)
  /\ Engine.debugSignals_ (Engine.processCanFrame e frame now)
     = (if Engine.debugMode_ e then decodeMatching frame now (Engine.debugSignals_ e)
        else Engine.debugSignals_ e)
  /\ Engine.signalMap_ (Engine.processCanFrame e frame now) = Engine.signalMap_ e
  /\ Engine.debugSignalMap_ (Engine.processCanFrame e frame now)
     = Engine.debugSignalMap_ e.
Proof.
  intros [Hmap Hdmap].
  pose proof (updateRulesetSignal_fold frame now (Engine.signals_ e) []) as Hsig.
  pose proof (updateRulesetSignal_fold frame now (Engine.debugSignals_ e) []) as Hdbg.
  cbn [length app] in Hsig, Hdbg.
  rewrite <- Hmap in Hsig. rewrite <- Hdmap in Hdbg.
  unfold Engine.processCanFrame.
  set (e1 := match Engine.signalMap_ e !! frame_id frame with
             | Some idxs => _ | None => e end).
  assert (H1 : Engine.signals_ e1 = decodeMatching frame now (Engine.signals_ e)
               /\ Engine.debugSignals_ e1 = Engine.debugSignals_ e
               /\ Engine.signalMap_ e1 = Engine.signalMap_ e
               /\ Engine.debugSignalMap_ e1 = Engine.debugSignalMap_ e
               /\ Engine.debugMode_ e1 = Engine.debugMode_ e).
  { subst e1. destruct (Engine.signalMap_ e !! frame_id frame) as [idxs|];
      cbn [default from_option id] in Hsig; cbn [fold_left] in Hsig;
      rewrite <- Hsig; repeat split; reflexivity. }
  clearbody e1. destruct H1 as (S1 & S2 & S3 & S4 & S5).
  cbv zeta. rewrite S5. destruct (Engine.debugMode_ e).
  - rewrite <- S4, <- S2 in Hdbg.
    destruct (Engine.debugSignalMap_ e1 !! frame_id frame) as [idxs|];
      cbn [default from_option id] in Hdbg.
    + destruct (updateDebugSignal_fold_signals (frame_data frame) now idxs e1)
        as (H1 & H2 & H3 & H4).
      rewrite H1, H2, H3, H4, Hdbg, S1, S2, S3, S4. auto.
    + cbn [fold_left] in Hdbg. rewrite <- S2, <- Hdbg. auto.
  - auto.
Qed.

Lemma MapInv_same (e e' : Engine.State) :
  canId <$> Engine.signals_ e' = canId <$> Engine.signals_ e ->
  Engine.signalMap_ e' = Engine.signalMap_ e ->
  canId <$> Engine.debugSignals_ e' = canId <$> Engine.debugSignals_ e ->
  Engine.debugSignalMap_ e' = Engine.debugSignalMap_ e ->
  MapInv e -> MapInv e'.
Proof.
  intros H1 H2 H3 H4 [Hm Hd]. split; intros key.
  - rewrite H2, Hm. symmetry. apply indicesFrom_ext. exact H1.
  - rewrite H4, Hd. symmetry. apply indicesFrom_ext. exact H3.
Qed.

Lemma Reachable_MapInv (e : Engine.State) : Reachable e -> MapInv e.
Proof.
  induction 1 as [ | e id h _ IH | e data _ IH | e _ IH | e frame nowMs _ IH
                 | e nowMs e' os _ IH Hev | e defs _ IH | e _ IH
                 | e enabled _ IH | e _ IH ].
  - split; intros key; reflexivity.
  - revert IH. apply MapInv_same; reflexivity.
  - unfold Engine.loadRuleset.
    destruct (Protocol.parseRules data) as [err|t]; [exact IH|].
    destruct (Engine.firstUnknown _ _).
    + revert IH. apply MapInv_same; reflexivity.
    + destruct IH as [_ Hd]. split; intros key; cbn.
      * apply buildSignalMap_lookup.
      * apply Hd.
  - destruct IH as [_ Hd]. split; intros key; [reflexivity | apply Hd].
  - destruct (processCanFrame_signals e frame nowMs IH) as (H1 & H2 & H3 & H4).
    revert IH. apply MapInv_same; try assumption.
    + rewrite H1. apply decodeMatching_canId.
    + rewrite H2. destruct (Engine.debugMode_ e); [|reflexivity].
      apply decodeMatching_canId.
  - unfold Engine.evaluateRules in Hev.
    destruct (Engine.evalRulesLoop _ _ _ _ _ _) as [[[[conds trig] rules] os']|];
      [|discriminate].
    cbn in Hev. injection Hev as <- _.
    revert IH. apply MapInv_same; reflexivity.
  - destruct IH as [Hm _]. split; intros key; cbn.
    + apply Hm.
    + apply buildSignalMap_lookup.
  - destruct IH as [Hm _]. split; intros key; [apply Hm | reflexivity].
  - revert IH. apply MapInv_same; reflexivity.
  - revert IH. apply MapInv_same; try reflexivity;
      unfold Engine.popDirtyDebugSignal;
      repeat match goal with
             | |- context [if ?c then _ else _] => destruct c
             end; try reflexivity;
      destruct (Engine.debugSignals_ e !! _) as [sig|] eqn:Hsig; try reflexivity.
    cbn. rewrite list_fmap_insert. cbn.
    apply list_insert_id. rewrite list_lookup_fmap, Hsig. reflexivity.
Qed.

(** X3.  In every reachable state a CAN frame is decoded into exactly the
    ruleset signals that carry the frame's id, each of them once, and no
    other signal changes; with debug mode on, the same holds for the overlay
    signals, and with debug mode off the overlay signals are untouched. *)
Theorem processCanFrame_routes (e : Engine.State) (frame : CanFrame) (now : Z) :
  Reachable e ->
  Engine.signals_ (Engine.processCanFrame e frame now)
  = decodeMatching frame now (Engine.signals_ e)
  /\ Engine.debugSignals_ (Engine.processCanFrame e frame now)
     = (if Engine.debugMode_ e then decodeMatching frame now (Engine.debugSignals_ e)
        else Engine.debugSignals_ e).
Proof.
  intros Hreach.
  destruct (processCanFrame_signals e frame now (Reachable_MapInv e Hreach))
    as (H1 & H2 & _).
  split; assumption.
Qed.

Lemma processCanFrame_routes_witness :
  let e := fst (Engine.loadRuleset Engine.init Fixtures.shared_can_id) in
  length (Engine.signals_ e) = 2%nat
  /\ Engine.signals_ (Engine.processCanFrame e (Fixtures.frame_0x100 5) 7)
     = decodeMatching (Fixtures.frame_0x100 5) 7 (Engine.signals_ e).
Proof.
  cbv zeta. split; [vm_compute; reflexivity|].
  apply (processCanFrame_routes
           (fst (Engine.loadRuleset Engine.init Fixtures.shared_can_id))
           (Fixtures.frame_0x100 5) 7).
  apply reach_loadRuleset. apply reach_init.
Defined.

(** ** What a successful parse guarantees *)

Lemma rd8_range (data : list Z) (off : Z) : 0 <= rd8 data off < 2 ^ 8.
Proof. unfold rd8. pose proof (byteAt_range data off). lia. Qed.

Lemma rd16_range (data : list Z) (off : Z) : 0 <= rd16 data off < 2 ^ 16.
Proof.
  unfold rd16.
  pose proof (byteAt_range data off). pose proof (byteAt_range data (off + 1)). lia.
Qed.

Lemma rd32_range (data : list Z) (off : Z) : 0 <= rd32 data off < 2 ^ 32.
Proof.
  unfold rd32.
  pose proof (byteAt_range data off). pose proof (byteAt_range data (off + 1)).
  pose proof (byteAt_range data (off + 2)). pose proof (byteAt_range data (off + 3)).
  lia.
Qed.

(** A successful parse passed every check of the header and ran the four
    table loops to their end. *)
Lemma parseRules_inr (data : list Z) (t : Protocol.Tables) :
  Protocol.parseRules data = inr t ->
  let hdr := Protocol.readHeader data in
  let len := Z.of_nat (length data) in
  let off0 := Protocol.firstOffset hdr in
  let off1 := off0 + Protocol.hdr_signalCount hdr * Protocol.sizeof_WBPSignal in
  let off2 := off1 + Protocol.hdr_conditionCount hdr * Protocol.sizeof_WBPCondition in
  let off3 := off2 + Protocol.hdr_actionCount hdr * Protocol.sizeof_WBPAction in
  let off4 := off3 + Protocol.hdr_actionParamCount hdr * Protocol.sizeof_WBPActionParam in
  (Protocol.sizeof_WBPRulesHeader <= Protocol.hdr_totalSize hdr <= len
   /\ Protocol.hdr_magic hdr = WBP_MAGIC_RULES
   /\ Protocol.hdr_version hdr = WBP_VERSION
   /\ Protocol.bodyCrc data hdr = Protocol.hdr_crc32 hdr
   /\ Protocol.expectedSize hdr <= Protocol.hdr_stringTableOffset hdr
      < Protocol.hdr_totalSize hdr)
  /\ forP (Protocol.parseSignal data off0)
          (seq 0 (Z.to_nat (Protocol.hdr_signalCount hdr)))
     = inr (Protocol.outSignals t)
  /\ forP (Protocol.parseCondition data hdr off1)
          (seq 0 (Z.to_nat (Protocol.hdr_conditionCount hdr)))
     = inr (Protocol.outConditions t)
  /\ forP (Protocol.parseAction data hdr off2 off3
             (Protocol.hdr_stringTableOffset hdr)
             (Protocol.hdr_totalSize hdr - Protocol.hdr_stringTableOffset hdr))
          (seq 0 (Z.to_nat (Protocol.hdr_actionCount hdr)))
     = inr (Protocol.outActions t)
  /\ forP (Protocol.parseRule data hdr off4)
          (seq 0 (Z.to_nat (Protocol.hdr_ruleCount hdr)))
     = inr (Protocol.outRules t).
Proof.
  unfold Protocol.parseRules. cbv zeta. intros H.
  repeat match type of H with
         | (if ?c then _ else inl _) = _ =>
             let E := fresh "E" in destruct c eqn:E; [|discriminate H]
         end.
  unfold bindP in H.
  repeat match type of H with
         | match ?m with inl _ => _ | inr _ => _ end = _ =>
             let E := fresh "E" in destruct m eqn:E; [discriminate H|]
         end.
  injection H as <-.
  cbn [Protocol.outSignals Protocol.outConditions Protocol.outActions
       Protocol.outRules].
  repeat match goal with
         | H : negb _ = true |- _ => apply negb_true_iff in H
         | H : (_ || _) = false |- _ => apply orb_false_iff in H as [? ?]
         end.
  unfold WBP_VERSION, WBP_MIN_VERSION in *.
  repeat split; try reflexivity; lia.
Qed.

Lemma maskOutOfRange_false (mask condCount : Z) (c : nat) :
  0 <= mask < 2 ^ 32 ->
  Protocol.maskOutOfRange mask condCount = false ->
  Z.testbit mask (Z.of_nat c) = true -> Z.of_nat c < condCount.
Proof.
  intros Hmask Hout Hbit.
  destruct (Nat.lt_ge_cases c 32) as [Hlt|Hge].
  - destruct (Z.ltb_spec (Z.of_nat c) condCount) as [|Hle]; [assumption|].
    exfalso. apply not_true_iff_false in Hout. apply Hout.
    unfold Protocol.maskOutOfRange. apply existsb_exists. exists c. split.
    + apply in_seq. lia.
    + rewrite Hbit. cbn [andb]. apply Z.leb_le. exact Hle.
  - exfalso.
    assert (Hz : Z.testbit mask (Z.of_nat c) = false).
    { destruct (Z.eq_dec mask 0) as [->|Hnz]; [apply Z.bits_0|].
      apply Z.bits_above_log2; [lia|].
      apply Z.lt_le_trans with 32; [|lia].
      apply Z.log2_lt_pow2; lia. }
    congruence.
Qed.

Lemma parseRule_wf (data : list Z) (hdr : Protocol.WBPRulesHeader) (base i : Z)
    (r : RuntimeRule) :
  Protocol.parseRule data hdr base i = inr r ->
  Z.of_nat (actionStartIdx r) + Z.of_nat (actionCount r) <= Protocol.hdr_actionCount hdr
  /\ (forall c : nat, Z.testbit (conditionMask r) (Z.of_nat c) = true ->
                      Z.of_nat c < Protocol.hdr_conditionCount hdr)
  /\ 0 <= debounceMs r <= 2550 /\ 0 <= cooldownMs r <= 2550.
Proof.
  unfold Protocol.parseRule. cbv zeta. intros H.
  destruct (negb (Protocol.maskOutOfRange _ _)) eqn:Hmask; [|discriminate H].
  destruct (_ <=? _) eqn:Hrange; [|discriminate H].
  injection H as <-.
  cbn [actionStartIdx actionCount conditionMask debounceMs cooldownMs].
  apply negb_true_iff in Hmask. apply Z.leb_le in Hrange.
  set (p := base + i * Protocol.sizeof_WBPRule) in *.
  pose proof (rd8_range data (p + 6)). pose proof (rd8_range data (p + 7)).
  pose proof (rd8_range data (p + 8)). pose proof (rd8_range data (p + 9)).
  split; [lia|]. split.
  - intros c. apply maskOutOfRange_false; [apply rd32_range | exact Hmask].
  - unfold u16. rewrite !Z.mod_small by lia. lia.
Qed.

Lemma parseCondition_wf (data : list Z) (hdr : Protocol.WBPRulesHeader) (base i : Z)
    (c : RuntimeCondition) :
  Protocol.parseCondition data hdr base i = inr c ->
  Z.of_nat (signalIdx c) < Protocol.hdr_signalCount hdr.
Proof.
  unfold Protocol.parseCondition. cbv zeta. intros H.
  destruct (_ <? _) eqn:Hidx; [|discriminate H].
  apply Z.ltb_lt in Hidx.
  pose proof (rd8_range data (base + i * Protocol.sizeof_WBPCondition)) as Hr.
  assert (Hplain : forall c0 : RuntimeCondition,
            (inr c0 : Parse RuntimeCondition) = inr c ->
            signalIdx c0
            = Z.to_nat (rd8 data (base + i * Protocol.sizeof_WBPCondition)) ->
            Z.of_nat (signalIdx c) < Protocol.hdr_signalCount hdr).
  { intros c0 Hc H0. injection Hc as <-. rewrite H0. lia. }
  destruct (Operation_of_code _) as [op|]; [|discriminate H].
  destruct op;
    lazymatch type of H with
    | (if _ then _ else _) = _ => idtac
    | _ => exact (Hplain _ H eq_refl)
    end.
  destruct (negb _); [|discriminate H].
  exact (Hplain _ H eq_refl).
Qed.

Lemma parseAction_wf (data : list Z) (hdr : Protocol.WBPRulesHeader)
    (actionBase paramBase tableOff tableLen i : Z) (a : RuntimeAction) :
  Protocol.parseAction data hdr actionBase paramBase tableOff tableLen i = inr a ->
  capabilityId a <> EmptyString
  /\ Z.of_nat (length (params a)) = rd8 data (actionBase + i * Protocol.sizeof_WBPAction + 2).
Proof.
  unfold Protocol.parseAction. cbv zeta. intros H.
  destruct (negb (String.eqb _ _)) eqn:Hcap; [|discriminate H].
  destruct (_ <=? _); [|discriminate H].
  unfold bindP in H.
  destruct (forP _ _) as [err|ps] eqn:Hps; [discriminate H|].
  injection H as <-. cbn [capabilityId params].
  apply negb_true_iff, String.eqb_neq in Hcap.
  split; [exact Hcap|].
  destruct (forP_lookup _ _ _ _ Hps) as [Hlen _]. rewrite Hlen.
  pose proof (rd8_range data (actionBase + i * Protocol.sizeof_WBPAction + 2)). lia.
Qed.

Lemma forP_Forall {A : Type} (body : Z -> Parse A) (P : A -> Prop) (n : nat)
    (l : list A) :
  forP body (seq 0 n) = inr l ->
  (forall (i : Z) (x : A), body i = inr x -> P x) ->
  Forall P l.
Proof.
  intros H Hall. destruct (forP_lookup body n 0 l H) as [_ Hl].
  apply Forall_lookup. intros i x Hx. apply (Hall _ _ (Hl i x Hx)).
Qed.

Lemma parseRules_sizes (data : list Z) (t : Protocol.Tables) :
  Protocol.parseRules data = inr t ->
  let hdr := Protocol.readHeader data in
  Z.of_nat (length (Protocol.outSignals t)) = Protocol.hdr_signalCount hdr
  /\ Z.of_nat (length (Protocol.outConditions t)) = Protocol.hdr_conditionCount hdr
  /\ Z.of_nat (length (Protocol.outActions t)) = Protocol.hdr_actionCount hdr
  /\ Z.of_nat (length (Protocol.outRules t)) = Protocol.hdr_ruleCount hdr.
Proof.
  intros H. cbv zeta.
  destruct (parseRules_inr data t H) as (_ & Hs & Hc & Ha & Hr). cbv zeta in *.
  set (hdr := Protocol.readHeader data) in *.
  assert (R8 : 0 <= Protocol.hdr_signalCount hdr < 2 ^ 8) by apply rd8_range.
  assert (R9 : 0 <= Protocol.hdr_conditionCount hdr < 2 ^ 8) by apply rd8_range.
  assert (R10 : 0 <= Protocol.hdr_actionCount hdr < 2 ^ 8) by apply rd8_range.
  assert (R11 : 0 <= Protocol.hdr_ruleCount hdr < 2 ^ 8) by apply rd8_range.
  destruct (forP_lookup _ _ _ _ Hs) as [Ls _].
  destruct (forP_lookup _ _ _ _ Hc) as [Lc _].
  destruct (forP_lookup _ _ _ _ Ha) as [La _].
  destruct (forP_lookup _ _ _ _ Hr) as [Lr _].
  lia.
Qed.

Lemma parseRules_WellFormed (data : list Z) (t : Protocol.Tables) :
  Protocol.parseRules data = inr t ->
  WellFormed (Protocol.outSignals t) (Protocol.outConditions t)
    (Protocol.outActions t) (Protocol.outRules t).
Proof.
  intros H.
  destruct (parseRules_sizes data t H) as (Ls & Lc & La & Lr).
  destruct (parseRules_inr data t H) as (_ & Hs & Hc & Ha & Hr). cbv zeta in *.
  split; [|split].
  - eapply forP_Forall; [exact Hc|]. intros i c Hi.
    apply parseCondition_wf in Hi. lia.
  - eapply forP_Forall; [exact Ha|]. intros i a Hi.
    apply parseAction_wf in Hi. tauto.
  - eapply forP_Forall; [exact Hr|]. intros i r Hi.
    apply parseRule_wf in Hi.
    destruct Hi as (H1 & H2 & H3 & H4).
    split; [lia|]. split; [|split; assumption].
    intros c Hbit. specialize (H2 c Hbit). lia.
Qed.

(** X4.  The tables of a successful parse have the sizes the header
    declares and are well-formed: every condition names an existing signal,
    every set bit of a rule's mask names an existing condition, every
    rule's action range lies inside the action table, debounce and cooldown
    are at most 2550 ms, and no capability id is empty. *)
Theorem parseRules_wellformed (data : list Z) (t : Protocol.Tables) :
  Protocol.parseRules data = inr t ->
  let hdr := Protocol.readHeader data in
  (Z.of_nat (length (Protocol.outSignals t)) = Protocol.hdr_signalCount hdr
   /\ Z.of_nat (length (Protocol.outConditions t)) = Protocol.hdr_conditionCount hdr
   /\ Z.of_nat (length (Protocol.outActions t)) = Protocol.hdr_actionCount hdr
   /\ Z.of_nat (length (Protocol.outRules t)) = Protocol.hdr_ruleCount hdr)
  /\ WellFormed (Protocol.outSignals t) (Protocol.outConditions t)
       (Protocol.outActions t) (Protocol.outRules t).
Proof.
  intros Hparse. cbv zeta. split.
  - exact (parseRules_sizes data t Hparse).
  - exact (parseRules_WellFormed data t Hparse).
Qed.

Lemma parseRules_wellformed_witness :
  exists t, Protocol.parseRules Fixtures.timed_rule = inr t
            /\ length (Protocol.outRules t) = 1%nat
            /\ WellFormed (Protocol.outSignals t) (Protocol.outConditions t)
                 (Protocol.outActions t) (Protocol.outRules t).
Proof.
  destruct (Protocol.parseRules Fixtures.timed_rule) as [err|t] eqn:Hparse;
    [vm_compute in Hparse; discriminate Hparse|].
  exists t. split; [reflexivity|].
  pose proof (parseRules_wellformed Fixtures.timed_rule t Hparse) as [[_ [_ [_ Hn]]] Hwf].
  split; [|exact Hwf].
  apply Nat2Z.inj. rewrite Hn. vm_compute. reflexivity.
Defined.

(** ** The tables in use are those of the retained binary *)

Lemma fmap_eq_lookup {A B : Type} (f : A -> B) (l l' : list A) :
  f <$> l = f <$> l' ->
  forall (i : nat) (x : A), l !! i = Some x ->
  exists x', l' !! i = Some x' /\ f x = f x'.
Proof.
  intros H i x Hx.
  assert (Hf : (f <$> l') !! i = Some (f x)).
  { rewrite <- H, list_lookup_fmap, Hx. reflexivity. }
  rewrite list_lookup_fmap in Hf.
  destruct (l' !! i) as [x'|]; [|discriminate].
  injection Hf as Hf. eauto.
Qed.

Lemma fmap_eq_length {A B : Type} (f : A -> B) (l l' : list A) :
  f <$> l = f <$> l' -> length l = length l'.
Proof. intros H. rewrite <- (length_fmap f l), H. apply length_fmap. Qed.

(** Well-formedness only looks at the fields that come from the binary. *)
Lemma WellFormed_defs (sigs sigs' : list RuntimeSignal)
    (conds conds' : list RuntimeCondition) (acts : list RuntimeAction)
    (rules rules' : list RuntimeRule) :
  signalDef <$> sigs = signalDef <$> sigs' ->
  conditionDef <$> conds = conditionDef <$> conds' ->
  ruleDef <$> rules = ruleDef <$> rules' ->
  WellFormed sigs' conds' acts rules' -> WellFormed sigs conds acts rules.
Proof.
  intros Hs Hc Hr (Wc & Wa & Wr).
  pose proof (fmap_eq_length _ _ _ Hs) as Ls.
  pose proof (fmap_eq_length _ _ _ Hc) as Lc.
  split; [|split; [exact Wa|]].
  - apply Forall_lookup. intros i c Hi.
    destruct (fmap_eq_lookup _ _ _ Hc i c Hi) as (c' & Hi' & Hdef).
    pose proof (proj1 (Forall_lookup _ _) Wc i c' Hi') as Hidx. cbv beta in Hidx.
    unfold conditionDef in Hdef. injection Hdef as -> _ _ _ _. lia.
  - apply Forall_lookup. intros i r Hi.
    destruct (fmap_eq_lookup _ _ _ Hr i r Hi) as (r' & Hi' & Hdef).
    pose proof (proj1 (Forall_lookup _ _) Wr i r' Hi') as Hwf. cbv beta in Hwf.
    unfold ruleDef in Hdef. injection Hdef as -> -> -> -> ->.
    rewrite Lc. exact Hwf.
Qed.

Lemma updateSignal_def (sig : RuntimeSignal) (data : list Z) (now : Z) :
  signalDef (Engine.updateSignal sig data now) = signalDef sig.
Proof. reflexivity. Qed.

Lemma decodeMatching_def (frame : CanFrame) (now : Z) (sigs : list RuntimeSignal) :
  signalDef <$> decodeMatching frame now sigs = signalDef <$> sigs.
Proof.
  unfold decodeMatching. rewrite <- list_fmap_compose. apply list_fmap_ext.
  intros i sig _. unfold compose.
  destruct (canId sig =? frame_id frame); reflexivity.
Qed.

Lemma evaluateCondition_def (sigs : list RuntimeSignal) (cond cond' : RuntimeCondition)
    (nowMs : Z) (r : bool) :
  Engine.evaluateCondition sigs cond nowMs = Some (cond', r) ->
  conditionDef cond' = conditionDef cond.
Proof.
  unfold Engine.evaluateCondition. intros H.
  destruct (length sigs <=? signalIdx cond)%nat; [injection H as <- _; reflexivity|].
  destruct (sigs !! signalIdx cond) as [sig|]; [|discriminate H].
  cbn [mbind option_bind] in H.
  destruct (negb (everSet sig)); [injection H as <- _; reflexivity|].
  destruct (operation cond) eqn:Hop; try (injection H as <- _; reflexivity).
  destruct (F32.ltb F32.EPSILON (F32.abs (value sig)));
    [destruct (negb (holdActive cond))|]; injection H as <- _; reflexivity.
Qed.

Lemma evalMask_def (sigs : list RuntimeSignal) (nowMs mask : Z) (cs : list nat) :
  forall (conds conds' : list RuntimeCondition) (met : bool),
  Engine.evalMask sigs nowMs mask cs conds = Some (conds', met) ->
  conditionDef <$> conds' = conditionDef <$> conds.
Proof.
  induction cs as [|c cs IH]; intros conds conds' met H; cbn [Engine.evalMask] in H.
  - injection H as <- _. reflexivity.
  - destruct (Z.testbit mask (Z.of_nat c)); [|exact (IH _ _ _ H)].
    destruct (conds !! c) as [cond|] eqn:Hc; [|discriminate H].
    cbn [mbind option_bind] in H.
    destruct (Engine.evaluateCondition sigs cond nowMs) as [[cond' ok]|] eqn:Hev;
      [|discriminate H].
    cbn [mbind option_bind] in H.
    assert (Hins : conditionDef <$> <[c := cond']> conds = conditionDef <$> conds).
    { rewrite list_fmap_insert. apply list_insert_id.
      rewrite list_lookup_fmap, Hc. cbn. f_equal.
      symmetry. exact (evaluateCondition_def _ _ _ _ _ Hev). }
    destruct ok.
    + rewrite (IH _ _ _ H). exact Hins.
    + injection H as <- _. exact Hins.
Qed.

Lemma ruleAfter_def (rule : RuntimeRule) (met : bool) (nowMs : Z) :
  ruleDef (ruleAfter rule met nowMs) = ruleDef rule.
Proof.
  unfold ruleAfter, noteState.
  destruct (ruleFires rule met nowMs), (negb (eqb met (lastConditionState rule)));
    reflexivity.
Qed.

Lemma evalRulesLoop_def (sigs : list RuntimeSignal) (actions : list RuntimeAction)
    (nowMs : Z) (rules : list RuntimeRule) :
  forall (conds : list RuntimeCondition) (triggered : Z) conds' triggered' rules' os,
  Engine.evalRulesLoop sigs actions nowMs rules conds triggered
  = Some (conds', triggered', rules', os) ->
  conditionDef <$> conds' = conditionDef <$> conds
  /\ ruleDef <$> rules' = ruleDef <$> rules.
Proof.
  induction rules as [|rule rest IH]; intros conds triggered conds' triggered' rules' os H;
    cbn [Engine.evalRulesLoop] in H.
  - injection H as <- _ <- _. split; reflexivity.
  - rewrite evalRule_eq in H.
    destruct (Engine.evalMask sigs nowMs (conditionMask rule) _ conds)
      as [[conds1 met]|] eqn:Hmask; [|discriminate H].
    cbn [mbind option_bind] in H.
    destruct (Engine.evalRulesLoop sigs actions nowMs rest conds1 _)
      as [[[[conds2 triggered2] rest'] os']|] eqn:Hloop; [|discriminate H].
    cbn [mbind option_bind] in H. injection H as <- _ <- _.
    destruct (IH _ _ _ _ _ _ Hloop) as [Hc Hr].
    split.
    + rewrite Hc. exact (evalMask_def _ _ _ _ _ _ _ Hmask).
    + cbn [fmap list_fmap]. rewrite ruleAfter_def. f_equal. exact Hr.
Qed.

Lemma sameTables_refl (e : Engine.State) : sameTables e e.
Proof. repeat split; reflexivity. Qed.

Lemma sameTables_trans (e1 e2 e3 : Engine.State) :
  sameTables e1 e2 -> sameTables e2 e3 -> sameTables e1 e3.
Proof.
  intros (A1 & A2 & A3 & A4 & A5 & A6 & A7 & A8) (B1 & B2 & B3 & B4 & B5 & B6 & B7 & B8).
  repeat split; congruence.
Qed.

Lemma updateDebugSignal_sameTables (data : list Z) (now : Z) (e : Engine.State)
    (idx : nat) :
  sameTables e (Engine.updateDebugSignal data now e idx).
Proof.
  unfold Engine.updateDebugSignal.
  destruct (Engine.debugSignals_ e !! idx); [|apply sameTables_refl].
  cbv zeta.
  match goal with |- context [if ?c then _ else _] => destruct c end;
    repeat split; reflexivity.
Qed.

Lemma processCanFrame_sameTables (e : Engine.State) (frame : CanFrame) (now : Z) :
  sameTables e (Engine.processCanFrame e frame now).
Proof.
  unfold Engine.processCanFrame. cbv zeta.
  set (e1 := match Engine.signalMap_ e !! frame_id frame with
             | Some idxs => _ | None => e end).
  assert (H1 : sameTables e e1).
  { subst e1. destruct (Engine.signalMap_ e !! frame_id frame);
      repeat split; reflexivity. }
  clearbody e1.
  destruct (Engine.debugMode_ e1); [|exact H1].
  destruct (Engine.debugSignalMap_ e1 !! frame_id frame) as [idxs|]; [|exact H1].
  revert e1 H1. induction idxs as [|idx idxs IH]; intros e1 H1; cbn [fold_left];
    [exact H1|].
  apply IH. eapply sameTables_trans; [exact H1|].
  apply updateDebugSignal_sameTables.
Qed.

Lemma popDirtyDebugSignal_sameTables (e : Engine.State) :
  sameTables e (fst (Engine.popDirtyDebugSignal e))
  /\ Engine.signals_ (fst (Engine.popDirtyDebugSignal e)) = Engine.signals_ e.
Proof.
  unfold Engine.popDirtyDebugSignal.
  repeat match goal with
         | |- context [if ?c then _ else _] => destruct c
         end; try (split; [apply sameTables_refl || (repeat split; reflexivity)
                          | reflexivity]).
  destruct (Engine.debugSignals_ e !! _); split; repeat split; reflexivity.
Qed.

Lemma RulesetInv_same (e e' : Engine.State) :
  Engine.rulesetBinary_ e' = Engine.rulesetBinary_ e ->
  Engine.rulesetCRC_ e' = Engine.rulesetCRC_ e ->
  signalDef <$> Engine.signals_ e' = signalDef <$> Engine.signals_ e ->
  conditionDef <$> Engine.conditions_ e' = conditionDef <$> Engine.conditions_ e ->
  Engine.actions_ e' = Engine.actions_ e ->
  ruleDef <$> Engine.rules_ e' = ruleDef <$> Engine.rules_ e ->
  (forall id, is_Some (Engine.handlers_ e !! id) -> is_Some (Engine.handlers_ e' !! id)) ->
  RulesetInv e -> RulesetInv e'.
Proof.
  intros Hb Hcrc Hs Hc Ha Hr Hh [Hinst Hhand]. split.
  - rewrite Hb. destruct (Protocol.parseRules (Engine.rulesetBinary_ e)) as [err|t].
    + destruct Hinst as (B & C & S1 & S2 & S3 & S4).
      rewrite S1 in Hs. rewrite S2 in Hc. rewrite S4 in Hr.
      apply fmap_nil_inv in Hs. apply fmap_nil_inv in Hc. apply fmap_nil_inv in Hr.
      repeat split; congruence.
    + destruct Hinst as [(S1 & S2 & S3 & S4) C].
      split; [|congruence]. unfold InstalledFrom. repeat split; congruence.
  - rewrite Ha. eapply Forall_impl; [exact Hhand|]. intros a. apply Hh.
Qed.

Lemma Reachable_RulesetInv (e : Engine.State) : Reachable e -> RulesetInv e.
Proof.
  induction 1 as [ | e id h Hreach IH | e data _ IH | e _ IH | e frame nowMs Hreach IH
                 | e nowMs e' os _ IH Hev | e defs _ IH | e _ IH
                 | e enabled _ IH | e _ IH ].
  - split; [|constructor]. cbn. repeat split; reflexivity.
  - revert IH. apply RulesetInv_same; try reflexivity.
    intros id' Hsome. cbn.
    destruct (decide (id = id')) as [->|Hne].
    + rewrite lookup_insert_eq. eauto.
    + rewrite lookup_insert_ne by exact Hne. exact Hsome.
  - unfold Engine.loadRuleset.
    destruct (Protocol.parseRules data) as [err|t] eqn:Hparse; [exact IH|].
    destruct (Engine.firstUnknown _ _) eqn:Hunk.
    + revert IH. apply RulesetInv_same; try reflexivity. auto.
    + split.
      * cbn. rewrite Hparse. split; [|reflexivity].
        unfold InstalledFrom. cbn. repeat split; reflexivity.
      * cbn. apply Forall_forall. apply firstUnknown_None. exact Hunk.
  - split; [|constructor]. cbn. repeat split; reflexivity.
  - destruct (processCanFrame_signals e frame nowMs (Reachable_MapInv e Hreach))
      as (H1 & _).
    destruct (processCanFrame_sameTables e frame nowMs)
      as (S1 & S2 & S3 & S4 & S5 & S6 & _).
    revert IH. apply RulesetInv_same; try assumption.
    + rewrite H1. apply decodeMatching_def.
    + rewrite S1. reflexivity.
    + rewrite S3. reflexivity.
    + rewrite S6. auto.
  - unfold Engine.evaluateRules in Hev.
    destruct (Engine.evalRulesLoop _ _ _ _ _ _) as [[[[conds trig] rules] os']|] eqn:Hloop;
      [|discriminate].
    cbn in Hev. injection Hev as <- _.
    destruct (evalRulesLoop_def _ _ _ _ _ _ _ _ _ _ Hloop) as [Hc Hr].
    revert IH. apply RulesetInv_same; try reflexivity; try assumption. auto.
  - revert IH. apply RulesetInv_same; try reflexivity. auto.
  - revert IH. apply RulesetInv_same; try reflexivity. auto.
  - revert IH. apply RulesetInv_same; try reflexivity. auto.
  - destruct (popDirtyDebugSignal_sameTables e)
      as [(S1 & S2 & S3 & S4 & S5 & S6 & _) S0].
    revert IH. apply RulesetInv_same; try assumption.
    + rewrite S0. reflexivity.
    + rewrite S1. reflexivity.
    + rewrite S3. reflexivity.
    + rewrite S6. auto.
Qed.

Lemma Reachable_WellFormed (e : Engine.State) :
  Reachable e ->
  WellFormed (Engine.signals_ e) (Engine.conditions_ e) (Engine.actions_ e)
    (Engine.rules_ e).
Proof.
  intros Hreach. destruct (Reachable_RulesetInv e Hreach) as [Hinst _].
  destruct (Protocol.parseRules (Engine.rulesetBinary_ e)) as [err|t] eqn:Hparse.
  - destruct Hinst as (_ & _ & -> & -> & -> & ->).
    repeat split; constructor.
  - destruct Hinst as [(S1 & S2 & S3 & S4) _].
    pose proof (parseRules_WellFormed _ _ Hparse) as Hwf.
    rewrite S3. eapply WellFormed_defs; eassumption.
Qed.

(** X5.  In every reachable state, either nothing is installed (empty
    binary, CRC 0, empty tables) or the tables in use are the ones the
    parser produces from the retained binary, up to the run-time state of
    their entries, and the stored CRC is the CRC-32 of that binary; the
    tables are well-formed; and every action's capability id has a
    registered handler. *)
Theorem installed_ruleset_invariant (e : Engine.State) :
  Reachable e ->
  RulesetInv e
  /\ WellFormed (Engine.signals_ e) (Engine.conditions_ e) (Engine.actions_ e)
       (Engine.rules_ e).
Proof.
  intros Hreach. split.
  - exact (Reachable_RulesetInv e Hreach).
  - exact (Reachable_WellFormed e Hreach).
Qed.

Lemma installed_ruleset_invariant_witness :
  let e := Engine.processCanFrame
             (fst (Engine.loadRuleset (Fixtures.engine_with "log") Fixtures.timed_rule))
             (Fixtures.frame_0x100 5) 7 in
  length (Engine.rules_ e) = 1%nat
  /\ RulesetInv e
  /\ WellFormed (Engine.signals_ e) (Engine.conditions_ e) (Engine.actions_ e)
       (Engine.rules_ e).
Proof.
  cbv zeta. split; [vm_compute; reflexivity|].
  apply installed_ruleset_invariant.
  apply reach_processCanFrame, reach_loadRuleset, reach_registerCapability, reach_init.
Defined.

(** ** A fired rule runs all of its actions *)

Lemma executeAction_registered (handlers : gmap string Handler)
    (acts : list RuntimeAction) :
  Forall (fun a => is_Some (handlers !! capabilityId a)) acts ->
  inv_capability <$> flat_map (Engine.executeAction handlers) acts
  = capabilityId <$> acts
  /\ inv_params <$> flat_map (Engine.executeAction handlers) acts = params <$> acts.
Proof.
  induction 1 as [|a acts [h Hh] _ [IH1 IH2]]; [split; reflexivity|].
  cbn [flat_map]. unfold Engine.executeAction at 1 3. rewrite Hh.
  cbn [app fmap list_fmap inv_capability inv_params].
  fold (@fmap list _ _ _ inv_capability). fold (@fmap list _ _ _ inv_params).
  fold (@fmap list _ _ _ capabilityId acts). fold (@fmap list _ _ _ params acts).
  rewrite IH1, IH2. split; reflexivity.
Qed.

(** X6.  In a reachable state the guards of the action loop are never
    needed: a rule that fires executes exactly the [actionCount] actions
    [actions[start .. start+count)], none clipped, and every one of them
    reaches a registered handler, which is called once, in table order, with
    the action's capability id and parameters. *)
Theorem fired_rule_runs_all_actions (e e' : Engine.State) (nowMs : Z)
    (os : list Outcome) (i : nat) (rule : RuntimeRule) (o : Outcome)
    (acts : list RuntimeAction) :
  Reachable e ->
  Engine.evaluateRules e nowMs = Some (e', os) ->
  Engine.rules_ e !! i = Some rule ->
  os !! i = Some o ->
  fired o = Some acts ->
  acts = take (actionCount rule) (drop (actionStartIdx rule) (Engine.actions_ e))
  /\ length acts = actionCount rule
  /\ inv_capability <$> flat_map (Engine.executeAction (Engine.handlers_ e)) acts
     = capabilityId <$> acts
  /\ inv_params <$> flat_map (Engine.executeAction (Engine.handlers_ e)) acts
     = params <$> acts.
Proof.
  intros Hreach Hev Hrule Ho Hfired.
  destruct (Reachable_RulesetInv e Hreach) as [_ Hhand].
  destruct (Reachable_WellFormed e Hreach) as (_ & _ & Wr).
  destruct (evaluateRules_rule e e' nowMs os i rule Hev Hrule) as (met & _ & Ho' & _).
  rewrite Ho in Ho'. injection Ho' as ->.
  unfold ruleOutcome in Hfired. cbn [fired] in Hfired.
  destruct (ruleFires rule met nowMs); [|discriminate Hfired].
  injection Hfired as <-.
  pose proof (proj1 (Forall_lookup _ _) Wr i rule Hrule) as (Hrange & _).
  split; [reflexivity|]. split.
  - rewrite length_take, length_drop. lia.
  - apply executeAction_registered.
    apply Forall_take, Forall_drop. exact Hhand.
Qed.

Lemma fired_rule_runs_all_actions_witness :
  let e0 := fst (Engine.loadRuleset (Fixtures.engine_with "log") Fixtures.timed_rule) in
  let e1 := Engine.processCanFrame e0 (Fixtures.frame_0x100 1) 900 in
  let r1 := evalAt e1 1000 in
  let r2 := evalAt (fst r1) 1100 in
  let rule := {| conditionMask := 1; actionStartIdx := 0; actionCount := 1;
                 debounceMs := 100; cooldownMs := 500; lastTriggerMs := 0;
                 lastConditionChangeMs := 1000; lastConditionState := true |} in
  let acts := [mkAction "log" []] in
  Reachable (fst r1)
  /\ Engine.evaluateRules (fst r1) 1100 = Some (fst r2, snd r2)
  /\ Engine.rules_ (fst r1) !! 0%nat = Some rule
  /\ snd r2 !! 0%nat = Some (mkOutcome true (Some acts))
  /\ length acts = actionCount rule
  /\ inv_capability <$> flat_map (Engine.executeAction (Engine.handlers_ (fst r1))) acts
     = capabilityId <$> acts.
Proof.
  cbv zeta.
  set (e0 := fst (Engine.loadRuleset (Fixtures.engine_with "log") Fixtures.timed_rule)).
  set (e1 := Engine.processCanFrame e0 (Fixtures.frame_0x100 1) 900).
  set (r1 := evalAt e1 1000). set (r2 := evalAt (fst r1) 1100).
  set (rule := {| conditionMask := 1; actionStartIdx := 0; actionCount := 1;
                  debounceMs := 100; cooldownMs := 500; lastTriggerMs := 0;
                  lastConditionChangeMs := 1000; lastConditionState := true |}).
  set (acts := [mkAction "log" []]).
  assert (Hreach : Reachable (fst r1)).
  { apply (reach_evaluateRules e1 1000 (fst r1) (snd r1)); [|vm_compute; reflexivity].
    apply reach_processCanFrame, reach_loadRuleset, reach_registerCapability,
      reach_init. }
  assert (Hev : Engine.evaluateRules (fst r1) 1100 = Some (fst r2, snd r2))
    by (vm_compute; reflexivity).
  assert (Hrule : Engine.rules_ (fst r1) !! 0%nat = Some rule)
    by (vm_compute; reflexivity).
  assert (Ho : snd r2 !! 0%nat = Some (mkOutcome true (Some acts)))
    by (vm_compute; reflexivity).
  destruct (fired_rule_runs_all_actions (fst r1) (fst r2) 1100 (snd r2) 0 rule
              (mkOutcome true (Some acts)) acts Hreach Hev Hrule Ho eq_refl)
    as (_ & Hlen & Hcap & _).
  repeat split; assumption.
Defined.

(** ** HOLD conditions *)

Lemma evaluateCondition_HOLD_active (sigs : list RuntimeSignal)
    (cond : RuntimeCondition) (nowMs : Z) :
  operation cond = HOLD -> holdSignalActive cond sigs ->
  Engine.evaluateCondition sigs cond nowMs
  = Some (if holdActive cond then cond else Engine.set_hold cond true nowMs,
          holdMs cond
          <=? u32 (nowMs - (if holdActive cond then holdStartMs cond else nowMs))).
Proof.
  intros Hop (sig & Hsig & Hset & Hact). unfold Engine.evaluateCondition.
  pose proof (lookup_lt_Some _ _ _ Hsig) as Hlt.
  destruct (Nat.leb_spec (length sigs) (signalIdx cond)); [lia|].
  rewrite Hsig. cbn [mbind option_bind]. rewrite Hset, Hop, Hact. cbn [negb].
  destruct (holdActive cond); reflexivity.
Qed.

Lemma u32_sub (a b : Z) : 0 <= a - b < 2 ^ 32 -> u32 (u32 a - u32 b) = a - b.
Proof.
  intros H. unfold u32. rewrite <- Zminus_mod. apply Z.mod_small. exact H.
Qed.

Lemma evaluateCondition_HOLD_silent (sigs : list RuntimeSignal)
    (cond : RuntimeCondition) (sig : RuntimeSignal) (nowMs : Z) :
  operation cond = HOLD ->
  sigs !! signalIdx cond = Some sig -> everSet sig = true ->
  F32.ltb F32.EPSILON (F32.abs (value sig)) = false ->
  Engine.evaluateCondition sigs cond nowMs
  = Some (Engine.set_hold cond false 0, false).
Proof.
  intros Hop Hsig Hset Hoff. unfold Engine.evaluateCondition.
  pose proof (lookup_lt_Some _ _ _ Hsig) as Hlt.
  destruct (Nat.leb_spec (length sigs) (signalIdx cond)); [lia|].
  rewrite Hsig. cbn [mbind option_bind]. rewrite Hset, Hop, Hoff. reflexivity.
Qed.

(** A running hold leaves the condition as it is, so whatever is sampled
    after the run starts from the same condition. *)
Lemma hold_running_then (cond : RuntimeCondition) (T0 : Z)
    (rest tail : list (list RuntimeSignal * Z)) :
  operation cond = HOLD -> holdActive cond = true -> holdStartMs cond = u32 T0 ->
  Forall (fun s => holdSignalActive cond (fst s) /\ T0 <= snd s < T0 + 2 ^ 32) rest ->
  sampleCondition cond ((clocked <$> rest) ++ tail)
  = ((fun s => holdMs cond <=? snd s - T0) <$> rest) ++ sampleCondition cond tail.
Proof.
  intros Hop Hact Hstart. induction 1 as [|[sigs T] rest [Hs HT] _ IH]; [reflexivity|].
  cbn [fmap list_fmap clocked fst snd sampleCondition app] in *.
  rewrite (evaluateCondition_HOLD_active _ _ _ Hop Hs), Hact, Hstart.
  rewrite u32_sub by lia. f_equal. exact IH.
Qed.

Lemma hold_from_idle (cond : RuntimeCondition) (sigs0 : list RuntimeSignal)
    (T0 : Z) (rest tail : list (list RuntimeSignal * Z)) :
  operation cond = HOLD -> holdActive cond = false ->
  Forall (fun s => holdSignalActive cond (fst s) /\ T0 <= snd s < T0 + 2 ^ 32)
         ((sigs0, T0) :: rest) ->
  sampleCondition cond ((clocked <$> (sigs0, T0) :: rest) ++ tail)
  = ((fun s => holdMs cond <=? snd s - T0) <$> (sigs0, T0) :: rest)
    ++ sampleCondition (Engine.set_hold cond true (u32 T0)) tail.
Proof.
  intros Hop Hidle Hall. apply Forall_cons in Hall as [[Hs0 _] Hrest].
  cbn [fmap list_fmap clocked fst snd sampleCondition app].
  rewrite (evaluateCondition_HOLD_active _ _ _ Hop Hs0), Hidle.
  rewrite !Z.sub_diag. f_equal.
  apply (hold_running_then (Engine.set_hold cond true (u32 T0)) T0 rest tail);
    [exact Hop | reflexivity | reflexivity | exact Hrest].
Qed.

(** X7.  A HOLD condition measures the time since the first sample at which
    its signal was non-zero: starting from an idle timer, as long as every
    sample finds the signal received and above [EPSILON] in magnitude, the
    sample taken at time [T] is true exactly when [T - T0 >= holdMs], where
    [T0] is the time of the first sample.  The times are unbounded; the
    condition only sees the 32-bit clock, so the result is right across a
    rollover of [millis()] while the hold lasts less than [2^32] ms.  A
    sample that finds the signal received but not above [EPSILON] gives
    false and returns the timer to idle, whatever the timer held: a hold
    that was running is dropped, and the run of non-zero samples after it
    is measured from its own first sample [T1], not from [T0]. *)
Theorem hold_measures_elapsed_time (cond : RuntimeCondition)
    (sigs0 : list RuntimeSignal) (T0 : Z) (rest : list (list RuntimeSignal * Z)) :
  operation cond = HOLD ->
  holdActive cond = false ->
  Forall (fun s => holdSignalActive cond (fst s) /\ T0 <= snd s < T0 + 2 ^ 32)
         ((sigs0, T0) :: rest) ->
  sampleCondition cond (clocked <$> (sigs0, T0) :: rest)
  = (fun s => holdMs cond <=? snd s - T0) <$> (sigs0, T0) :: rest
  /\ (forall sigsOff sigOff Toff sigs1 T1 rest1,
        sigsOff !! signalIdx cond = Some sigOff -> everSet sigOff = true ->
        F32.ltb F32.EPSILON (F32.abs (value sigOff)) = false ->
        Forall (fun s => holdSignalActive cond (fst s) /\ T1 <= snd s < T1 + 2 ^ 32)
               ((sigs1, T1) :: rest1) ->
        sampleCondition cond
          (clocked <$> ((sigs0, T0) :: rest) ++ (sigsOff, Toff) :: (sigs1, T1) :: rest1)
        = ((fun s => holdMs cond <=? snd s - T0) <$> (sigs0, T0) :: rest)
          ++ false :: ((fun s => holdMs cond <=? snd s - T1) <$> (sigs1, T1) :: rest1))
  /\ (forall c sigs sig nowMs,
        operation c = HOLD ->
        sigs !! signalIdx c = Some sig -> everSet sig = true ->
        F32.ltb F32.EPSILON (F32.abs (value sig)) = false ->
        Engine.evaluateCondition sigs c nowMs
        = Some (Engine.set_hold c false 0, false)).
Proof.
  intros Hop Hidle Hall. split; [|split].
  - rewrite <- (app_nil_r (clocked <$> (sigs0, T0) :: rest)).
    rewrite (hold_from_idle cond sigs0 T0 rest [] Hop Hidle Hall).
    apply app_nil_r.
  - intros sigsOff sigOff Toff sigs1 T1 rest1 Hsig Hset Hoff Hall1.
    rewrite fmap_app.
    rewrite (hold_from_idle cond sigs0 T0 rest _ Hop Hidle Hall). f_equal.
    change (clocked <$> (sigsOff, Toff) :: (sigs1, T1) :: rest1)
      with ((sigsOff, u32 Toff) :: (clocked <$> (sigs1, T1) :: rest1)).
    cbn [sampleCondition].
    rewrite (evaluateCondition_HOLD_silent sigsOff
               (Engine.set_hold cond true (u32 T0)) sigOff (u32 Toff) Hop Hsig Hset Hoff).
    f_equal.
    rewrite <- (app_nil_r (clocked <$> (sigs1, T1) :: rest1)).
    rewrite (hold_from_idle
               (Engine.set_hold (Engine.set_hold cond true (u32 T0)) false 0)
               sigs1 T1 rest1 [] Hop eq_refl Hall1).
    apply app_nil_r.
  - intros c sigs sig nowMs. apply evaluateCondition_HOLD_silent.
Qed.

Lemma hold_measures_elapsed_time_witness :
  let cond := {| signalIdx := 0; operation := HOLD; value1 := F32.c100;
                 value2 := F32.zero; holdMs := 100; holdStartMs := 0;
                 holdActive := false; lastResult := false |} in
  let sigs := [Engine.updateSignal sig_le16 [1; 0; 0; 0; 0; 0; 0; 0] 5] in
  let quiet := Engine.updateSignal sig_le16 [0; 0; 0; 0; 0; 0; 0; 0] 6 in
  let T0 := 2 ^ 32 - 50 in
  let T1 := T0 + 200 in
  Forall (fun s => holdSignalActive cond (fst s) /\ T0 <= snd s < T0 + 2 ^ 32)
         [(sigs, T0); (sigs, T0 + 100)]
  /\ F32.ltb F32.EPSILON (F32.abs (value quiet)) = false
  /\ Forall (fun s => holdSignalActive cond (fst s) /\ T1 <= snd s < T1 + 2 ^ 32)
            [(sigs, T1); (sigs, T1 + 99); (sigs, T1 + 100)]
  /\ sampleCondition cond
       (clocked <$> ((sigs, T0) :: [(sigs, T0 + 100)])
                    ++ ([quiet], T0 + 150)
                       :: (sigs, T1) :: [(sigs, T1 + 99); (sigs, T1 + 100)])
     = [false; true; false; false; false; true].
Proof.
  cbv zeta.
  set (cond := {| signalIdx := 0; operation := HOLD; value1 := F32.c100;
                  value2 := F32.zero; holdMs := 100; holdStartMs := 0;
                  holdActive := false; lastResult := false |}).
  set (sigs := [Engine.updateSignal sig_le16 [1; 0; 0; 0; 0; 0; 0; 0] 5]).
  set (quiet := Engine.updateSignal sig_le16 [0; 0; 0; 0; 0; 0; 0; 0] 6).
  assert (Hact : holdSignalActive cond sigs).
  { exists (Engine.updateSignal sig_le16 [1; 0; 0; 0; 0; 0; 0; 0] 5).
    repeat split; vm_compute; reflexivity. }
  assert (Hall : Forall (fun s => holdSignalActive cond (fst s)
                                  /\ 2 ^ 32 - 50 <= snd s < 2 ^ 32 - 50 + 2 ^ 32)
                   [(sigs, 2 ^ 32 - 50); (sigs, 2 ^ 32 - 50 + 100)]).
  { repeat constructor; try exact Hact; cbn [snd]; lia. }
  assert (Hset : everSet quiet = true) by (vm_compute; reflexivity).
  assert (Hoff : F32.ltb F32.EPSILON (F32.abs (value quiet)) = false)
    by (vm_compute; reflexivity).
  assert (Hall1 : Forall (fun s => holdSignalActive cond (fst s)
                                   /\ 2 ^ 32 - 50 + 200 <= snd s
                                      < 2 ^ 32 - 50 + 200 + 2 ^ 32)
                    [(sigs, 2 ^ 32 - 50 + 200); (sigs, 2 ^ 32 - 50 + 200 + 99);
                     (sigs, 2 ^ 32 - 50 + 200 + 100)]).
  { repeat constructor; try exact Hact; cbn [snd]; lia. }
  split; [exact Hall|]. split; [exact Hoff|]. split; [exact Hall1|].
  destruct (hold_measures_elapsed_time cond sigs (2 ^ 32 - 50)
              [(sigs, 2 ^ 32 - 50 + 100)] eq_refl eq_refl Hall) as (_ & Hdrop & _).
  rewrite (Hdrop [quiet] quiet (2 ^ 32 - 50 + 150) sigs (2 ^ 32 - 50 + 200)
             [(sigs, 2 ^ 32 - 50 + 200 + 99); (sigs, 2 ^ 32 - 50 + 200 + 100)]
             eq_refl Hset Hoff Hall1).
  vm_compute. reflexivity.
Defined.

(** ** The dirty queue is first-in first-out and never stalls *)

Lemma updateDebugSignal_queue (data : list Z) (now : Z) (e : Engine.State)
    (idx : nat) :
  exists new,
    Engine.debugDirtyQueue_ (Engine.updateDebugSignal data now e idx)
    = Engine.debugDirtyQueue_ e ++ new
    /\ Engine.debugQueueHead_ (Engine.updateDebugSignal data now e idx)
       = Engine.debugQueueHead_ e.
Proof.
  unfold Engine.updateDebugSignal.
  destruct (Engine.debugSignals_ e !! idx) as [sig|].
  - cbv zeta.
    match goal with |- context [if ?c then _ else _] => destruct c end.
    + exists [idx]. split; reflexivity.
    + exists []. rewrite app_nil_r. split; reflexivity.
  - exists []. rewrite app_nil_r. split; reflexivity.
Qed.

Lemma processCanFrame_queue (e : Engine.State) (frame : CanFrame) (now : Z) :
  exists new,
    Engine.debugDirtyQueue_ (Engine.processCanFrame e frame now)
    = Engine.debugDirtyQueue_ e ++ new
    /\ Engine.debugQueueHead_ (Engine.processCanFrame e frame now)
       = Engine.debugQueueHead_ e.
Proof.
  unfold Engine.processCanFrame. cbv zeta.
  set (e1 := match Engine.signalMap_ e !! frame_id frame with
             | Some idxs => _ | None => e end).
  assert (H1 : Engine.debugDirtyQueue_ e1 = Engine.debugDirtyQueue_ e
               /\ Engine.debugQueueHead_ e1 = Engine.debugQueueHead_ e).
  { subst e1. destruct (Engine.signalMap_ e !! frame_id frame); split; reflexivity. }
  clearbody e1. destruct H1 as [<- <-].
  assert (Hnone : exists new,
             Engine.debugDirtyQueue_ e1 = Engine.debugDirtyQueue_ e1 ++ new
             /\ Engine.debugQueueHead_ e1 = Engine.debugQueueHead_ e1).
  { exists []. rewrite app_nil_r. split; reflexivity. }
  destruct (Engine.debugMode_ e1); [|exact Hnone].
  destruct (Engine.debugSignalMap_ e1 !! frame_id frame) as [idxs|]; [|exact Hnone].
  clear Hnone. revert e1. induction idxs as [|idx idxs IH]; intros e1; cbn [fold_left].
  - exists []. rewrite app_nil_r. split; reflexivity.
  - destruct (IH (Engine.updateDebugSignal (frame_data frame) now e1 idx))
      as (new2 & Hq2 & Hh2).
    destruct (updateDebugSignal_queue (frame_data frame) now e1 idx)
      as (new1 & Hq1 & Hh1).
    exists (new1 ++ new2). rewrite Hq2, Hq1, Hh2, Hh1, app_assoc.
    split; reflexivity.
Qed.

(** The read position never passes the end of the vector. *)
Lemma Reachable_head (e : Engine.State) :
  Reachable e ->
  (Engine.debugQueueHead_ e <= length (Engine.debugDirtyQueue_ e))%nat.
Proof.
  induction 1 as [ | e id h _ IH | e data _ IH | e _ IH | e frame nowMs _ IH
                 | e nowMs e' os _ IH Hev | e defs _ IH | e _ IH
                 | e enabled _ IH | e _ IH ].
  - reflexivity.
  - exact IH.
  - unfold Engine.loadRuleset.
    destruct (Protocol.parseRules data); [exact IH|].
    destruct (Engine.firstUnknown _ _); exact IH.
  - exact IH.
  - destruct (processCanFrame_queue e frame nowMs) as (new & -> & ->).
    rewrite length_app. lia.
  - unfold Engine.evaluateRules in Hev.
    destruct (Engine.evalRulesLoop _ _ _ _ _ _) as [[[[conds trig] rules] os']|];
      [|discriminate].
    cbn in Hev. injection Hev as <- _. exact IH.
  - cbn. lia.
  - cbn. lia.
  - exact IH.
  - unfold Engine.popDirtyDebugSignal.
    destruct (Nat.leb_spec (length (Engine.debugDirtyQueue_ e))
                (Engine.debugQueueHead_ e)) as [Hdone|Hmore].
    + destruct (0 <? Engine.debugQueueHead_ e)%nat; [cbn; lia | exact IH].
    + cbv zeta. destruct (Engine.debugSignals_ e !! _); cbn; lia.
Qed.

(** X8.  In every reachable state: a CAN frame only appends to the pending
    entries of the dirty queue, so signals are reported in the order in
    which they became dirty; when an entry is pending, [popDirtyDebugSignal]
    succeeds and reports the overlay signal at the first pending index; and
    when nothing is pending it fails and leaves the backing vector empty
    with the read position at 0, so that all 64 slots are free again. *)
Theorem dirty_queue_fifo (e : Engine.State) :
  Reachable e ->
  (forall frame nowMs,
     exists new,
       Engine.pendingDirty (Engine.processCanFrame e frame nowMs)
       = Engine.pendingDirty e ++ new)
  /\ (forall idx rest,
        Engine.pendingDirty e = idx :: rest ->
        exists sig,
          Engine.debugSignals_ e !! idx = Some sig
          /\ snd (Engine.popDirtyDebugSignal e) = Some sig
          /\ Engine.pendingDirty (fst (Engine.popDirtyDebugSignal e)) = rest)
  /\ (Engine.pendingDirty e = [] ->
      snd (Engine.popDirtyDebugSignal e) = None
      /\ Engine.debugDirtyQueue_ (fst (Engine.popDirtyDebugSignal e)) = []
      /\ Engine.debugQueueHead_ (fst (Engine.popDirtyDebugSignal e)) = 0%nat).
Proof.
  intros Hreach. pose proof (Reachable_head e Hreach) as Hhead.
  destruct (Reachable_DebugInv e Hreach) as (Hlen & _ & _ & Hflag).
  split; [|split].
  - intros frame nowMs.
    destruct (processCanFrame_queue e frame nowMs) as (new & Hq & Hh).
    exists new. unfold Engine.pendingDirty. rewrite Hq, Hh.
    apply drop_app_le. exact Hhead.
  - intros idx rest Hpend.
    assert (Hin : idx ∈ Engine.pendingDirty e) by (rewrite Hpend; left).
    pose proof (Hflag idx Hin) as Hf. apply lookup_lt_Some in Hf. rewrite Hlen in Hf.
    destruct (lookup_lt_is_Some_2 _ _ Hf) as [sig Hsig].
    exists sig. split; [exact Hsig|].
    unfold Engine.pendingDirty in Hpend.
    assert (Hq : Engine.debugDirtyQueue_ e !! Engine.debugQueueHead_ e = Some idx).
    { rewrite <- (Nat.add_0_r (Engine.debugQueueHead_ e)), <- lookup_drop, Hpend.
      reflexivity. }
    pose proof (lookup_lt_Some _ _ _ Hq) as Hlt.
    unfold Engine.popDirtyDebugSignal. cbv zeta.
    destruct (Nat.leb_spec (length (Engine.debugDirtyQueue_ e))
                (Engine.debugQueueHead_ e)); [lia|].
    rewrite Hq. cbn [default from_option id]. rewrite Hsig.
    cbn [fst snd]. split; [reflexivity|].
    unfold Engine.pendingDirty.
    cbn [Engine.set_debug Engine.debugDirtyQueue_ Engine.debugQueueHead_].
    rewrite (drop_S _ _ _ Hq) in Hpend. injection Hpend as Hrest. exact Hrest.
  - intros Hpend. unfold Engine.pendingDirty in Hpend.
    assert (Hge : (length (Engine.debugDirtyQueue_ e) <= Engine.debugQueueHead_ e)%nat).
    { apply (f_equal length) in Hpend. rewrite length_drop in Hpend.
      cbn [length] in Hpend. lia. }
    unfold Engine.popDirtyDebugSignal.
    destruct (Nat.leb_spec (length (Engine.debugDirtyQueue_ e))
                (Engine.debugQueueHead_ e)); [|lia].
    destruct (Nat.ltb_spec 0 (Engine.debugQueueHead_ e)) as [Hpos|Hzero].
    + repeat split; reflexivity.
    + cbn [fst snd]. split; [reflexivity|].
      assert (Hh0 : Engine.debugQueueHead_ e = 0%nat) by lia.
      split; [|exact Hh0].
      apply length_zero_iff_nil. lia.
Qed.

Lemma dirty_queue_fifo_witness :
  let e := Engine.processCanFrame (fst (Engine.loadDebugSignals Engine.init [def_byte0]))
             (Fixtures.frame_0x100 5) 7 in
  Engine.pendingDirty e = [0%nat]
  /\ exists sig, snd (Engine.popDirtyDebugSignal e) = Some sig
                 /\ Engine.pendingDirty (fst (Engine.popDirtyDebugSignal e)) = [].
Proof.
  cbv zeta.
  set (e := Engine.processCanFrame
              (fst (Engine.loadDebugSignals Engine.init [def_byte0]))
              (Fixtures.frame_0x100 5) 7).
  assert (Hreach : Reachable e)
    by apply reach_processCanFrame, reach_loadDebugSignals, reach_init.
  assert (Hpend : Engine.pendingDirty e = [0%nat]) by (vm_compute; reflexivity).
  split; [exact Hpend|].
  destruct (proj1 (proj2 (dirty_queue_fifo e Hreach)) 0%nat [] Hpend)
    as (sig & _ & Hpop & Hrest).
  exists sig. split; assumption.
Defined.

(** ** Streamed uploads *)

Lemma StreamType_eqb_eq (a b : ControllerStream.StreamType) :
  ControllerStream.StreamType_eqb a b = true <-> a = b.
Proof. destruct a, b; cbn; split; intros H; try reflexivity; discriminate. Qed.

(** While a stream is open, packets other than the END marker are appended
    to the buffer and nothing else changes. *)
Lemma receiveAll_chunks (isEnd : list Z -> bool) (decode : list Z -> ControllerStream.Command)
    (scanDefs : list Z -> list DebugDef) (mtu : Z) (fuel : nat) (write_ok : bool)
    (profile : list Z) (chunks : list (list Z)) :
  forall s : ControllerStream.State,
  ControllerStream.streamType_ s <> ControllerStream.NONE ->
  Forall (fun c => isEnd c = false) chunks ->
  forall rest,
  ControllerStream.receiveAll isEnd decode scanDefs mtu fuel write_ok profile s (chunks ++ rest)
  = ControllerStream.receiveAll isEnd decode scanDefs mtu fuel write_ok profile
      (ControllerStream.set_stream s (ControllerStream.streamType_ s) (ControllerStream.streamBuffer_ s ++ concat chunks)
         (ControllerStream.streamExpectedLen_ s) (ControllerStream.streamExpectedCRC_ s)) rest.
Proof.
  induction chunks as [|c chunks IH]; intros s Hopen Hall rest.
  - cbn [concat app]. rewrite app_nil_r. destruct s; reflexivity.
  - apply Forall_cons in Hall as [Hc Hall].
    cbn [app ControllerStream.receiveAll]. unfold ControllerStream.onReceive.
    destruct (ControllerStream.StreamType_eqb (ControllerStream.streamType_ s) ControllerStream.NONE) eqn:Hty.
    { apply StreamType_eqb_eq in Hty. contradiction. }
    cbn [negb mbind option_bind]. unfold ControllerStream.handleStreamData. rewrite Hc.
    rewrite IH by (cbn; assumption).
    cbn [ControllerStream.set_stream ControllerStream.streamType_ ControllerStream.streamBuffer_ ControllerStream.streamExpectedLen_
         ControllerStream.streamExpectedCRC_ ControllerStream.engine_ ControllerStream.rulesMode_ ControllerStream.rules_bin ControllerStream.outbox concat].
    rewrite <- app_assoc. reflexivity.
Qed.

Lemma parseRules_nonempty (data : list Z) (t : Protocol.Tables) :
  Protocol.parseRules data = inr t -> data <> [].
Proof. intros H ->. vm_compute in H. discriminate H. Qed.

Lemma loadRuleset_binary (e : Engine.State) (data : list Z) :
  snd (Engine.loadRuleset e data) = true ->
  Engine.getRulesetBinary (fst (Engine.loadRuleset e data)) = data /\ data <> [].
Proof.
  unfold Engine.loadRuleset.
  destruct (Protocol.parseRules data) as [err|t] eqn:Hparse; [discriminate|].
  destruct (Engine.firstUnknown _ _); [discriminate|].
  intros _. split; [reflexivity|]. exact (parseRules_nonempty data t Hparse).
Qed.

(** The END marker on an open ruleset stream. *)
Lemma finalizeStream_rules (scanDefs : list Z -> list DebugDef) (write_ok : bool)
    (s : ControllerStream.State) (nvs : bool) (data : list Z) (len crc : Z) :
  let ty := if nvs then ControllerStream.RULESET_NVS else ControllerStream.RULESET_RAM in
  let s' := ControllerStream.finalizeStream scanDefs write_ok
              (ControllerStream.set_stream s ty data len crc) in
  let r := Engine.loadRuleset (ControllerStream.engine_ s) data in
  ControllerStream.streamType_ s' = ControllerStream.NONE
  /\ ControllerStream.streamBuffer_ s' = []
  /\ (Z.of_nat (length data) <> len ->
      ControllerStream.engine_ s' = ControllerStream.engine_ s
      /\ ControllerStream.rulesMode_ s' = ControllerStream.rulesMode_ s
      /\ ControllerStream.rules_bin s' = ControllerStream.rules_bin s
      /\ ControllerStream.outbox s'
         = ControllerStream.outbox s ++ [text "ERR:LEN_MISMATCH"])
  /\ (Z.of_nat (length data) = len -> Protocol.calculateCRC32 data <> crc ->
      ControllerStream.engine_ s' = ControllerStream.engine_ s
      /\ ControllerStream.rulesMode_ s' = ControllerStream.rulesMode_ s
      /\ ControllerStream.rules_bin s' = ControllerStream.rules_bin s
      /\ ControllerStream.outbox s' = ControllerStream.outbox s ++ [text "ERR:CRC_FAIL"])
  /\ (Z.of_nat (length data) = len -> Protocol.calculateCRC32 data = crc ->
      ControllerStream.engine_ s' = fst r
      /\ (snd r = true ->
          ControllerStream.outbox s' = ControllerStream.outbox s
          /\ ControllerStream.rulesMode_ s' = (if nvs then 2 else 1)
          /\ ControllerStream.rules_bin s'
             = (if nvs && write_ok then data else ControllerStream.rules_bin s))
      /\ (snd r = false ->
          ControllerStream.rulesMode_ s' = ControllerStream.rulesMode_ s
          /\ ControllerStream.rules_bin s' = ControllerStream.rules_bin s
          /\ exists reply,
               ControllerStream.outbox s' = ControllerStream.outbox s ++ [reply])).
Proof.
  cbv zeta. unfold ControllerStream.finalizeStream.
  cbn [ControllerStream.set_stream ControllerStream.streamBuffer_
       ControllerStream.streamExpectedLen_ ControllerStream.streamExpectedCRC_].
  destruct (Z.eqb_spec (Z.of_nat (length data)) len) as [Hlen|Hlen]; cbn [negb];
    [destruct (Z.eqb_spec (Protocol.calculateCRC32 data) crc) as [Hcrc|Hcrc];
       cbn [negb]|].
  2,3: repeat split; try reflexivity; intros; contradiction.
  split; [reflexivity|]. split; [reflexivity|].
  split; [intros; contradiction|]. split; [intros; contradiction|].
  intros _ _.
  pose proof (loadRuleset_binary (ControllerStream.engine_ s) data) as Hbin.
  unfold ControllerStream.applyStream. cbv zeta.
  cbn [ControllerStream.set_stream ControllerStream.streamType_
       ControllerStream.streamBuffer_ ControllerStream.engine_].
  destruct (Engine.loadRuleset (ControllerStream.engine_ s) data) as [e' ok].
  cbn [fst snd] in *.
  destruct nvs, ok; cbn [ControllerStream.StreamType_eqb andb].
  - split; [unfold ControllerStream.saveRulesToNvs; cbn;
            destruct (Engine.getRulesetBinary e'); [|destruct write_ok]; reflexivity|].
    split; [|discriminate]. intros _.
    destruct (Hbin eq_refl) as [Hb Hne].
    unfold ControllerStream.saveRulesToNvs. cbn. rewrite Hb.
    destruct data as [|b data]; [contradiction|].
    destruct write_ok; repeat split; reflexivity.
  - split; [destruct (negb _); reflexivity|]. split; [discriminate|]. intros _.
    destruct (negb _); repeat split; try reflexivity; eexists; reflexivity.
  - split; [reflexivity|]. split; [|discriminate]. intros _.
    repeat split; reflexivity.
  - split; [destruct (negb _); reflexivity|]. split; [discriminate|]. intros _.
    destruct (negb _); repeat split; try reflexivity; eexists; reflexivity.
Qed.

(** A SET:RULES command, data packets and the END marker, received in this
    order by an idle controller. *)
Lemma receiveAll_upload (isEnd : list Z -> bool)
    (decode : list Z -> ControllerStream.Command)
    (scanDefs : list Z -> list DebugDef) (mtu : Z) (fuel : nat) (write_ok : bool)
    (profile : list Z) (s : ControllerStream.State) (nvs : bool) (cmd : list Z)
    (len crc : Z) (chunks : list (list Z)) (endPkt : list Z) :
  ControllerStream.streamType_ s = ControllerStream.NONE ->
  decode cmd = (if nvs then ControllerStream.SET_RULES_NVS_len_crc len crc
                else ControllerStream.SET_RULES_RAM_len_crc len crc) ->
  Forall (fun c => isEnd c = false) chunks ->
  isEnd endPkt = true ->
  ControllerStream.receiveAll isEnd decode scanDefs mtu fuel write_ok profile s
    (cmd :: chunks ++ [endPkt])
  = Some (ControllerStream.finalizeStream scanDefs write_ok
            (ControllerStream.set_stream s
               (if nvs then ControllerStream.RULESET_NVS
                else ControllerStream.RULESET_RAM)
               (concat chunks) len crc)).
Proof.
  intros Hidle Hcmd Hchunks Hend.
  set (ty := if nvs then ControllerStream.RULESET_NVS else ControllerStream.RULESET_RAM).
  assert (Hopen : ty <> ControllerStream.NONE) by (subst ty; destruct nvs; discriminate).
  assert (Hstep : ControllerStream.onReceive isEnd decode scanDefs mtu fuel write_ok
                    profile s cmd
                  = Some (ControllerStream.set_stream s ty [] len crc)).
  { unfold ControllerStream.onReceive, ControllerStream.handleCommand.
    rewrite Hidle, Hcmd. subst ty. destruct nvs; reflexivity. }
  cbn [ControllerStream.receiveAll]. rewrite Hstep. cbn [mbind option_bind].
  rewrite receiveAll_chunks; [|exact Hopen|exact Hchunks].
  cbn [ControllerStream.receiveAll]. unfold ControllerStream.onReceive.
  cbn [ControllerStream.set_stream ControllerStream.streamType_
       ControllerStream.streamBuffer_ ControllerStream.streamExpectedLen_
       ControllerStream.streamExpectedCRC_ app].
  destruct (ControllerStream.StreamType_eqb ty ControllerStream.NONE) eqn:Hty.
  { apply StreamType_eqb_eq in Hty. contradiction. }
  cbn [negb mbind option_bind]. unfold ControllerStream.handleStreamData.
  rewrite Hend. reflexivity.
Qed.



(** X10.  The reply to an upload that fails to parse depends on earlier
    uploads: [loadRuleset] leaves [unknownCapability_] alone when the parser
    rejects the buffer, so if an earlier upload was refused for an unknown
    capability, a later buffer that passes the length and CRC checks of the
    stream but is not a ruleset at all is answered with ERR:CAP_UNKNOWN
    naming that old capability (cut to 63 characters); ERR:RULES_INVALID is
    sent only while [unknownCapability_] is empty.  The engine is left
    unchanged either way. *)
Theorem parse_failure_reports_stale_capability (scanDefs : list Z -> list DebugDef)
    (write_ok : bool) (s : ControllerStream.State) (err : ParseError) :
  ControllerStream.streamType_ s = ControllerStream.RULESET_RAM
  \/ ControllerStream.streamType_ s = ControllerStream.RULESET_NVS ->
  Z.of_nat (length (ControllerStream.streamBuffer_ s))
  = ControllerStream.streamExpectedLen_ s ->
  Protocol.calculateCRC32 (ControllerStream.streamBuffer_ s)
  = ControllerStream.streamExpectedCRC_ s ->
  Protocol.parseRules (ControllerStream.streamBuffer_ s) = inl err ->
  let s' := ControllerStream.finalizeStream scanDefs write_ok s in
  let stale := Engine.getUnknownCapability (ControllerStream.engine_ s) in
  ControllerStream.engine_ s' = ControllerStream.engine_ s
  /\ ControllerStream.rulesMode_ s' = ControllerStream.rulesMode_ s
  /\ ControllerStream.outbox s'
     = ControllerStream.outbox s
       ++ [if String.eqb stale EmptyString then text "ERR:RULES_INVALID"
           else text (snprintf 64 ("ERR:CAP_UNKNOWN:" +:+ stale))].
Proof.
  intros Hty Hlen Hcrc Hparse. cbv zeta.
  unfold ControllerStream.finalizeStream. rewrite Hlen, Hcrc, !Z.eqb_refl. cbn [negb].
  unfold ControllerStream.applyStream, Engine.loadRuleset. rewrite Hparse.
  cbn [fst snd].
  destruct Hty as [-> | ->];
    destruct (String.eqb (Engine.getUnknownCapability (ControllerStream.engine_ s))
                EmptyString);
    cbn [negb]; repeat split; try reflexivity; destruct s; destruct engine_0; reflexivity.
Qed.

Lemma parse_failure_reports_stale_capability_witness :
  let e := fst (Engine.loadRuleset (Fixtures.engine_with "log") Fixtures.within_swapped) in
  let s := ControllerStream.set_stream
             (ControllerStream.set_engine ControllerStream.init e)
             ControllerStream.RULESET_RAM [1; 2; 3] 3
             (Protocol.calculateCRC32 [1; 2; 3]) in
  Protocol.parseRules [1; 2; 3] = inl ShortHeader
  /\ Reachable e
  /\ ControllerStream.outbox (ControllerStream.finalizeStream (fun _ => []) false s)
     = [text "ERR:CAP_UNKNOWN:buzz"].
Proof.
  cbv zeta. split; [reflexivity|].
  split; [apply reach_loadRuleset, reach_registerCapability, reach_init|].
  rewrite (proj2 (proj2 (parse_failure_reports_stale_capability (fun _ => []) false
             (ControllerStream.set_stream
                (ControllerStream.set_engine ControllerStream.init
                   (fst (Engine.loadRuleset (Fixtures.engine_with "log")
                           Fixtures.within_swapped)))
                ControllerStream.RULESET_RAM [1; 2; 3] 3
                (Protocol.calculateCRC32 [1; 2; 3]))
             ShortHeader (or_introl eq_refl) eq_refl eq_refl eq_refl))).
  vm_compute. reflexivity.
Defined.

(** ** Chunked downloads *)

Lemma send_outbox (s : ControllerStream.State) (packet : list Z) :
  ControllerStream.outbox (ControllerStream.send s packet)
  = ControllerStream.outbox s ++ [packet]
  /\ ControllerStream.engine_ (ControllerStream.send s packet)
     = ControllerStream.engine_ s.
Proof. split; reflexivity. Qed.

(** The chunk loop from [offset] on: with a positive MTU it ends within
    [len - offset] iterations and sends the bytes from [offset] on, in
    order, in chunks of exactly [mtu] bytes but for a shorter last one. *)
Lemma sendChunks_spec (mtu : Z) (data : list Z) :
  0 < mtu -> Z.of_nat (length data) + mtu <= 2 ^ 32 ->
  forall (fuel : nat) (offset : Z) (s : ControllerStream.State),
  0 <= offset ->
  Z.of_nat (length data) - offset <= Z.of_nat fuel ->
  exists chunks s',
    ControllerStream.sendChunks mtu fuel data offset s = Some s'
    /\ ControllerStream.outbox s' = ControllerStream.outbox s ++ chunks
    /\ ControllerStream.engine_ s' = ControllerStream.engine_ s
    /\ concat chunks = drop (Z.to_nat offset) data
    /\ Forall (fun c => 0 < Z.of_nat (length c) <= mtu) chunks
    /\ (forall i c, chunks !! i = Some c -> (S i < length chunks)%nat ->
                    Z.of_nat (length c) = mtu).
Proof.
  intros Hmtu Hfit. induction fuel as [|fuel IH]; intros offset s Hoff Hfuel.
  - exists [], s. cbn [ControllerStream.sendChunks].
    destruct (Z.ltb_spec offset (Z.of_nat (length data))); [lia|].
    rewrite app_nil_r, drop_ge by lia.
    split; [reflexivity|]. split; [reflexivity|]. split; [reflexivity|].
    split; [reflexivity|]. split; [exact (List.Forall_nil _)|]. intros i c Hnil. discriminate Hnil.
  - cbn [ControllerStream.sendChunks].
    destruct (Z.ltb_spec offset (Z.of_nat (length data))) as [Hlt|Hge].
    + cbv zeta.
      set (chunkLen := if mtu <? Z.of_nat (length data) - offset then mtu
                       else Z.of_nat (length data) - offset).
      assert (Hchunk : 0 < chunkLen <= mtu
                       /\ chunkLen <= Z.of_nat (length data) - offset
                       /\ (chunkLen < mtu ->
                           Z.of_nat (length data) <= offset + mtu)).
      { subst chunkLen.
        destruct (Z.ltb_spec mtu (Z.of_nat (length data) - offset)); lia. }
      rewrite u32_small by lia.
      destruct (IH (offset + mtu)
                  (ControllerStream.send s (Protocol.slice data offset chunkLen)))
        as (chunks & s' & Hrun & Hout & Heng & Hcat & Hsizes & Hfull); [lia|lia|].
      exists (Protocol.slice data offset chunkLen :: chunks), s'.
      assert (Hlen : Z.of_nat (length (Protocol.slice data offset chunkLen)) = chunkLen).
      { unfold Protocol.slice. rewrite length_take, length_drop. lia. }
      split; [exact Hrun|]. split; [rewrite Hout; cbn; rewrite <- app_assoc; reflexivity|].
      split; [exact Heng|]. split; [|split].
      * cbn [concat]. rewrite Hcat. unfold Protocol.slice.
        destruct (Z.ltb_spec mtu (Z.of_nat (length data) - offset)) as [Hmore|Hlast].
        -- subst chunkLen.
           replace (mtu <? Z.of_nat (length data) - offset) with true by zbool.
           replace (Z.to_nat (offset + mtu)) with (Z.to_nat offset + Z.to_nat mtu)%nat
             by lia.
           rewrite <- drop_drop. apply take_drop.
        -- rewrite (drop_ge data (Z.to_nat (offset + mtu))) by lia.
           rewrite app_nil_r. apply take_ge. rewrite length_drop. lia.
      * constructor; [lia | exact Hsizes].
      * intros [|i] c Hc Hnext.
        -- injection Hc as <-. rewrite Hlen.
           destruct (Z.eq_dec chunkLen mtu) as [|Hshort]; [assumption|].
           exfalso. destruct chunks as [|c2 chunks]; [cbn in Hnext; lia|].
           apply Forall_cons in Hsizes as [Hc2 _].
           assert (Hempty : drop (Z.to_nat (offset + mtu)) data = []).
           { apply drop_ge. lia. }
           rewrite Hempty in Hcat. cbn [concat] in Hcat.
           apply (f_equal length) in Hcat. rewrite length_app in Hcat.
           cbn [length] in Hcat. lia.
        -- apply (Hfull i c Hc). cbn [length] in Hnext. lia.
    + exists [], s. rewrite app_nil_r, drop_ge by lia.
      split; [reflexivity|]. split; [reflexivity|]. split; [reflexivity|].
      split; [reflexivity|]. split; [exact (List.Forall_nil _)|]. intros i c Hnil. discriminate Hnil.
Qed.

(** With an MTU of 0 the loop never advances. *)
Lemma sendChunks_mtu_0 (data : list Z) (fuel : nat) :
  forall s : ControllerStream.State,
  data <> [] -> ControllerStream.sendChunks 0 fuel data 0 s = None.
Proof.
  induction fuel as [|fuel IH]; intros s Hne; cbn [ControllerStream.sendChunks];
    (destruct (Z.ltb_spec 0 (Z.of_nat (length data))) as [_|Hlen];
     [|destruct data; [contradiction | cbn [length] in Hlen; lia]]).
  - reflexivity.
  - cbv zeta. change (u32 (0 + 0)) with 0. apply IH. exact Hne.
Qed.

Lemma sendRules_ok (mtu : Z) (s : ControllerStream.State) (fuel : nat) :
  let rules := Engine.getRulesetBinary (ControllerStream.engine_ s) in
  rules <> [] -> 0 < mtu -> Z.of_nat (length rules) + mtu <= 2 ^ 32 ->
  (length rules <= fuel)%nat ->
  exists chunks s',
    ControllerStream.sendRules mtu fuel s = Some s'
    /\ ControllerStream.outbox s'
       = ControllerStream.outbox s ++ [text "BEGIN"] ++ chunks
         ++ [ControllerStream.endMessage (length rules)
               (Engine.getRulesetCRC (ControllerStream.engine_ s))]
    /\ ControllerStream.engine_ s' = ControllerStream.engine_ s
    /\ concat chunks = rules
    /\ Forall (fun c => 0 < Z.of_nat (length c) <= mtu) chunks
    /\ (forall i c, chunks !! i = Some c -> (S i < length chunks)%nat ->
                    Z.of_nat (length c) = mtu).
Proof.
  cbv zeta. intros Hne Hmtu Hfit Hfuel.
  destruct (sendChunks_spec mtu (Engine.getRulesetBinary (ControllerStream.engine_ s))
              Hmtu Hfit fuel 0
              (ControllerStream.send s (text "BEGIN")) ltac:(lia) ltac:(lia))
    as (chunks & s1 & Hrun & Hout & Heng & Hcat & Hsizes & Hfull).
  exists chunks, (ControllerStream.send s1
                    (ControllerStream.endMessage
                       (length (Engine.getRulesetBinary (ControllerStream.engine_ s)))
                       (Engine.getRulesetCRC (ControllerStream.engine_ s)))).
  unfold ControllerStream.sendRules.
  destruct (Engine.getRulesetBinary (ControllerStream.engine_ s)) as [|b rules] eqn:Hr;
    [contradiction|].
  rewrite Hrun. cbn [mbind option_bind].
  split; [reflexivity|].
  split; [cbn [ControllerStream.send ControllerStream.outbox]; rewrite Hout;
          cbn [ControllerStream.send ControllerStream.outbox];
          rewrite <- !app_assoc; reflexivity|].
  split; [exact Heng|]. split; [exact Hcat|]. split; assumption.
Qed.

(** X11.  GET:RULES with a ruleset installed: when the transport's MTU is
    positive the chunk loop terminates, and the packets sent are BEGIN,
    then chunks whose concatenation is the retained binary, each non-empty
    and at most MTU bytes long and all but the last exactly MTU bytes, then
    the END message with the byte count and [rulesetCRC_]; the engine is
    not modified.  With an MTU of 0 the loop never terminates.  With no
    ruleset installed the single reply is ERR:NO_RULES. *)
Theorem sendRules_chunks (mtu : Z) (s : ControllerStream.State) :
  let rules := Engine.getRulesetBinary (ControllerStream.engine_ s) in
  (rules <> [] -> 0 < mtu -> Z.of_nat (length rules) + mtu <= 2 ^ 32 ->
   forall fuel, (length rules <= fuel)%nat ->
   exists chunks s',
     ControllerStream.sendRules mtu fuel s = Some s'
     /\ ControllerStream.outbox s'
        = ControllerStream.outbox s ++ [text "BEGIN"] ++ chunks
          ++ [ControllerStream.endMessage (length rules)
                (Engine.getRulesetCRC (ControllerStream.engine_ s))]
     /\ ControllerStream.engine_ s' = ControllerStream.engine_ s
     /\ concat chunks = rules
     /\ Forall (fun c => 0 < Z.of_nat (length c) <= mtu) chunks
     /\ (forall i c, chunks !! i = Some c -> (S i < length chunks)%nat ->
                     Z.of_nat (length c) = mtu))
  /\ (rules <> [] -> forall fuel, ControllerStream.sendRules 0 fuel s = None)
  /\ (rules = [] ->
      forall fuel,
        ControllerStream.sendRules mtu fuel s
        = Some (ControllerStream.send s (text "ERR:NO_RULES"))).
Proof.
  cbv zeta. split; [|split].
  - intros Hne Hmtu Hfit fuel Hfuel.
    exact (sendRules_ok mtu s fuel Hne Hmtu Hfit Hfuel).
  - intros Hne fuel. unfold ControllerStream.sendRules.
    destruct (Engine.getRulesetBinary (ControllerStream.engine_ s)) as [|b rules] eqn:Hr;
      [contradiction|].
    rewrite sendChunks_mtu_0 by discriminate. reflexivity.
  - intros Hempty fuel. unfold ControllerStream.sendRules. rewrite Hempty. reflexivity.
Qed.

Lemma sendRules_chunks_witness :
  let e := fst (Engine.loadRuleset (Fixtures.engine_with "log") Fixtures.timed_rule) in
  let s := ControllerStream.set_engine ControllerStream.init e in
  Engine.getRulesetBinary e <> []
  /\ exists chunks s',
       ControllerStream.sendRules 20 74 s = Some s'
       /\ concat chunks = Fixtures.timed_rule
       /\ Forall (fun c => 0 < Z.of_nat (length c) <= 20) chunks
       /\ ControllerStream.outbox s'
          = [text "BEGIN"] ++ chunks ++ [text "END:74:2618058903"].
Proof.
  cbv zeta.
  set (s := ControllerStream.set_engine ControllerStream.init
              (fst (Engine.loadRuleset (Fixtures.engine_with "log") Fixtures.timed_rule))).
  assert (Hne : Engine.getRulesetBinary (ControllerStream.engine_ s) <> [])
    by (vm_compute; discriminate).
  split; [exact Hne|].
  destruct (proj1 (sendRules_chunks 20 s) Hne ltac:(lia) ltac:(vm_compute; discriminate)
              74%nat ltac:(vm_compute; lia))
    as (chunks & s' & Hrun & Hout & _ & Hcat & Hsizes & _).
  exists chunks, s'. split; [exact Hrun|]. split; [exact Hcat|].
  split; [exact Hsizes | exact Hout].
Defined.

(** ** Download, upload and persistence fit together *)

Lemma firstUnknown_registered (handlers : gmap string Handler)
    (acts : list RuntimeAction) :
  Forall (fun a => is_Some (handlers !! capabilityId a)) acts ->
  Engine.firstUnknown handlers acts = None.
Proof.
  intros Hall. unfold Engine.firstUnknown.
  destruct (List.find _ acts) as [a|] eqn:Hfind; [|reflexivity].
  apply List.find_some in Hfind as [Hin Hp].
  apply bool_decide_eq_true in Hp.
  apply list_elem_of_In in Hin.
  pose proof (proj1 (Forall_forall _ _) Hall a Hin) as [h Hh]. congruence.
Qed.

(** Installing the binary an engine retains, on an engine that knows the
    capabilities the first one uses, succeeds and yields the same
    definitions. *)
Lemma loadRuleset_retained (e e2 : Engine.State) :
  Reachable e ->
  Engine.getRulesetBinary e <> [] ->
  Forall (fun a => is_Some (Engine.handlers_ e2 !! capabilityId a)) (Engine.actions_ e) ->
  let r := Engine.loadRuleset e2 (Engine.getRulesetBinary e) in
  snd r = true
  /\ Engine.getRulesetBinary (fst r) = Engine.getRulesetBinary e
  /\ Engine.getRulesetCRC (fst r) = Engine.getRulesetCRC e
  /\ signalDef <$> Engine.signals_ (fst r) = signalDef <$> Engine.signals_ e
  /\ conditionDef <$> Engine.conditions_ (fst r) = conditionDef <$> Engine.conditions_ e
  /\ Engine.actions_ (fst r) = Engine.actions_ e
  /\ ruleDef <$> Engine.rules_ (fst r) = ruleDef <$> Engine.rules_ e.
Proof.
  intros Hreach Hne Hhand. cbv zeta.
  destruct (Reachable_RulesetInv e Hreach) as [Hinst _].
  unfold Engine.getRulesetBinary, Engine.getRulesetCRC in *.
  unfold Engine.loadRuleset.
  destruct (Protocol.parseRules (Engine.rulesetBinary_ e)) as [err|t] eqn:Hparse.
  { destruct Hinst as [Hnil _]. contradiction. }
  destruct Hinst as [(S1 & S2 & S3 & S4) Hcrc].
  rewrite <- S3, (firstUnknown_registered _ _ Hhand).
  cbn. repeat split; congruence.
Qed.

(** X12.  What GET:RULES sends can be uploaded again.  Let one controller,
    whose engine is in a reachable state with a ruleset installed, answer
    GET:RULES over a transport with positive MTU, and let a second, idle
    controller on which the capabilities used by those rules are registered
    receive SET:RULES:RAM with the byte count and CRC of the END message,
    then the chunks as sent (none of them being the END marker), then END.
    The second controller accepts without any reply, reports rules mode 1,
    and its engine retains the same binary and CRC and holds the same
    signal, condition, action and rule definitions as the first. *)
Theorem downloaded_rules_upload_again (isEnd : list Z -> bool)
    (decode : list Z -> ControllerStream.Command)
    (scanDefs : list Z -> list DebugDef) (mtu : Z) (fuel : nat) (write_ok : bool)
    (profile : list Z) (a b : ControllerStream.State) (cmd endPkt : list Z) :
  let ea := ControllerStream.engine_ a in
  let rules := Engine.getRulesetBinary ea in
  Reachable ea ->
  rules <> [] ->
  0 < mtu -> Z.of_nat (length rules) + mtu <= 2 ^ 32 -> (length rules <= fuel)%nat ->
  ControllerStream.streamType_ b = ControllerStream.NONE ->
  decode cmd = ControllerStream.SET_RULES_RAM_len_crc (Z.of_nat (length rules))
                 (Engine.getRulesetCRC ea) ->
  isEnd endPkt = true ->
  Forall (fun act => is_Some (Engine.handlers_ (ControllerStream.engine_ b)
                                !! capabilityId act)) (Engine.actions_ ea) ->
  exists chunks a',
    ControllerStream.sendRules mtu fuel a = Some a'
    /\ ControllerStream.outbox a'
       = ControllerStream.outbox a ++ [text "BEGIN"] ++ chunks
         ++ [ControllerStream.endMessage (length rules) (Engine.getRulesetCRC ea)]
    /\ (Forall (fun c => isEnd c = false) chunks ->
        exists b',
          ControllerStream.receiveAll isEnd decode scanDefs mtu fuel write_ok profile b
            (cmd :: chunks ++ [endPkt]) = Some b'
          /\ ControllerStream.outbox b' = ControllerStream.outbox b
          /\ ControllerStream.rulesMode_ b' = 1
          /\ ControllerStream.streamType_ b' = ControllerStream.NONE
          /\ Engine.getRulesetBinary (ControllerStream.engine_ b') = rules
          /\ Engine.getRulesetCRC (ControllerStream.engine_ b') = Engine.getRulesetCRC ea
          /\ signalDef <$> Engine.signals_ (ControllerStream.engine_ b')
             = signalDef <$> Engine.signals_ ea
          /\ conditionDef <$> Engine.conditions_ (ControllerStream.engine_ b')
             = conditionDef <$> Engine.conditions_ ea
          /\ Engine.actions_ (ControllerStream.engine_ b') = Engine.actions_ ea
          /\ ruleDef <$> Engine.rules_ (ControllerStream.engine_ b')
             = ruleDef <$> Engine.rules_ ea).
Proof.
  cbv zeta. intros Hreach Hne Hmtu Hfit Hfuel Hidle Hcmd Hend Hhand.
  destruct (sendRules_ok mtu a fuel Hne Hmtu Hfit Hfuel)
    as (chunks & a' & Hsend & Hout & _ & Hcat & _).
  exists chunks, a'. split; [exact Hsend|]. split; [exact Hout|].
  intros Hchunks.
  eexists. split.
  { exact (receiveAll_upload isEnd decode scanDefs mtu fuel write_ok profile b false cmd
             _ _ chunks endPkt Hidle Hcmd Hchunks Hend). }
  destruct (finalizeStream_rules scanDefs write_ok b false (concat chunks)
              (Z.of_nat (length (Engine.getRulesetBinary (ControllerStream.engine_ a))))
              (Engine.getRulesetCRC (ControllerStream.engine_ a)))
    as (Hty & _ & _ & _ & Hok).
  cbv zeta in Hok. rewrite Hcat in *.
  destruct (Reachable_RulesetInv _ Hreach) as [Hinst _].
  assert (Hcrc : Protocol.calculateCRC32
                   (Engine.getRulesetBinary (ControllerStream.engine_ a))
                 = Engine.getRulesetCRC (ControllerStream.engine_ a)).
  { unfold Engine.getRulesetBinary, Engine.getRulesetCRC in *.
    destruct (Protocol.parseRules (Engine.rulesetBinary_ (ControllerStream.engine_ a))).
    - destruct Hinst as [Hnil _]. contradiction.
    - destruct Hinst as [_ ->]. reflexivity. }
  destruct (Hok eq_refl Hcrc) as (Heng & Hsucc & _).
  destruct (loadRuleset_retained _ (ControllerStream.engine_ b) Hreach Hne Hhand)
    as (Hload & H1 & H2 & H3 & H4 & H5 & H6).
  destruct (Hsucc Hload) as (Hbox & Hmode & _).
  rewrite Heng. repeat split; assumption.
Qed.

Lemma downloaded_rules_upload_again_witness :
  let isEnd := isEND in
  let ea := fst (Engine.loadRuleset (Fixtures.engine_with "log") Fixtures.timed_rule) in
  let a := ControllerStream.set_engine ControllerStream.init ea in
  let b := ControllerStream.set_engine ControllerStream.init (Fixtures.engine_with "log") in
  let decode := fun _ : list Z =>
    ControllerStream.SET_RULES_RAM_len_crc
      (Z.of_nat (length (Engine.getRulesetBinary ea))) (Engine.getRulesetCRC ea) in
  Reachable ea
  /\ Engine.getRulesetBinary ea = Fixtures.timed_rule
  /\ exists chunks a',
       ControllerStream.sendRules 20 74 a = Some a'
       /\ (Forall (fun c => isEnd c = false) chunks ->
           exists b',
             ControllerStream.receiveAll isEnd decode (fun _ => []) 20 74 false [] b
               (text "SET:RULES:RAM" :: chunks ++ [text "END"]) = Some b'
             /\ Engine.getRulesetBinary (ControllerStream.engine_ b')
                = Engine.getRulesetBinary ea).
Proof.
  cbv zeta.
  set (ea := fst (Engine.loadRuleset (Fixtures.engine_with "log") Fixtures.timed_rule)).
  assert (Hreach : Reachable ea)
    by apply reach_loadRuleset, reach_registerCapability, reach_init.
  assert (Hbin : Engine.getRulesetBinary ea = Fixtures.timed_rule)
    by (vm_compute; reflexivity).
  assert (Hne : Engine.getRulesetBinary ea <> [])
    by (rewrite Hbin; vm_compute; discriminate).
  assert (Hfit : Z.of_nat (length (Engine.getRulesetBinary ea)) + 20 <= 2 ^ 32)
    by (rewrite Hbin; vm_compute; discriminate).
  assert (Hfuel : (length (Engine.getRulesetBinary ea) <= 74)%nat)
    by (rewrite Hbin; vm_compute; lia).
  assert (Hhand : Forall (fun act => is_Some (Engine.handlers_ (Fixtures.engine_with "log")
                                                !! capabilityId act))
                    (Engine.actions_ ea)).
  { assert (Hacts : Engine.actions_ ea = [mkAction "log" []])
      by (vm_compute; reflexivity).
    rewrite Hacts. repeat constructor. vm_compute. eauto. }
  split; [exact Hreach|]. split; [exact Hbin|].
  destruct (downloaded_rules_upload_again
              isEND
              (fun _ => ControllerStream.SET_RULES_RAM_len_crc
                          (Z.of_nat (length (Engine.getRulesetBinary ea)))
                          (Engine.getRulesetCRC ea))
              (fun _ => []) 20 74 false []
              (ControllerStream.set_engine ControllerStream.init ea)
              (ControllerStream.set_engine ControllerStream.init
                 (Fixtures.engine_with "log"))
              (text "SET:RULES:RAM") (text "END")
              Hreach Hne ltac:(lia) Hfit Hfuel eq_refl eq_refl eq_refl Hhand)
    as (chunks & a' & Hsend & _ & Hup).
  exists chunks, a'. split; [exact Hsend|].
  intros Hchunks. destruct (Hup Hchunks) as (b' & Hrecv & _ & _ & _ & Hb & _).
  exists b'. split; [exact Hrecv | exact Hb].
Defined.

(** X13.  A ruleset saved to storage and the next boot.  Let [s0] be a
    controller whose storage holds the blob that [saveRulesToNvs] wrote for a
    reachable engine with a ruleset installed.  If every capability used by
    the rules is registered when [loadRulesFromNvs] runs, the rules mode
    becomes 2 and the engine holds the same definitions, binary and CRC as
    the engine that saved them.  If no capability is registered at that
    moment and the ruleset has an action, the load is refused: the rules
    mode is 0, the four tables in use, the signal map, the retained binary
    and its CRC stay as they were and [getUnknownCapability] names the
    first action's capability; the blob stays in storage.  If the blob cannot be read back, the rules mode is 0
    and the engine is not touched. *)
Theorem saved_rules_at_boot (s s0 : ControllerStream.State) :
  let e := ControllerStream.engine_ s in
  Reachable e ->
  Engine.getRulesetBinary e <> [] ->
  ControllerStream.rules_bin s0
  = ControllerStream.rules_bin (ControllerStream.saveRulesToNvs true s) ->
  let s1 := ControllerStream.loadRulesFromNvs true s0 in
  let e1 := ControllerStream.engine_ s1 in
  ControllerStream.rules_bin s0 = Engine.getRulesetBinary e
  /\ (Forall (fun act => is_Some (Engine.handlers_ (ControllerStream.engine_ s0)
                                    !! capabilityId act)) (Engine.actions_ e) ->
      ControllerStream.rulesMode_ s1 = 2
      /\ Engine.getRulesetBinary e1 = Engine.getRulesetBinary e
      /\ Engine.getRulesetCRC e1 = Engine.getRulesetCRC e
      /\ signalDef <$> Engine.signals_ e1 = signalDef <$> Engine.signals_ e
      /\ conditionDef <$> Engine.conditions_ e1 = conditionDef <$> Engine.conditions_ e
      /\ Engine.actions_ e1 = Engine.actions_ e
      /\ ruleDef <$> Engine.rules_ e1 = ruleDef <$> Engine.rules_ e)
  /\ (forall act rest,
        Engine.actions_ e = act :: rest ->
        Engine.handlers_ (ControllerStream.engine_ s0) = ∅ ->
        ControllerStream.rulesMode_ s1 = 0
        /\ ControllerStream.rules_bin s1 = ControllerStream.rules_bin s0
        /\ Engine.getUnknownCapability e1 = capabilityId act
        /\ Engine.signals_ e1 = Engine.signals_ (ControllerStream.engine_ s0)
        /\ Engine.conditions_ e1 = Engine.conditions_ (ControllerStream.engine_ s0)
        /\ Engine.actions_ e1 = Engine.actions_ (ControllerStream.engine_ s0)
        /\ Engine.rules_ e1 = Engine.rules_ (ControllerStream.engine_ s0)
        /\ Engine.signalMap_ e1 = Engine.signalMap_ (ControllerStream.engine_ s0)
        /\ Engine.getRulesetBinary e1
           = Engine.getRulesetBinary (ControllerStream.engine_ s0)
        /\ Engine.getRulesetCRC e1
           = Engine.getRulesetCRC (ControllerStream.engine_ s0))
  /\ ControllerStream.loadRulesFromNvs false s0 = ControllerStream.set_rulesMode s0 0.
Proof.
  cbv zeta. intros Hreach Hne Hblob.
  assert (Hsaved : ControllerStream.rules_bin s0
                   = Engine.getRulesetBinary (ControllerStream.engine_ s)).
  { rewrite Hblob. unfold ControllerStream.saveRulesToNvs.
    destruct (Engine.getRulesetBinary (ControllerStream.engine_ s)) eqn:Hb;
      [contradiction | reflexivity]. }
  split; [exact Hsaved|].
  assert (Hload : forall read_ok,
            ControllerStream.loadRulesFromNvs read_ok s0
            = if negb read_ok then ControllerStream.set_rulesMode s0 0
              else
                let r := Engine.loadRuleset (ControllerStream.engine_ s0)
                           (Engine.getRulesetBinary (ControllerStream.engine_ s)) in
                if snd r
                then ControllerStream.set_rulesMode
                       (ControllerStream.set_engine s0 (fst r)) 2
                else ControllerStream.set_rulesMode
                       (ControllerStream.set_engine s0 (fst r)) 0).
  { intros read_ok. unfold ControllerStream.loadRulesFromNvs. rewrite Hsaved.
    destruct (Engine.getRulesetBinary (ControllerStream.engine_ s)) eqn:Hb;
      [contradiction | reflexivity]. }
  rewrite !Hload. cbn [negb]. cbv zeta. clear Hload Hblob.
  split; [|split; [|reflexivity]].
  - intros Hhand.
    destruct (loadRuleset_retained _ (ControllerStream.engine_ s0) Hreach Hne Hhand)
      as (Hok & H1 & H2 & H3 & H4 & H5 & H6).
    rewrite Hok. cbn [ControllerStream.set_rulesMode ControllerStream.set_engine
                      ControllerStream.engine_ ControllerStream.rulesMode_].
    repeat split; assumption.
  - intros act rest Hacts Hnone.
    destruct (Reachable_RulesetInv _ Hreach) as [Hinst _].
    unfold Engine.getRulesetBinary in *. unfold Engine.loadRuleset.
    destruct (Protocol.parseRules (Engine.rulesetBinary_ (ControllerStream.engine_ s)))
      as [err|t]; [destruct Hinst as [Hnil _]; contradiction|].
    destruct Hinst as [(_ & _ & S3 & _) _]. rewrite <- S3, Hacts.
    unfold Engine.firstUnknown. cbn [List.find]. rewrite Hnone, lookup_empty.
    rewrite bool_decide_eq_true_2 by reflexivity.
    cbn. repeat split; reflexivity.
Qed.

Lemma saved_rules_at_boot_witness :
  let e := fst (Engine.loadRuleset (Fixtures.engine_with "log") Fixtures.timed_rule) in
  let s := ControllerStream.set_engine ControllerStream.init e in
  let s0 := ControllerStream.set_rules_bin ControllerStream.init Fixtures.timed_rule in
  Reachable e
  /\ ControllerStream.rules_bin s0
     = ControllerStream.rules_bin (ControllerStream.saveRulesToNvs true s)
  /\ Engine.handlers_ (ControllerStream.engine_ s0) = ∅
  /\ ControllerStream.rulesMode_ (ControllerStream.loadRulesFromNvs true s0) = 0
  /\ Engine.getUnknownCapability
       (ControllerStream.engine_ (ControllerStream.loadRulesFromNvs true s0))
     = "log"%string
  /\ Engine.conditions_
       (ControllerStream.engine_ (ControllerStream.loadRulesFromNvs true s0))
     = Engine.conditions_ (ControllerStream.engine_ s0)
  /\ Engine.actions_
       (ControllerStream.engine_ (ControllerStream.loadRulesFromNvs true s0))
     = Engine.actions_ (ControllerStream.engine_ s0).
Proof.
  cbv zeta.
  set (e := fst (Engine.loadRuleset (Fixtures.engine_with "log") Fixtures.timed_rule)).
  assert (Hreach : Reachable e)
    by apply reach_loadRuleset, reach_registerCapability, reach_init.
  assert (Hblob : ControllerStream.rules_bin
                    (ControllerStream.set_rules_bin ControllerStream.init
                       Fixtures.timed_rule)
                  = ControllerStream.rules_bin
                      (ControllerStream.saveRulesToNvs true
                         (ControllerStream.set_engine ControllerStream.init e)))
    by (vm_compute; reflexivity).
  split; [exact Hreach|]. split; [exact Hblob|]. split; [reflexivity|].
  destruct (saved_rules_at_boot
              (ControllerStream.set_engine ControllerStream.init e)
              (ControllerStream.set_rules_bin ControllerStream.init Fixtures.timed_rule)
              Hreach ltac:(vm_compute; discriminate) Hblob)
    as (_ & _ & Hrefused & _).
  destruct (Hrefused (mkAction "log" []) [] ltac:(vm_compute; reflexivity) eq_refl)
    as (Hmode & _ & Hcap & _ & Hconds & Hacts & _).
  split; [exact Hmode|]. split; [exact Hcap|]. split; [exact Hconds | exact Hacts].
Defined.


(** ** Firmware sessions: failure is final until [abort] *)

(** X14.  A firmware session that has left RECEIVING stays closed.  In a
    state that is neither IDLE nor RECEIVING (any error state, SUCCESS,
    VALIDATING, APPLYING), [startFirmwareUpdate], [writeFirmwareChunk] and
    [finalizeFirmwareUpdate] all return false and change nothing, whatever
    the flash routines would answer.  Every failing write or finalize of a
    receiving full-image session leads to such a state: a chunk that would
    exceed the announced size closes the session with ERROR_SPACE before
    anything is written.  Only [abort] reopens the service: it returns to
    IDLE with the byte count and running CRC cleared, after which a new
    session can start. *)
Theorem closed_session_stays_closed (s : ESP32OTAService.State) :
  (OtaLifecycle.closed s ->
   (forall partition begin size crc,
      ESP32OTAService.startFirmwareUpdate partition begin s size crc = (s, false))
   /\ (forall write_ok data,
         ESP32OTAService.writeFirmwareChunk write_ok s data = (s, false))
   /\ (forall end_ok boot_ok,
         ESP32OTAService.finalizeFirmwareUpdate end_ok boot_ok s = (s, false)))
  /\ (ESP32OTAService.status_ s = RECEIVING -> ESP32OTAService.isDelta_ s = false ->
      (forall write_ok data s',
         ESP32OTAService.writeFirmwareChunk write_ok s data = (s', false) ->
         OtaLifecycle.closed s'
         /\ (ESP32OTAService.expectedSize_ s
             < u32 (ESP32OTAService.receivedBytes_ s + Z.of_nat (length data)) ->
             ESP32OTAService.status_ s' = ERROR_SPACE
             /\ ESP32OTAService.receivedBytes_ s' = ESP32OTAService.receivedBytes_ s))
      /\ (forall end_ok boot_ok s',
            ESP32OTAService.finalizeFirmwareUpdate end_ok boot_ok s = (s', false) ->
            OtaLifecycle.closed s'))
  /\ (ESP32OTAService.status_ (OtaLifecycle.abort s) = IDLE
      /\ (ESP32OTAService.status_ s <> IDLE ->
          ESP32OTAService.receivedBytes_ (OtaLifecycle.abort s) = 0
          /\ ESP32OTAService.calculatedCRC_ (OtaLifecycle.abort s) = 0
          /\ ESP32OTAService.otaHandle_ (OtaLifecycle.abort s) = 0)
      /\ forall partition h size crc,
           size <= partition ->
           snd (ESP32OTAService.startFirmwareUpdate (Some partition) (Some h)
                  (OtaLifecycle.abort s) size crc) = true).
Proof.
  split; [|split].
  - unfold OtaLifecycle.closed. intros [Hidle Hrecv]. split; [|split]; intros.
    + unfold ESP32OTAService.startFirmwareUpdate.
      destruct (ESP32OTAService.status_ s); try contradiction; reflexivity.
    + unfold ESP32OTAService.writeFirmwareChunk.
      destruct (ESP32OTAService.status_ s); try contradiction; reflexivity.
    + unfold ESP32OTAService.finalizeFirmwareUpdate.
      destruct (ESP32OTAService.status_ s); try contradiction; reflexivity.
  - intros Hst Hfull. split.
    + intros write_ok data s' Hw.
      unfold ESP32OTAService.writeFirmwareChunk in Hw. cbv zeta in Hw.
      rewrite Hst, Hfull in Hw. cbn [ESP32OTAService.OTAStatus_eqb negb orb] in Hw.
      destruct (Z.ltb_spec (ESP32OTAService.expectedSize_ s)
                  (u32 (ESP32OTAService.receivedBytes_ s + Z.of_nat (length data))))
        as [Hover|Hfits].
      * injection Hw as <-. unfold OtaLifecycle.closed. rewrite !notifyComplete_status.
        split; [split; discriminate|]. intros _. split; [reflexivity|].
        unfold ESP32OTAService.notifyComplete.
        destruct (ESP32OTAService.completeCb_ _); reflexivity.
      * destruct write_ok; cbn [negb] in Hw; [discriminate Hw|].
        injection Hw as <-. unfold OtaLifecycle.closed. rewrite !notifyComplete_status.
        split; [split; discriminate|]. intros Hover. lia.
    + intros end_ok boot_ok s' Hf.
      unfold ESP32OTAService.finalizeFirmwareUpdate in Hf. cbv zeta in Hf.
      rewrite Hst, Hfull in Hf. cbn [ESP32OTAService.OTAStatus_eqb negb orb] in Hf.
      repeat match type of Hf with
             | (if ?c then _ else _) = _ => destruct c
             end;
        try discriminate Hf; injection Hf as <-; unfold OtaLifecycle.closed;
        rewrite !notifyComplete_status;
        split; discriminate.
  - unfold OtaLifecycle.abort. split; [|split].
    + destruct (ESP32OTAService.status_ s) eqn:Hst; cbn; try reflexivity. exact Hst.
    + intros Hne. destruct (ESP32OTAService.status_ s) eqn:Hst; cbn;
        try (repeat split; reflexivity). contradiction.
    + intros partition h size crc Hfit.
      unfold ESP32OTAService.startFirmwareUpdate.
      replace (ESP32OTAService.OTAStatus_eqb
                 (ESP32OTAService.status_
                    (if ESP32OTAService.OTAStatus_eqb (ESP32OTAService.status_ s) IDLE
                     then s else _)) IDLE) with true.
      2:{ destruct (ESP32OTAService.status_ s) eqn:Hst; cbn; rewrite ?Hst; reflexivity. }
      cbn [negb]. replace (partition <? size) with false by zbool. reflexivity.
Qed.

(** ** Progress reports *)

(** X15.  Progress reports of a full-image session.  While the announced
    size [N] is positive and [100 * N] fits 32 bits, every accepted chunk
    of a session with a progress callback produces exactly one report: it
    carries the number of bytes accepted so far, which never exceeds [N],
    the total [N], and the percentage [100 * bytes / N] rounded down, which
    never exceeds 100.  Without a callback, or for an announced size of 0,
    an accepted chunk reports nothing. *)
Theorem progress_reports (N C : Z) (bs : list Z) (s : ESP32OTAService.State)
    (write_ok : bool) (data : list Z) (s' : ESP32OTAService.State) :
  0 <= N -> N * 100 < 2 ^ 32 ->
  ESP32OTAService.FullSession N C bs s ->
  Z.of_nat (length (bs ++ data)) < 2 ^ 32 ->
  ESP32OTAService.writeFirmwareChunk write_ok s data = (s', true) ->
  let total := Z.of_nat (length (bs ++ data)) in
  total <= N
  /\ ESP32OTAService.events s'
     = ESP32OTAService.events s
       ++ (if ESP32OTAService.progressCb_ s && (0 <? N)
           then [Progress total N (total * 100 / N)] else [])
  /\ (0 < N -> 0 <= total * 100 / N <= 100).
Proof.
  intros HN Hpct Hsess Hlen Hwrite. cbv zeta.
  pose proof (ESP32OTAService.session_write N C bs s write_ok data s' Hsess Hlen Hwrite)
    as Hsess'.
  destruct (FullSession_state N C bs s ltac:(lia) Hsess)
    as (Hst & Hd & Hsz & _ & Hrecv & _ & _).
  destruct (FullSession_state N C _ s' ltac:(lia) Hsess')
    as (_ & _ & _ & _ & Hrecv' & _ & Hle).
  split; [exact Hle|].
  assert (Hdiv : 0 < N -> 0 <= Z.of_nat (length (bs ++ data)) * 100 / N <= 100).
  { intros Hpos. split; [apply Z.div_pos; lia|].
    apply Z.div_le_upper_bound; lia. }
  split; [|exact Hdiv].
  unfold ESP32OTAService.writeFirmwareChunk in Hwrite. cbv zeta in Hwrite.
  rewrite Hst, Hd in Hwrite. cbn [ESP32OTAService.OTAStatus_eqb negb orb] in Hwrite.
  destruct (_ <? _); [discriminate Hwrite|].
  destruct write_ok; cbn [negb] in Hwrite; [|discriminate Hwrite].
  injection Hwrite as <-.
  unfold ESP32OTAService.notifyProgress.
  cbn [ESP32OTAService.set_progress ESP32OTAService.progressCb_
       ESP32OTAService.expectedSize_ ESP32OTAService.receivedBytes_].
  rewrite Hsz, Hrecv.
  destruct (ESP32OTAService.progressCb_ s); cbn [andb];
    [|rewrite app_nil_r; reflexivity].
  destruct (Z.ltb_spec 0 N) as [Hpos|Hzero]; [|rewrite app_nil_r; reflexivity].
  cbn [ESP32OTAService.emit ESP32OTAService.events ESP32OTAService.set_progress].
  rewrite length_app, Nat2Z.inj_add in *.
  rewrite (u32_small (Z.of_nat (length bs) + Z.of_nat (length data))) by lia.
  rewrite (u32_small (_ * 100)) by lia.
  specialize (Hdiv Hpos).
  unfold u8. rewrite Z.mod_small by lia. reflexivity.
Qed.

Lemma progress_reports_witness :
  let C := esp_crc32_le 0 [1; 2; 3; 4] in
  let s0 := fst (ESP32OTAService.startFirmwareUpdate (Some 0x100000) (Some 1)
                   (OtaLifecycle.setProgressCallback ESP32OTAService.init) 4 C) in
  let s1 := fst (ESP32OTAService.writeFirmwareChunk true s0 [1; 2; 3]) in
  ESP32OTAService.FullSession 4 C [] s0
  /\ ESP32OTAService.writeFirmwareChunk true s0 [1; 2; 3] = (s1, true)
  /\ ESP32OTAService.events s1 = [Progress 3 4 75].
Proof.
  cbv zeta.
  set (C := esp_crc32_le 0 [1; 2; 3; 4]).
  set (s0 := fst (ESP32OTAService.startFirmwareUpdate (Some 0x100000) (Some 1)
                    (OtaLifecycle.setProgressCallback ESP32OTAService.init) 4 C)).
  assert (Hsess : ESP32OTAService.FullSession 4 C [] s0).
  { refine (ESP32OTAService.session_start 4 C (Some 0x100000) (Some 1)
              (OtaLifecycle.setProgressCallback ESP32OTAService.init) s0 _).
    vm_compute. reflexivity. }
  assert (Hw : ESP32OTAService.writeFirmwareChunk true s0 [1; 2; 3]
               = (fst (ESP32OTAService.writeFirmwareChunk true s0 [1; 2; 3]), true))
    by (vm_compute; reflexivity).
  split; [exact Hsess|]. split; [exact Hw|].
  destruct (progress_reports 4 C [] s0 true [1; 2; 3] _ ltac:(lia) ltac:(lia) Hsess
              ltac:(cbn; lia) Hw) as (_ & Hev & _).
  rewrite Hev. vm_compute. reflexivity.
Defined.

(** ** The string table of the serializer reads back *)

Lemma text_length (s : string) : length (text s) = String.length s.
Proof.
  unfold text. rewrite length_fmap.
  induction s as [|c s IH]; cbn; [reflexivity | rewrite IH; reflexivity].
Qed.

Lemma string_of_bytes_text (s : string) : string_of_bytes (text s) = s.
Proof.
  unfold text, string_of_bytes.
  induction s as [|c s IH]; cbn [list_ascii_of_string fmap list_fmap fold_right];
    [reflexivity|].
  fold (@fmap list _ _ _ (fun c => Z.of_N (N_of_ascii c)) (list_ascii_of_string s)).
  rewrite IH. f_equal.
  pose proof (N_ascii_bounded c) as Hb.
  unfold u8. rewrite Z.mod_small by lia.
  rewrite N2Z.id. apply ascii_N_embedding.
Qed.

Lemma text_nonzero (s : string) :
  NULfree s -> Forall (fun b => u8 b <> 0) (text s).
Proof.
  unfold NULfree, text. intros H. apply Forall_fmap.
  eapply Forall_impl; [exact H|]. intros c Hc. unfold compose. cbv beta.
  pose proof (N_ascii_bounded c) as Hb.
  unfold u8. rewrite Z.mod_small by lia.
  intros Hz. apply Hc.
  rewrite <- (ascii_N_embedding c).
  replace (N_of_ascii c) with 0%N by lia. reflexivity.
Qed.

(** [strnlen] stops at the first NUL. *)
Lemma strn_terminated (bs rest : list Z) (n : nat) :
  Forall (fun b => u8 b <> 0) bs -> (length bs < n)%nat ->
  Protocol.strn (bs ++ 0 :: rest) n = bs.
Proof.
  revert n. induction bs as [|b bs IH]; intros n Hnz Hlen.
  - destruct n; [cbn in Hlen; lia|]. reflexivity.
  - apply Forall_cons in Hnz as [Hb Hnz].
    destruct n; [cbn in Hlen; lia|].
    cbn [app Protocol.strn].
    destruct (Z.eqb_spec (u8 b) 0); [contradiction|].
    rewrite IH; [reflexivity | exact Hnz | cbn in Hlen; lia].
Qed.

(** A NUL-terminated string inside the table is read back whole. *)
Lemma readString_at (pre bs tail : list Z) (tableOff offset tableLen : Z) :
  0 <= tableOff -> 0 <= offset ->
  tableOff + offset = Z.of_nat (length pre) ->
  Forall (fun b => u8 b <> 0) bs ->
  offset + Z.of_nat (length bs) < tableLen ->
  Protocol.readStringFromTable (pre ++ bs ++ 0 :: tail) tableOff offset tableLen
  = string_of_bytes bs.
Proof.
  intros Hoff Ho Hpre Hnz Hin. unfold Protocol.readStringFromTable.
  replace (tableLen <=? offset) with false by zbool. cbv zeta.
  rewrite Hpre, Nat2Z.id, drop_app_length.
  rewrite strn_terminated; [|exact Hnz|lia].
  replace (Z.of_nat (length bs) =? tableLen - offset) with false by zbool.
  reflexivity.
Qed.

Lemma write_app (strings : list string) (str : string) :
  flat_map tableEntry (strings ++ [str])
  = flat_map tableEntry strings ++ tableEntry str.
Proof. rewrite flat_map_app. cbn. rewrite app_nil_r. reflexivity. Qed.

Lemma tableEntry_length (str : string) :
  Z.of_nat (length (tableEntry str)) = StringTableBuilder.strlen str + 1.
Proof.
  unfold tableEntry, StringTableBuilder.strlen.
  rewrite length_app, text_length. cbn. lia.
Qed.

Lemma TableInv_empty : TableInv StringTableBuilder.empty.
Proof.
  split; [reflexivity|]. split; [cbn; lia|].
  intros str off H. cbn in H. rewrite lookup_empty in H. discriminate.
Qed.

(** What one [add] does to a consistent builder; a string held in memory
    is shorter than [2^31]. *)
Lemma add_spec (b : StringTableBuilder.State) (str : string) :
  TableInv b ->
  StringTableBuilder.strlen str < 2 ^ 31 ->
  let r := StringTableBuilder.add b str in
  TableInv (fst r)
  /\ (forall s off, StringTableBuilder.indexMap_ b !! s = Some off ->
                    StringTableBuilder.indexMap_ (fst r) !! s = Some off)
  /\ (is_Some (StringTableBuilder.indexMap_ b !! str)
      \/ StringTableBuilder.size b + StringTableBuilder.strlen str + 1 <= 0xFFF0 ->
      StringTableBuilder.indexMap_ (fst r) !! str = Some (snd r))
  /\ (StringTableBuilder.indexMap_ b !! str = None ->
      0xFFF0 < StringTableBuilder.size b + StringTableBuilder.strlen str + 1 ->
      r = (b, 0))
  /\ StringTableBuilder.size b <= StringTableBuilder.size (fst r)
     <= StringTableBuilder.size b + StringTableBuilder.strlen str + 1.
Proof.
  intros (Hoff & Hmax & Hmap) Hmem. cbv zeta.
  assert (Hlen0 : 0 <= StringTableBuilder.strlen str)
    by (unfold StringTableBuilder.strlen; lia).
  assert (Hoff0 : 0 <= StringTableBuilder.currentOffset_ b) by lia.
  unfold StringTableBuilder.add, StringTableBuilder.size.
  rewrite u32_small by lia.
  destruct (StringTableBuilder.indexMap_ b !! str) as [off|] eqn:Hfind.
  - cbn [fst snd]. split; [repeat split; assumption|].
    split; [auto|]. split; [intros _; exact Hfind|]. split; [discriminate|]. lia.
  - destruct (Z.ltb_spec 0xFFF0
                (StringTableBuilder.currentOffset_ b
                 + StringTableBuilder.strlen str + 1)) as [Hover|Hfits].
    + cbn [fst snd]. split; [repeat split; assumption|].
      split; [auto|]. split.
      * intros [[x Hx]|Hroom]; [discriminate Hx | lia].
      * split; [reflexivity | lia].
    + cbn [fst snd StringTableBuilder.strings_ StringTableBuilder.indexMap_
           StringTableBuilder.currentOffset_].
      unfold u16. rewrite Z.mod_small by lia.
      split; [|split; [|split; [|split; [|lia]]]].
      * unfold TableInv.
        cbn [StringTableBuilder.strings_ StringTableBuilder.indexMap_
             StringTableBuilder.currentOffset_].
        split; [|split; [lia|]].
        -- unfold StringTableBuilder.write in *.
           cbn [StringTableBuilder.strings_].
           fold tableEntry in *. rewrite write_app, length_app, Nat2Z.inj_add.
           rewrite tableEntry_length. lia.
        -- intros s off Hs.
           destruct (decide (str = s)) as [->|Hne].
           ++ rewrite lookup_insert_eq in Hs. injection Hs as <-.
              exists (StringTableBuilder.strings_ b), [].
              split; [reflexivity|].
              unfold StringTableBuilder.write in Hoff. exact Hoff.
           ++ rewrite lookup_insert_ne in Hs by exact Hne.
              destruct (Hmap s off Hs) as (l1 & l2 & Hl & Ho).
              exists l1, (l2 ++ [str]). rewrite Hl, <- app_assoc.
              split; [reflexivity | exact Ho].
      * intros s off Hs.
        destruct (decide (str = s)) as [->|Hne]; [congruence|].
        rewrite lookup_insert_ne by exact Hne. exact Hs.
      * intros _. apply lookup_insert_eq.
      * intros _ Hover. lia.
Qed.

(** A string of the index map is read back from the written table at its
    recorded offset, wherever the table lies in the buffer. *)
Lemma read_back (b : StringTableBuilder.State) (str : string) (off : Z)
    (pre post : list Z) :
  TableInv b ->
  StringTableBuilder.indexMap_ b !! str = Some off ->
  NULfree str ->
  Protocol.readStringFromTable (pre ++ StringTableBuilder.write b ++ post)
    (Z.of_nat (length pre)) off (StringTableBuilder.size b) = str
  /\ 0 <= off < StringTableBuilder.size b.
Proof.
  intros (Hoff & _ & Hmap) Hfind Hnul.
  destruct (Hmap str off Hfind) as (l1 & l2 & Hl & Ho).
  unfold StringTableBuilder.size. rewrite Hoff.
  unfold StringTableBuilder.write in *. fold tableEntry in *. rewrite Hl in *.
  rewrite flat_map_app in *. cbn [flat_map] in *.
  rewrite !length_app in *. pose proof (tableEntry_length str) as Hentry.
  unfold StringTableBuilder.strlen in Hentry.
  split; [|lia].
  assert (Heq : pre ++ (flat_map tableEntry l1 ++ tableEntry str
                        ++ flat_map tableEntry l2) ++ post
                = (pre ++ flat_map tableEntry l1)
                  ++ text str ++ 0 :: (flat_map tableEntry l2 ++ post)).
  { unfold tableEntry at 2. rewrite <- !app_assoc. reflexivity. }
  change (flat_map (fun s : string => text s ++ [0]) l1) with (flat_map tableEntry l1).
  rewrite Heq.
  rewrite readString_at.
  - apply string_of_bytes_text.
  - lia.
  - lia.
  - rewrite length_app. lia.
  - apply text_nonzero. exact Hnul.
  - rewrite text_length. lia.
Qed.

Lemma addAll_spec (strs : list string) :
  forall b : StringTableBuilder.State,
  TableInv b ->
  Forall (fun s => StringTableBuilder.strlen s < 2 ^ 31) strs ->
  TableInv (addAll b strs)
  /\ (forall s off, StringTableBuilder.indexMap_ b !! s = Some off ->
                    StringTableBuilder.indexMap_ (addAll b strs) !! s = Some off)
  /\ StringTableBuilder.size b <= StringTableBuilder.size (addAll b strs).
Proof.
  induction strs as [|str strs IH]; intros b Hinv Hmem; cbn [addAll fold_left].
  - split; [exact Hinv|]. split; [auto | lia].
  - apply Forall_cons in Hmem as [Hstr Hmem].
    destruct (add_spec b str Hinv Hstr) as (Hinv' & Hmono & _ & _ & Hsize).
    destruct (IH _ Hinv' Hmem) as (Hinv2 & Hmono2 & Hsize2).
    fold (addAll (fst (StringTableBuilder.add b str)) strs).
    split; [exact Hinv2|]. split; [auto | lia].
Qed.

(** X16.  The string table written by [StringTableBuilder] is read back by
    the parser's [readStringFromTable].  Start from the empty builder and
    add any strings; then add [str], a C string that is either already in
    the table or still fits below the limit of [0xFFF0] bytes; then add any
    further strings.  Wherever the written table is placed in a buffer,
    reading at the offset that [add] returned for [str] yields [str], and
    the table is at most [0xFFF0] bytes long.  If instead [str] is new and
    does not fit, [add] returns offset 0 and leaves the builder unchanged,
    so the offset returned is that of the first string of the table.  Adding
    a string twice returns the same offset and adds nothing. *)
Theorem string_table_round_trip (before later : list string) (str : string)
    (pre post : list Z) :
  Forall (fun s => StringTableBuilder.strlen s < 2 ^ 31) (before ++ str :: later) ->
  let b := addAll StringTableBuilder.empty before in
  let r := StringTableBuilder.add b str in
  let final := addAll (fst r) later in
  (NULfree str ->
   is_Some (StringTableBuilder.indexMap_ b !! str)
   \/ StringTableBuilder.size b + StringTableBuilder.strlen str + 1 <= 0xFFF0 ->
   Protocol.readStringFromTable (pre ++ StringTableBuilder.write final ++ post)
     (Z.of_nat (length pre)) (snd r) (StringTableBuilder.size final) = str
   /\ 0 <= snd r < StringTableBuilder.size final
   /\ StringTableBuilder.size final <= 0xFFF0)
  /\ (StringTableBuilder.indexMap_ b !! str = None ->
      0xFFF0 < StringTableBuilder.size b + StringTableBuilder.strlen str + 1 ->
      r = (b, 0))
  /\ StringTableBuilder.add (fst r) str = r.
Proof.
  intros Hmem. cbv zeta.
  apply Forall_app in Hmem as [Hbefore Hrest].
  apply Forall_cons in Hrest as [Hstr Hlater].
  destruct (addAll_spec before _ TableInv_empty Hbefore) as (Hinv & _ & _).
  destruct (add_spec _ str Hinv Hstr) as (Hinv1 & Hmono1 & Hfound & Hover & Hsize).
  destruct (addAll_spec later _ Hinv1 Hlater) as (Hinv2 & Hmono2 & Hsize2).
  split; [|split].
  - intros Hnul Hroom.
    pose proof (Hmono2 _ _ (Hfound Hroom)) as Hfinal.
    destruct (read_back _ str _ pre post Hinv2 Hfinal Hnul) as [Hread Hrange].
    split; [exact Hread|]. split; [exact Hrange|].
    destruct Hinv2 as (_ & Hmax & _). exact Hmax.
  - exact Hover.
  - clear Hinv1 Hmono1 Hfound Hover Hsize Hinv2 Hmono2 Hsize2.
    destruct (StringTableBuilder.add (addAll StringTableBuilder.empty before) str)
      as [b' off] eqn:Hadd.
    cbn [fst]. unfold StringTableBuilder.add in *.
    destruct (StringTableBuilder.indexMap_
                (addAll StringTableBuilder.empty before) !! str) as [o|] eqn:Hfind.
    + injection Hadd as <- <-. rewrite Hfind. reflexivity.
    + destruct (0xFFF0 <? u32 _) eqn:Hcmp.
      * injection Hadd as <- <-. rewrite Hfind, Hcmp. reflexivity.
      * injection Hadd as <- <-. cbn [StringTableBuilder.indexMap_].
        rewrite lookup_insert_eq. reflexivity.
Qed.

Lemma string_table_round_trip_witness :
  let before := ["W4RP-01"; "1.0"]%string in
  let r := StringTableBuilder.add (addAll StringTableBuilder.empty before) "log" in
  let final := addAll (fst r) ["1.0"; "led"]%string in
  Forall (fun s => StringTableBuilder.strlen s < 2 ^ 31)
         (before ++ "log"%string :: ["1.0"; "led"]%string)
  /\ NULfree "log"
  /\ snd r = 12
  /\ StringTableBuilder.size final = 20
  /\ Protocol.readStringFromTable ([9; 9] ++ StringTableBuilder.write final ++ [7])
       (Z.of_nat (length [9; 9])) (snd r) (StringTableBuilder.size final)
     = "log"%string.
Proof.
  cbv zeta.
  assert (Hmem : Forall (fun s => StringTableBuilder.strlen s < 2 ^ 31)
                   (["W4RP-01"; "1.0"]%string ++ "log"%string :: ["1.0"; "led"]%string))
    by (repeat constructor).
  assert (Hnul : NULfree "log") by (repeat constructor; discriminate).
  split; [exact Hmem|]. split; [exact Hnul|].
  split; [vm_compute; reflexivity|]. split; [vm_compute; reflexivity|].
  pose proof (string_table_round_trip ["W4RP-01"; "1.0"]%string
                ["1.0"; "led"]%string "log" [9; 9] [7] Hmem) as Hthm.
  cbv zeta in Hthm. destruct Hthm as [Hread _].
  assert (Hroom : StringTableBuilder.size
                    (addAll StringTableBuilder.empty ["W4RP-01"; "1.0"]%string)
                  + StringTableBuilder.strlen "log" + 1 <= 0xFFF0)
    by (vm_compute; discriminate).
  exact (proj1 (Hread Hnul (or_intror Hroom))).
Defined.

(** ** The layout of a serialized profile *)

Lemma le16_length (z : Z) : length (le16 z) = 2%nat.
Proof. reflexivity. Qed.

Lemma addAll_app (b : StringTableBuilder.State) (l1 l2 : list string) :
  addAll b (l1 ++ l2) = addAll (addAll b l1) l2.
Proof. unfold addAll. apply fold_left_app. Qed.

Lemma addParam_fold (ps : list CapabilityParamMeta) :
  forall acc : ProfileSerializer.Collected,
  let acc' := fold_left ProfileSerializer.addParam ps acc in
  ProfileSerializer.strTable acc'
  = addAll (ProfileSerializer.strTable acc) (flat_map paramStrings ps)
  /\ ProfileSerializer.capEntries acc' = ProfileSerializer.capEntries acc
  /\ exists new,
       ProfileSerializer.capParams acc' = ProfileSerializer.capParams acc ++ new
       /\ length new = length ps
       /\ Forall (fun x => length x = 12%nat) new.
Proof.
  induction ps as [|p ps IH]; intros acc; cbv zeta.
  - cbn. split; [reflexivity|]. split; [reflexivity|].
    exists []. rewrite app_nil_r. repeat split. constructor.
  - cbn [fold_left flat_map].
    destruct (IH (ProfileSerializer.addParam acc p)) as (H1 & H2 & new & H3 & H4 & H5).
    rewrite H1, H2, H3. split; [|split; [reflexivity|]].
    + rewrite addAll_app. reflexivity.
    + eexists (_ :: new).
      cbn [ProfileSerializer.addParam ProfileSerializer.capParams].
      rewrite <- app_assoc. split; [reflexivity|].
      split; [cbn [length]; rewrite H4; reflexivity|].
      constructor; [reflexivity | exact H5].
Qed.

Lemma addCapability_fold (caps : list CapabilityMeta) :
  forall acc : ProfileSerializer.Collected,
  let acc' := fold_left ProfileSerializer.addCapability caps acc in
  ProfileSerializer.strTable acc'
  = addAll (ProfileSerializer.strTable acc) (flat_map capabilityStrings caps)
  /\ (exists new,
        ProfileSerializer.capEntries acc' = ProfileSerializer.capEntries acc ++ new
        /\ length new = length caps
        /\ Forall (fun x => length x = 12%nat) new)
  /\ exists new,
       ProfileSerializer.capParams acc' = ProfileSerializer.capParams acc ++ new
       /\ length new = paramTotal caps
       /\ Forall (fun x => length x = 12%nat) new.
Proof.
  induction caps as [|meta caps IH]; intros acc; cbv zeta.
  - cbn. split; [reflexivity|].
    split; exists []; rewrite app_nil_r; repeat split; constructor.
  - cbn [fold_left flat_map].
    destruct (IH (ProfileSerializer.addCapability acc meta))
      as (H1 & (newE & HE1 & HE2 & HE3) & (newP & HP1 & HP2 & HP3)).
    rewrite H1, HE1, HP1. clear H1 HE1 HP1 IH.
    unfold ProfileSerializer.addCapability at 1 2 3. cbv zeta.
    match goal with
    | |- context [fold_left ProfileSerializer.addParam (cm_params meta) ?a] =>
        destruct (addParam_fold (cm_params meta) a) as (G1 & G2 & newQ & G3 & G4 & G5)
    end.
    cbv zeta in G1, G2, G3.
    cbn [ProfileSerializer.strTable ProfileSerializer.capEntries
         ProfileSerializer.capParams] in *.
    rewrite G1, G2, G3. split; [|split].
    + unfold capabilityStrings. rewrite !addAll_app. reflexivity.
    + eexists (_ :: newE). rewrite <- app_assoc. split; [reflexivity|].
      split; [cbn [length]; rewrite HE2; reflexivity|].
      constructor; [reflexivity | exact HE3].
    + exists (newQ ++ newP). rewrite <- app_assoc. split; [reflexivity|].
      split; [|apply Forall_app; split; assumption].
      unfold paramTotal. cbn [flat_map]. rewrite !length_app.
      unfold paramTotal in HP2. lia.
Qed.

Lemma concat_length_12 (l : list (list Z)) :
  Forall (fun x => length x = 12%nat) l -> length (concat l) = (12 * length l)%nat.
Proof.
  induction 1 as [|x l Hx _ IH]; [reflexivity|].
  cbn [concat length]. rewrite length_app, Hx, IH. lia.
Qed.

Lemma rd16_le16 (z : Z) : 0 <= z < 2 ^ 16 ->
  z mod 256 mod 2 ^ 8 + 2 ^ 8 * (z / 2 ^ 8 mod 256 mod 2 ^ 8) = z.
Proof.
  intros Hz. change (2 ^ 8) with 256. rewrite !Z.mod_mod by lia.
  rewrite (Z.mod_small (z / 256)) by (split; [apply Z.div_pos; lia |
                                              apply Z.div_lt_upper_bound; lia]).
  pose proof (Z.div_mod z 256 ltac:(lia)). lia.
Qed.

(** X17.  The layout of a serialized profile.  Let [table] be the string
    table built from the profile's strings in the order in which the
    serializer adds them, and let
    [tableOff = 32 + 12 * (capabilities + parameters)].  The serializer
    writes nothing (and returns 0) exactly when [tableOff] plus the table
    size exceeds [maxLen]; otherwise it writes exactly that many bytes: they
    start with the profile magic and the version, bytes 30..31 hold
    [tableOff], and the string table occupies the bytes from [tableOff] on.
    When the four header strings are C strings that fit the table together,
    the string offsets stored at bytes 6, 8, 10 and 12 of the header read
    back, through [readStringFromTable] on the written bytes, as the module
    id, the hardware version, the firmware version and the serial number. *)
Theorem serializeProfile_layout (maxLen : Z)
    (moduleId hwVersion fwVersion serial : string)
    (uptimeMs bootCount rulesMode rulesCRC : Z)
    (signalCount conditionCount actionCount ruleCount : Z)
    (capabilities : list CapabilityMeta) :
  Forall (fun s => StringTableBuilder.strlen s < 2 ^ 31)
         (profileStrings moduleId hwVersion fwVersion serial capabilities) ->
  let table := addAll StringTableBuilder.empty
                 (profileStrings moduleId hwVersion fwVersion serial capabilities) in
  let tableOff :=
    32 + 12 * (Z.of_nat (length capabilities) + Z.of_nat (paramTotal capabilities)) in
  let tableLen := StringTableBuilder.size table in
  let out := ProfileSerializer.serializeProfile maxLen moduleId hwVersion fwVersion
               serial uptimeMs bootCount rulesMode rulesCRC signalCount
               conditionCount actionCount ruleCount capabilities in
  0 <= tableLen <= 0xFFF0
  /\ (maxLen < tableOff + tableLen -> out = [])
  /\ (tableOff + tableLen <= maxLen ->
      Z.of_nat (length out) = tableOff + tableLen
      /\ rd32 out 0 = WBP_MAGIC_PROFILE
      /\ rd8 out 4 = WBP_VERSION
      /\ (tableOff < 2 ^ 16 -> rd16 out 30 = tableOff)
      /\ drop (Z.to_nat tableOff) out = StringTableBuilder.write table
      /\ (Forall NULfree [moduleId; hwVersion; fwVersion; serial] ->
          StringTableBuilder.strlen moduleId + StringTableBuilder.strlen hwVersion
          + StringTableBuilder.strlen fwVersion + StringTableBuilder.strlen serial + 4
          <= 0xFFF0 ->
          Protocol.readStringFromTable out tableOff (rd16 out 6) tableLen = moduleId
          /\ Protocol.readStringFromTable out tableOff (rd16 out 8) tableLen
             = hwVersion
          /\ Protocol.readStringFromTable out tableOff (rd16 out 10) tableLen
             = fwVersion
          /\ Protocol.readStringFromTable out tableOff (rd16 out 12) tableLen
             = serial)).
Proof.
  intros Hmem. cbv zeta.
  unfold profileStrings in *. apply Forall_app in Hmem as [Hhead Hcaps].
  apply Forall_cons in Hhead as [M1 Hhead]. apply Forall_cons in Hhead as [M2 Hhead].
  apply Forall_cons in Hhead as [M3 Hhead]. apply Forall_cons in Hhead as [M4 _].
  rewrite addAll_app. cbn [addAll fold_left].
  set (r1 := StringTableBuilder.add StringTableBuilder.empty moduleId).
  set (r2 := StringTableBuilder.add (fst r1) hwVersion).
  set (r3 := StringTableBuilder.add (fst r2) fwVersion).
  set (r4 := StringTableBuilder.add (fst r3) serial).
  fold (addAll (fst r4) (flat_map capabilityStrings capabilities)).
  destruct (add_spec _ moduleId TableInv_empty M1) as (I1 & _ & F1 & _ & S1).
  fold r1 in I1, F1, S1.
  destruct (add_spec _ hwVersion I1 M2) as (I2 & N2 & F2 & _ & S2).
  fold r2 in I2, N2, F2, S2.
  destruct (add_spec _ fwVersion I2 M3) as (I3 & N3 & F3 & _ & S3).
  fold r3 in I3, N3, F3, S3.
  destruct (add_spec _ serial I3 M4) as (I4 & N4 & F4 & _ & S4).
  fold r4 in I4, N4, F4, S4.
  destruct (addAll_spec _ _ I4 Hcaps) as (IF & NF & SF).
  set (table := addAll (fst r4) (flat_map capabilityStrings capabilities)) in *.
  unfold ProfileSerializer.serializeProfile. cbv zeta. fold r1 r2 r3 r4.
  destruct (addCapability_fold capabilities
              {| ProfileSerializer.strTable := fst r4;
                 ProfileSerializer.capEntries := [];
                 ProfileSerializer.capParams := [] |})
    as (T1 & (newE & E1 & E2 & E3) & (newP & P1 & P2 & P3)).
  cbv zeta in T1, E1, P1.
  cbn [ProfileSerializer.strTable ProfileSerializer.capEntries
       ProfileSerializer.capParams app] in T1, E1, P1.
  fold table in T1. rewrite T1, E1, P1, E2, P2.
  unfold ProfileSerializer.sizeof_WBPProfileHeader,
    ProfileSerializer.sizeof_WBPCapability, ProfileSerializer.sizeof_WBPCapParam.
  assert (Hsize0 : 0 <= StringTableBuilder.size table <= 0xFFF0).
  { destruct IF as (Ho & Hmax & _). unfold StringTableBuilder.size. lia. }
  split; [exact Hsize0|].
  set (tableOff := 32 + 12 * (Z.of_nat (length capabilities)
                              + Z.of_nat (paramTotal capabilities))).
  replace (32 + Z.of_nat (length capabilities) * 12
           + Z.of_nat (paramTotal capabilities) * 12) with tableOff by (subst tableOff; lia).
  split.
  { intros Hbig. replace (maxLen <? _) with true by zbool. reflexivity. }
  intros Hfit. replace (maxLen <? _) with false by zbool.
  set (body := concat newE ++ concat newP).
  assert (Hbody : Z.of_nat (length body) = tableOff - 32).
  { subst body tableOff. rewrite length_app, !concat_length_12 by assumption. lia. }
  set (header := ProfileSerializer.headerBytes _ _ _ _ _ _ _ _ _ _ _ _ _ _).
  assert (Hhdr : length header = 32%nat) by reflexivity.
  assert (Hpre : Z.of_nat (length (header ++ body)) = tableOff)
    by (rewrite length_app; lia).
  replace (header ++ concat newE ++ concat newP ++ StringTableBuilder.write table)
    with ((header ++ body) ++ StringTableBuilder.write table)
    by (subst body; rewrite <- !app_assoc; reflexivity).
  assert (Htab : 0 <= tableOff) by (subst tableOff; lia).
  assert (Hrd : forall (i : nat) (rest : list Z),
            (i < 32)%nat ->
            byteAt (header ++ rest) (Z.of_nat i) = u8 (nth i header 0)).
  { intros i rest Hi. unfold byteAt. rewrite Nat2Z.id.
    rewrite app_nth1 by lia. reflexivity. }
  assert (Hsto : StringTableBuilder.currentOffset_ table
                 = Z.of_nat (length (StringTableBuilder.write table)))
    by (destruct IF as (Ho & _); exact Ho).
  rewrite <- !app_assoc.
  split; [|split; [|split; [|split; [|split]]]].
  - rewrite !length_app, Nat2Z.inj_add, Nat2Z.inj_add.
    rewrite length_app in Hpre. unfold StringTableBuilder.size. lia.
  - unfold rd32. rewrite (Hrd 0%nat), (Hrd 1%nat), (Hrd 2%nat), (Hrd 3%nat) by lia.
    reflexivity.
  - unfold rd8. rewrite (Hrd 4%nat) by lia. reflexivity.
  - intros Hsmall. unfold rd16. rewrite (Hrd 30%nat), (Hrd 31%nat) by lia.
    subst header. cbn [ProfileSerializer.headerBytes le32 le16 app nth].
    unfold u8. replace (32 + Z.of_nat (length capabilities) * 12
                        + Z.of_nat (paramTotal capabilities) * 12) with tableOff
      by (subst tableOff; lia).
    apply rd16_le16. lia.
  - rewrite app_assoc. rewrite <- Hpre, Nat2Z.id. apply drop_app_length.
  - intros Hnul Hroom.
    apply Forall_cons in Hnul as [U1 Hnul]. apply Forall_cons in Hnul as [U2 Hnul].
    apply Forall_cons in Hnul as [U3 Hnul]. apply Forall_cons in Hnul as [U4 _].
    assert (L1 : 0 <= StringTableBuilder.strlen moduleId)
      by (unfold StringTableBuilder.strlen; lia).
    assert (L2 : 0 <= StringTableBuilder.strlen hwVersion)
      by (unfold StringTableBuilder.strlen; lia).
    assert (L3 : 0 <= StringTableBuilder.strlen fwVersion)
      by (unfold StringTableBuilder.strlen; lia).
    assert (L4 : 0 <= StringTableBuilder.strlen serial)
      by (unfold StringTableBuilder.strlen; lia).
    unfold StringTableBuilder.size in *.
    change (StringTableBuilder.currentOffset_ StringTableBuilder.empty) with 0 in *.
    assert (G1 : StringTableBuilder.indexMap_ (fst r1) !! moduleId = Some (snd r1))
      by (apply F1; right; lia).
    assert (G2 : StringTableBuilder.indexMap_ (fst r2) !! hwVersion = Some (snd r2))
      by (apply F2; right; lia).
    assert (G3 : StringTableBuilder.indexMap_ (fst r3) !! fwVersion = Some (snd r3))
      by (apply F3; right; lia).
    assert (G4 : StringTableBuilder.indexMap_ (fst r4) !! serial = Some (snd r4))
      by (apply F4; right; lia).
    pose proof (NF _ _ (N4 _ _ (N3 _ _ (N2 _ _ G1)))) as K1.
    pose proof (NF _ _ (N4 _ _ (N3 _ _ G2))) as K2.
    pose proof (NF _ _ (N4 _ _ G3)) as K3.
    pose proof (NF _ _ G4) as K4.
    assert (Hread : forall (str : string) (off : Z) (i : nat),
              StringTableBuilder.indexMap_ table !! str = Some off ->
              NULfree str -> (i < 31)%nat ->
              u8 (nth i header 0) + 2 ^ 8 * u8 (nth (S i) header 0) = off ->
              Protocol.readStringFromTable
                (header ++ body ++ StringTableBuilder.write table) tableOff
                (rd16 (header ++ body ++ StringTableBuilder.write table) (Z.of_nat i))
                (StringTableBuilder.size table) = str).
    { intros str off i Hfind Hn Hi Hval.
      unfold rd16. replace (Z.of_nat i + 1) with (Z.of_nat (S i)) by lia.
      rewrite (Hrd i), (Hrd (S i)) by lia. rewrite Hval.
      destruct (read_back table str off (header ++ body) [] IF Hfind Hn) as [Hr _].
      rewrite app_nil_r, Hpre, <- app_assoc in Hr. exact Hr. }
    assert (Hidx : forall (str : string) (off : Z),
              StringTableBuilder.indexMap_ table !! str = Some off ->
              NULfree str ->
              off mod 256 mod 2 ^ 8 + 2 ^ 8 * (off / 2 ^ 8 mod 256 mod 2 ^ 8) = off).
    { intros str off Hfind Hn. apply rd16_le16.
      destruct (read_back table str off [] [] IF Hfind Hn) as [_ Hr].
      unfold StringTableBuilder.size in Hr. lia. }
    split; [|split; [|split]].
    + apply (Hread moduleId (snd r1) 6%nat K1 U1); [lia|]. exact (Hidx _ _ K1 U1).
    + apply (Hread hwVersion (snd r2) 8%nat K2 U2); [lia|]. exact (Hidx _ _ K2 U2).
    + apply (Hread fwVersion (snd r3) 10%nat K3 U3); [lia|]. exact (Hidx _ _ K3 U3).
    + apply (Hread serial (snd r4) 12%nat K4 U4); [lia|]. exact (Hidx _ _ K4 U4).
Qed.

Lemma serializeProfile_layout_witness :
  let caps := [{| cm_id := "log"; cm_label := "Log"; cm_description := "";
                  cm_category := "debug";
                  cm_params := [{| pm_name := "msg"; pm_type := "string";
                                   pm_required := true; pm_min := 0; pm_max := 0;
                                   pm_description := "" |}] |}] in
  let strs := profileStrings "W4RP-01" "1.0" "0.5.0" "" caps in
  let table := addAll StringTableBuilder.empty strs in
  let tableOff := 32 + 12 * (Z.of_nat (length caps) + Z.of_nat (paramTotal caps)) in
  let tableLen := StringTableBuilder.size table in
  let out := ProfileSerializer.serializeProfile 2048 "W4RP-01" "1.0" "0.5.0" ""
               1000 3 1 0 0 0 0 0 caps in
  Forall (fun s => StringTableBuilder.strlen s < 2 ^ 31) strs
  /\ tableOff + tableLen <= 2048
  /\ Z.of_nat (length out) = tableOff + tableLen
  /\ rd16 out 30 = tableOff
  /\ Protocol.readStringFromTable out tableOff (rd16 out 6) tableLen = "W4RP-01"%string
  /\ Protocol.readStringFromTable out tableOff (rd16 out 10) tableLen = "0.5.0"%string.
Proof.
  cbv zeta.
  set (caps := [{| cm_id := "log"; cm_label := "Log"; cm_description := "";
                   cm_category := "debug";
                   cm_params := [{| pm_name := "msg"; pm_type := "string";
                                    pm_required := true; pm_min := 0; pm_max := 0;
                                    pm_description := "" |}] |}]).
  assert (Hmem : Forall (fun s => StringTableBuilder.strlen s < 2 ^ 31)
                   (profileStrings "W4RP-01" "1.0" "0.5.0" "" caps))
    by (repeat constructor).
  assert (Hfit : 32 + 12 * (Z.of_nat (length caps) + Z.of_nat (paramTotal caps))
                 + StringTableBuilder.size
                     (addAll StringTableBuilder.empty
                        (profileStrings "W4RP-01" "1.0" "0.5.0" "" caps)) <= 2048)
    by (vm_compute; discriminate).
  pose proof (serializeProfile_layout 2048 "W4RP-01" "1.0" "0.5.0" "" 1000 3 1 0 0 0 0 0
                caps Hmem) as Hthm.
  cbv zeta in Hthm. destruct Hthm as (_ & _ & Hok).
  destruct (Hok Hfit) as (Hlen & _ & _ & Hsto & _ & Hstr).
  destruct Hstr as (H1 & _ & H3 & _);
    [repeat constructor; discriminate | vm_compute; discriminate|].
  split; [exact Hmem|]. split; [exact Hfit|]. split; [exact Hlen|].
  split; [apply Hsto; vm_compute; reflexivity|]. split; [exact H1 | exact H3].
Defined.

(** ** The two CRC-32 routines *)

Lemma lxor_range (a b n : Z) :
  0 <= n -> 0 <= a < 2 ^ n -> 0 <= b < 2 ^ n -> 0 <= Z.lxor a b < 2 ^ n.
Proof.
  intros Hn Ha Hb.
  assert (Hnn : 0 <= Z.lxor a b) by (apply Z.lxor_nonneg; lia).
  split; [exact Hnn|]. apply bound_of_high_bits; [lia | exact Hnn |].
  intros j Hj. rewrite Z.lxor_spec.
  assert (Hbit : forall x, 0 <= x < 2 ^ n -> Z.testbit x j = false).
  { intros x Hx. destruct (Z.eq_dec x 0) as [->|Hnz]; [apply Z.bits_0|].
    apply Z.bits_above_log2; [lia|].
    apply Z.lt_le_trans with n; [|lia]. apply Z.log2_lt_pow2; lia. }
  rewrite (Hbit a Ha), (Hbit b Hb). reflexivity.
Qed.

Lemma crc_bit_range (c : Z) : 0 <= c < 2 ^ 32 -> 0 <= crc_bit c < 2 ^ 32.
Proof.
  intros Hc. unfold crc_bit.
  assert (Hs : 0 <= Z.shiftr c 1 < 2 ^ 31).
  { rewrite Z.shiftr_div_pow2 by lia. change (2 ^ 1) with 2.
    split; [apply Z.div_pos; lia | apply Z.div_lt_upper_bound; lia]. }
  destruct (Z.odd c); [|lia].
  apply lxor_range; lia.
Qed.

Lemma crc_iter_range (n : nat) (c : Z) :
  0 <= c < 2 ^ 32 -> 0 <= Nat.iter n crc_bit c < 2 ^ 32.
Proof.
  intros Hc. induction n as [|n IH]; [exact Hc|]. cbn [Nat.iter].
  apply crc_bit_range. exact IH.
Qed.

Lemma crc_byte_range (c b : Z) : 0 <= c < 2 ^ 32 -> 0 <= crc_byte c b < 2 ^ 32.
Proof.
  intros Hc. unfold crc_byte. apply crc_iter_range.
  apply lxor_range; [lia | exact Hc |].
  unfold u8. pose proof (Z.mod_pos_bound b (2 ^ 8) ltac:(lia)). lia.
Qed.

Lemma crc_fold_range (buf : list Z) :
  forall c, 0 <= c < 2 ^ 32 -> 0 <= fold_left crc_byte buf c < 2 ^ 32.
Proof.
  induction buf as [|b buf IH]; intros c Hc; [exact Hc|].
  cbn [fold_left]. apply IH. apply crc_byte_range. exact Hc.
Qed.

(** The branch-free step of the single-file library is the step of the
    bitwise routine. *)
Lemma crc32_step_eq (c : Z) : W4RPBLE.crc32_step c = crc_bit c.
Proof.
  unfold W4RPBLE.crc32_step, crc_bit.
  assert (Hlow : Z.land c 1 = if Z.odd c then 1 else 0).
  { change 1 with (Z.ones 1). rewrite Z.land_ones by lia. change (2 ^ 1) with 2.
    rewrite Zmod_odd. reflexivity. }
  rewrite Hlow. destruct (Z.odd c).
  - f_equal.
  - transitivity (Z.lxor (Z.shiftr c 1) 0); [f_equal | apply Z.lxor_0_r].
Qed.

Lemma crc32_octet_eq (c b : Z) : W4RPBLE.crc32_octet c b = crc_byte c b.
Proof.
  unfold W4RPBLE.crc32_octet, crc_byte.
  generalize (Z.lxor c (u8 b)) 8%nat. intros x n.
  induction n as [|n IH]; [reflexivity|].
  rewrite !Nat.iter_succ, IH. apply crc32_step_eq.
Qed.

Lemma lnot_u32 (x : Z) : 0 <= x < 2 ^ 32 -> u32 (Z.lnot x) = Z.lxor x 0xFFFFFFFF.
Proof.
  intros Hx. unfold u32.
  change 0xFFFFFFFF with (Z.ones 32).
  apply Z.bits_inj'. intros j Hj.
  rewrite Z.lxor_spec.
  destruct (Z.lt_ge_cases j 32) as [Hlo|Hhi].
  - rewrite Z.mod_pow2_bits_low by lia.
    rewrite Z.lnot_spec by lia. rewrite Z.ones_spec_low by lia.
    rewrite xorb_true_r. reflexivity.
  - rewrite Z.mod_pow2_bits_high by lia.
    rewrite Z.ones_spec_high by lia. rewrite xorb_false_r.
    symmetry. destruct (Z.eq_dec x 0) as [->|Hnz]; [apply Z.bits_0|].
    apply Z.bits_above_log2; [lia|].
    apply Z.lt_le_trans with 32; [|lia]. apply Z.log2_lt_pow2; lia.
Qed.

(** X18.  The CRC-32 routine of the single-file library computes, for
    every buffer, the value that [Protocol::calculateCRC32] obtains from
    [esp_crc32_le(0, ...)], and that value is a 32-bit number. *)
Theorem crc32_ieee_is_calculateCRC32 (data : list Z) :
  W4RPBLE.crc32_ieee data = Protocol.calculateCRC32 data
  /\ 0 <= W4RPBLE.crc32_ieee data < 2 ^ 32.
Proof.
  assert (Hfold : fold_left W4RPBLE.crc32_octet data 0xFFFFFFFF
                  = fold_left crc_byte data 0xFFFFFFFF).
  { generalize 0xFFFFFFFF. induction data as [|b data IH]; intros c; [reflexivity|].
    cbn [fold_left]. rewrite crc32_octet_eq. apply IH. }
  pose proof (crc_fold_range data 0xFFFFFFFF ltac:(lia)) as Hrange.
  assert (Heq : W4RPBLE.crc32_ieee data = Protocol.calculateCRC32 data).
  { unfold W4RPBLE.crc32_ieee, Protocol.calculateCRC32, esp_crc32_le.
    rewrite Hfold. change (Z.lxor 0 0xFFFFFFFF) with 0xFFFFFFFF.
    apply lnot_u32. exact Hrange. }
  split; [exact Heq|].
  unfold W4RPBLE.crc32_ieee, u32. apply Z.mod_pos_bound. lia.
Qed.
